(** * Red-men: the capture / analyze / speak loop of [App.tsx]

    A shallow embedding of the TypeScript sources

    - [src/App.tsx]             (audio helpers and the [App] component),
    - [src/constants.ts]        ([DEFAULT_ANALYSIS_INTERVAL_MS]),
    - [services/geminiService]  (the API-key guard, [analyzeFrame], [textToSpeech]),

    and the properties the specification states about them. *)

From Stdlib Require Import ZArith QArith Qround Lia.
From Stdlib Require Import Strings.Byte.
From stdpp Require Import gmap strings list.

Local Open Scope Z_scope.

(** ** JavaScript strings

    A string is the list of its code points (a surrogate pair is one
    element).  Literals of the source are written as Rocq strings and
    read through [js]. *)

Module JS.

Definition jsstring : Type := list N.

Definition js (s : string) : jsstring :=
  map Ascii.N_of_ascii (String.list_ascii_of_string s).

(** [!s] is true of the empty string only. *)
Definition truthy (s : jsstring) : bool :=
  match s with
  | [] => false
  | _ => true
  end.

Definition eqb (s t : jsstring) : bool := bool_decide (s = t).

(** ECMAScript WhiteSpace and LineTerminator, what [trim] strips. *)
Definition isWhiteSpace (c : N) : bool :=
  ((9 <=? c) && (c <=? 13)          (* TAB, LF, VT, FF, CR *)
   || (c =? 32) || (c =? 160)       (* SPACE, NBSP *)
   || (c =? 5760)                   (* U+1680 *)
   || (8192 <=? c) && (c <=? 8202)  (* U+2000 .. U+200A *)
   || (c =? 8232) || (c =? 8233)    (* U+2028, U+2029 *)
   || (c =? 8239) || (c =? 8287)    (* U+202F, U+205F *)
   || (c =? 12288) || (c =? 65279)  (* U+3000, U+FEFF *))%N.

Fixpoint trimStart (s : jsstring) : jsstring :=
  match s with
  | c :: rest => if isWhiteSpace c then trimStart rest else s
  | [] => []
  end.

Definition trimEnd (s : jsstring) : jsstring := rev (trimStart (rev s)).

Definition trim (s : jsstring) : jsstring := trimEnd (trimStart s).

Section ToUpperCase.

(** [String.prototype.toUpperCase] maps every code point to its full
    Unicode upper-case form and concatenates.  The table is the
    engine's; the embedding writes out its ASCII part and the two other
    code points whose upper-case form is an ASCII letter (dotless i and
    long s), and takes the rest as [unicodeUpper]. *)
Variable unicodeUpper : N -> list N.

Definition upperCodePoint (c : N) : list N :=
  if ((97 <=? c) && (c <=? 122))%N then [(c - 32)%N]
  else if (c <? 128)%N then [c]
  else if (c =? 305)%N then [73%N]   (* U+0131 -> I *)
  else if (c =? 383)%N then [83%N]   (* U+017F -> S *)
  else unicodeUpper c.

Definition toUpperCase (s : jsstring) : jsstring :=
  c ← s; upperCodePoint c.

End ToUpperCase.

(** The code points [unicodeUpper] is consulted for. *)
Definition beyondAscii (c : N) : Prop := (128 <= c)%N /\ c <> 305%N /\ c <> 383%N.

(** [atob]: the forgiving base64 decoder of the HTML standard. *)
Definition isAsciiWhitespace (c : N) : bool :=
  ((c =? 9) || (c =? 10) || (c =? 12) || (c =? 13) || (c =? 32))%N.

Definition base64Value (c : N) : option N :=
  if ((65 <=? c) && (c <=? 90))%N then Some (c - 65)%N          (* A-Z *)
  else if ((97 <=? c) && (c <=? 122))%N then Some (c - 71)%N    (* a-z *)
  else if ((48 <=? c) && (c <=? 57))%N then Some (c + 4)%N      (* 0-9 *)
  else if (c =? 43)%N then Some 62%N                            (* + *)
  else if (c =? 47)%N then Some 63%N                            (* / *)
  else None.

Definition byte_of_N (n : N) : byte := default x00 (Byte.of_N (n mod 256)%N).

Fixpoint base64Groups (vals : list N) : list byte :=
  match vals with
  | a :: b :: c :: d :: rest =>
      let n := (a * 262144 + b * 4096 + c * 64 + d)%N in
      byte_of_N (n / 65536) :: byte_of_N (n / 256) :: byte_of_N n
        :: base64Groups rest
  | [a; b; c] =>
      let n := ((a * 4096 + b * 64 + c) / 4)%N in
      [byte_of_N (n / 256); byte_of_N n]
  | [a; b] => [byte_of_N ((a * 64 + b) / 16)]
  | _ => []
  end.

Definition stripPadding (s : jsstring) : jsstring :=
  if (length s mod 4 =? 0)%nat then
    match rev s with
    | 61%N :: 61%N :: r => rev r
    | 61%N :: r => rev r
    | _ => s
    end
  else s.

Definition atob (data : jsstring) : option (list byte) :=
  let s := stripPadding (filter (fun c => isAsciiWhitespace c = false) data) in
  if (length s mod 4 =? 1)%nat then None
  else vals ← mapM base64Value s; Some (base64Groups vals).

End JS.

Export JS(jsstring, js).

(** ** Exceptions

    The source threads JavaScript exceptions through [try]/[catch]; the
    embedding returns them in a small error monad. *)

Inductive Exn : Type :=
  | RangeError            (* typed-array construction *)
  | NotSupportedError     (* Web Audio: an argument outside its nominal range *)
  | InvalidCharacterError (* atob on a string that is not base64 *)
  | TypeError             (* a property read on undefined *)
  | Error (message : jsstring)
  | NonError.             (* a thrown value that is not an Error instance *)

(** [e instanceof Error]. *)
Definition instanceofError (e : Exn) : bool :=
  match e with
  | NonError => false
  | _ => true
  end.

(** [e.message].  The wording of the built-in errors is the engine's;
    their names stand for it. *)
Definition exn_message (e : Exn) : jsstring :=
  match e with
  | Error message => message
  | RangeError => js "RangeError"
  | NotSupportedError => js "NotSupportedError"
  | InvalidCharacterError => js "InvalidCharacterError"
  | TypeError => js "TypeError"
  | NonError => []
  end.

Inductive Result (A : Type) : Type :=
  | Ok (a : A)
  | Throw (e : Exn).
Arguments Ok {A} a.
Arguments Throw {A} e.

#[global] Instance Result_ret : MRet Result := fun A a => Ok a.
#[global] Instance Result_bind : MBind Result := fun A B k r =>
  match r with
  | Ok a => k a
  | Throw e => Throw e
  end.

(** ** Audio helpers ([App.tsx], lines 15-43) *)

Module Audio.

(** A [Float32Array] element.  Every number the decoder stores is a
    dyadic rational that binary32 holds exactly (lemma
    [pcm_sample_binary32] below), so finite samples are kept as exact
    rationals; [NaN] is what [undefined / 32768.0] would store. *)
Inductive Sample : Type :=
  | Num (q : Q)
  | NaN.

Record AudioContext : Type := mkAudioContext {
  ctxSampleRate : Z
}.

Record AudioBuffer : Type := mkAudioBuffer {
  numberOfChannels : nat;
  bufLength : nat;
  sampleRate : Z;
  channels : list (list Sample)
}.

Definition byteZ (b : byte) : Z := Z.of_N (Byte.to_N b).

(** One element of an [Int16Array] laid over two bytes of the buffer,
    lower byte first (the platform order of every engine the program
    runs on), read as a two's-complement 16-bit integer. *)
Definition int16_of_bytes (lo hi : byte) : Z :=
  let u := byteZ lo + 256 * byteZ hi in
  if 32768 <=? u then u - 65536 else u.

Fixpoint int16_elements (buffer : list byte) : list Z :=
  match buffer with
  | lo :: hi :: rest => int16_of_bytes lo hi :: int16_elements rest
  | _ => []
  end.

(** [new Int16Array(data.buffer)]: a [RangeError] unless the byte length
    is a multiple of 2. *)
Definition new_Int16Array (buffer : list byte) : Result (list Z) :=
  if Nat.even (length buffer) then Ok (int16_elements buffer)
  else Throw RangeError.

(** The sample rates every [BaseAudioContext] must accept. *)
Definition supportedSampleRate (r : Z) : bool :=
  (8000 <=? r) && (r <=? 96000).

(** [ctx.createBuffer(numberOfChannels, length, sampleRate)]: a
    zero-filled buffer; [NotSupportedError] when an argument is zero or
    outside its nominal range. *)
Definition createBuffer (ctx : AudioContext) (numChannels frameCount : nat)
    (rate : Z) : Result AudioBuffer :=
  if (numChannels =? 0)%nat || (frameCount =? 0)%nat
     || negb (supportedSampleRate rate)
  then Throw NotSupportedError
  else Ok {| numberOfChannels := numChannels;
             bufLength := frameCount;
             sampleRate := rate;
             channels := replicate numChannels (replicate frameCount (Num 0)) |}.

(** [dataInt16[k] / 32768.0]; an index past the end reads [undefined]. *)
Definition pcm_sample (dataInt16 : list Z) (k : nat) : Sample :=
  match dataInt16 !! k with
  | Some x => Num (inject_Z x / 32768)
  | None => NaN
  end.

(** The inner loop, lines 38-40:
    [for (i = 0; i < frameCount; i++) channelData[i] = ...].
    A typed-array store past the end does nothing, as [<[i:=_]>] does. *)
Definition fill_channel (dataInt16 : list Z) (numChannels channel frameCount : nat)
    (channelData : list Sample) : list Sample :=
  foldl (fun cd i => <[i := pcm_sample dataInt16 (i * numChannels + channel)]> cd)
        channelData (seq 0 frameCount).

(** The outer loop, lines 36-41; [getChannelData(channel)] is the live
    array of that channel, written back in place. *)
Definition fill_channels (dataInt16 : list Z) (numChannels frameCount : nat)
    (chans : list (list Sample)) : list (list Sample) :=
  foldl (fun cs channel =>
           match cs !! channel with
           | Some cd =>
               <[channel := fill_channel dataInt16 numChannels channel frameCount cd]> cs
           | None => cs
           end)
        chans (seq 0 numChannels).

(** [decodeAudioData], lines 26-43.  [frameCount] is the JavaScript
    quotient [dataInt16.length / numChannels]; [createBuffer] truncates
    it to an integer and the stores of a last, partial frame fall past
    the end of the channel arrays, so the integer quotient gives the same
    buffer. *)
Definition decodeAudioData (data : list byte) (ctx : AudioContext)
    (rate : Z) (numChannels : nat) : Result AudioBuffer :=
  dataInt16 ← new_Int16Array data;
  let frameCount := (length dataInt16 / numChannels)%nat in
  buffer ← createBuffer ctx numChannels frameCount rate;
  mret {| numberOfChannels := numberOfChannels buffer;
        bufLength := bufLength buffer;
        sampleRate := sampleRate buffer;
        channels := fill_channels dataInt16 numChannels frameCount (channels buffer) |}.

(** [binaryString.charCodeAt(i)] as a [Uint8Array] store takes it: past
    the end it is [NaN], which is stored as 0. *)
Definition charCodeAt (binaryString : list byte) (i : nat) : byte :=
  default x00 (binaryString !! i).

(** [decode], lines 16-24.  [atob] yields a binary string, kept as the
    list of its char codes (each below 256), or throws on a string that
    is not base64.  The loop copies the char codes into a fresh
    [Uint8Array]. *)
Definition decode (base64 : jsstring) : Result (list byte) :=
  match JS.atob base64 with
  | Some binaryString =>
      let len := length binaryString in
      Ok (foldl (fun bytes i => <[i := charCodeAt binaryString i]> bytes)
                (replicate len x00) (seq 0 len))
  | None => Throw InvalidCharacterError
  end.

(** The arguments of the one call site ([playAudio], lines 82-87). *)
Definition PLAYBACK_SAMPLE_RATE : Z := 24000.
Definition PLAYBACK_CHANNELS : nat := 1.

End Audio.

(** ** The documented PCM format, for the round trip

    The specification describes the payload as 16-bit signed
    little-endian PCM.  These definitions follow its words, not the
    code: the encoder the decoder is tested against, the quantiser that
    takes a normalised sample back to its integer, and what it means for
    a rational to be a binary32 number. *)

Module PcmSpec.

Definition is_int16 (x : Z) : Prop := -32768 <= x <= 32767.

Definition byte_of_Z (z : Z) : byte := default x00 (Byte.of_N (Z.to_N z)).

(** Two's complement, lower byte first. *)
Definition pcm16_encode (x : Z) : list byte :=
  let u := x mod 65536 in [byte_of_Z (u mod 256); byte_of_Z (u / 256)].

(** Nearest integer to [q * 32768]. *)
Definition pcm16_quantize (q : Q) : Z := Qfloor (q * 32768 + (1 # 2)).

(** [m * 2^e] with a 24-bit significand and an exponent in binary32's
    range (subnormals included): storing such a number in a
    [Float32Array] rounds nothing away. *)
Definition binary32_exact (q : Q) : Prop :=
  exists m e : Z,
    Z.abs m < 2 ^ 24 /\ -149 <= e <= 104 /\ (q == inject_Z m * 2 ^ e)%Q.

End PcmSpec.

(** ** The remote-client module ([services/geminiService]) *)

Module GeminiService.
Import JS.

Record GoogleGenAI : Type := mkGoogleGenAI {
  apiKey : string
}.

Definition try_catch {A : Type} (body : Result A) (handler : Exn -> Result A)
    : Result A :=
  match body with
  | Ok a => Ok a
  | Throw e => handler e
  end.

(** The module body, lines 4-8, run when the module is first imported:
    [process.env] is a map from names to strings, and [!process.env.API_KEY]
    holds of a missing and of an empty value. *)
Definition load (env : gmap string string) : Result GoogleGenAI :=
  match env !! "API_KEY"%string with
  | Some key =>
      if bool_decide (key = ""%string)
      then Throw (Error (js "API_KEY environment variable is not set"))
      else Ok {| apiKey := key |}
  | None => Throw (Error (js "API_KEY environment variable is not set"))
  end.

(** [analyzeFrame], lines 10-41.  [reply] is how
    [ai.models.generateContent] settles, read down to [response.text]
    ([None] for [undefined], on which [.trim()] is a [TypeError]). *)
Definition analyzeFrame (ai : GoogleGenAI) (reply : Result (option jsstring))
    : Result jsstring :=
  try_catch
    (text ← reply;
     match text with
     | Some text => Ok (trim text)
     | None => Throw TypeError
     end)
    (fun error =>
       if instanceofError error then Throw (Error (exn_message error))
       else Throw (Error (js "An unknown error occurred during analysis."))).

(** [textToSpeech], lines 43-71.  [reply] is how the call settles, read
    down the optional chain of line 58 ([None] for [undefined]). *)
Definition textToSpeech (ai : GoogleGenAI) (reply : Result (option jsstring))
    : Result jsstring :=
  try_catch
    (base64Audio ← reply;
     match base64Audio with
     | Some base64Audio =>
         if truthy base64Audio then Ok base64Audio
         else Throw (Error (js "No audio data received from TTS API."))
     | None => Throw (Error (js "No audio data received from TTS API."))
     end)
    (fun error =>
       if instanceofError error
       then Throw (Error (js "TTS Error: " ++ exn_message error))
       else Throw (Error (js "An unknown error occurred during text-to-speech conversion."))).

End GeminiService.

(** ** The [App] component ([App.tsx], lines 46-207)

    The component is a set of event handlers over React state; the
    embedding is a labelled transition system.  A step is one task of
    the event loop: the code of a handler from where it starts, or
    resumes after an [await], to its next [await] or its end.  The
    state updates of a task are batched; React re-renders after the task
    and then runs the effects whose dependencies changed, so the closures
    a later task runs hold the state of that render.  Time is in
    milliseconds; a timer fires at its due time or later.

    [App] is the root component and is mounted once.  The effect that
    hands the stream to the video element (lines 180-185) is left out,
    and so is the markup but for what it decides about events: the
    slider's range and its [disabled] attribute.  The unmount cleanup
    (lines 203-207) is no task of the system; it is
    [AppResources.unmount] below. *)

Module App.
Import JS Audio GeminiService.

Definition COOLDOWN_DURATION_MS : Z := 20000.        (* App.tsx, line 6 *)
Definition DEFAULT_ANALYSIS_INTERVAL_MS : Z := 10000. (* constants.ts, line 32 *)

(** The texts [setAnalysisResult] is given, in the order of the source. *)
Inductive StatusText : Type :=
  | StatusStart                     (* lines 51 and 73: turn the camera on to begin *)
  | StatusGreeting (result : jsstring)  (* line 119: the model's text *)
  | StatusCooldown (seconds : Z)    (* line 130: person detected, pausing *)
  | StatusReady                     (* line 133: ready to analyse *)
  | StatusNoPerson                  (* line 139: no person detected *)
  | StatusCameraOn.                 (* line 171: camera on, waiting *)

(** The texts [setError] is given. *)
Inductive ErrorText : Type :=
  | ErrPlayback                       (* line 95 *)
  | ErrAnalysis (message : jsstring)  (* line 146 *)
  | ErrCamera.                        (* line 174 *)

Definition MediaStream : Type := nat.

(** The three state values [runAnalysis] closes over (its dependency
    list, line 151). *)
Record Flags : Type := mkFlags {
  loading : bool;
  speaking : bool;
  onCooldown : bool
}.

#[global] Instance Flags_eq_dec : EqDecision Flags.
Proof. solve_decision. Defined.

(** What an analysis reply amounts to (the specification's
    [DetectionResult]). *)
Inductive DetectionResult : Type :=
  | Detected (text : jsstring)
  | NoPerson.

(** Browser timers share one pool of ids.  An interval's callback is a
    [runAnalysis] closure, known by the flags it captured. *)
Inductive Timer : Type :=
  | Interval (callback : Flags) (period due : Z)
  | Timeout (due : Z).

(** A [runAnalysis] call suspended at an [await]. *)
Inductive Suspended : Type :=
  | AwaitAnalyzeFrame (closure : Flags)  (* line 116 *)
  | AwaitTextToSpeech (text : jsstring)  (* line 124 *)
  | AwaitEnded.                          (* line 92, reached from line 125 *)

Record State : Type := mkState {
  (* useState, lines 47-54 *)
  isCameraOn : bool;
  isLoading : bool;
  isSpeaking : bool;
  isOnCooldown : bool;
  analysisResult : StatusText;
  error : option ErrorText;
  stream : option MediaStream;
  analysisInterval : Z;
  (* useRef, lines 58-60 *)
  analysisIntervalRef : option nat;
  streamRef : option MediaStream;
  audioContextRef : option AudioContext;
  (* the browser *)
  clock : Z;
  timers : gmap nat Timer;
  nextTimerId : nat;
  analyses : list Suspended;  (* suspended runAnalysis calls *)
  toggles : nat;              (* handleToggleCamera calls waiting on getUserMedia *)
  frames : list Z;            (* when a frame was drawn and encoded, newest first *)
  played : list AudioBuffer   (* buffers handed to source.start(), newest first *)
}.

Definition setIsCameraOn (v : bool) (s : State) : State :=
  mkState v (isLoading s) (isSpeaking s) (isOnCooldown s) (analysisResult s)
    (error s) (stream s) (analysisInterval s) (analysisIntervalRef s)
    (streamRef s) (audioContextRef s) (clock s) (timers s) (nextTimerId s)
    (analyses s) (toggles s) (frames s) (played s).

Definition setIsLoading (v : bool) (s : State) : State :=
  mkState (isCameraOn s) v (isSpeaking s) (isOnCooldown s)
    (analysisResult s) (error s) (stream s) (analysisInterval s)
    (analysisIntervalRef s) (streamRef s) (audioContextRef s) (clock s)
    (timers s) (nextTimerId s) (analyses s) (toggles s) (frames s)
    (played s).

Definition setIsSpeaking (v : bool) (s : State) : State :=
  mkState (isCameraOn s) (isLoading s) v (isOnCooldown s) (analysisResult s)
    (error s) (stream s) (analysisInterval s) (analysisIntervalRef s)
    (streamRef s) (audioContextRef s) (clock s) (timers s) (nextTimerId s)
    (analyses s) (toggles s) (frames s) (played s).

Definition setIsOnCooldown (v : bool) (s : State) : State :=
  mkState (isCameraOn s) (isLoading s) (isSpeaking s) v (analysisResult s)
    (error s) (stream s) (analysisInterval s) (analysisIntervalRef s)
    (streamRef s) (audioContextRef s) (clock s) (timers s) (nextTimerId s)
    (analyses s) (toggles s) (frames s) (played s).

Definition setAnalysisResult (v : StatusText) (s : State) : State :=
  mkState (isCameraOn s) (isLoading s) (isSpeaking s) (isOnCooldown s) v
    (error s) (stream s) (analysisInterval s) (analysisIntervalRef s)
    (streamRef s) (audioContextRef s) (clock s) (timers s) (nextTimerId s)
    (analyses s) (toggles s) (frames s) (played s).

Definition setError (v : option ErrorText) (s : State) : State :=
  mkState (isCameraOn s) (isLoading s) (isSpeaking s) (isOnCooldown s)
    (analysisResult s) v (stream s) (analysisInterval s)
    (analysisIntervalRef s) (streamRef s) (audioContextRef s) (clock s)
    (timers s) (nextTimerId s) (analyses s) (toggles s) (frames s)
    (played s).

Definition setStream (v : option MediaStream) (s : State) : State :=
  mkState (isCameraOn s) (isLoading s) (isSpeaking s) (isOnCooldown s)
    (analysisResult s) (error s) v (analysisInterval s)
    (analysisIntervalRef s) (streamRef s) (audioContextRef s) (clock s)
    (timers s) (nextTimerId s) (analyses s) (toggles s) (frames s)
    (played s).

Definition setAnalysisInterval (v : Z) (s : State) : State :=
  mkState (isCameraOn s) (isLoading s) (isSpeaking s) (isOnCooldown s)
    (analysisResult s) (error s) (stream s) v (analysisIntervalRef s)
    (streamRef s) (audioContextRef s) (clock s) (timers s) (nextTimerId s)
    (analyses s) (toggles s) (frames s) (played s).

Definition set_analysisIntervalRef (v : option nat) (s : State) : State :=
  mkState (isCameraOn s) (isLoading s) (isSpeaking s) (isOnCooldown s)
    (analysisResult s) (error s) (stream s) (analysisInterval s) v
    (streamRef s) (audioContextRef s) (clock s) (timers s) (nextTimerId s)
    (analyses s) (toggles s) (frames s) (played s).

Definition set_streamRef (v : option MediaStream) (s : State) : State :=
  mkState (isCameraOn s) (isLoading s) (isSpeaking s) (isOnCooldown s)
    (analysisResult s) (error s) (stream s) (analysisInterval s)
    (analysisIntervalRef s) v (audioContextRef s) (clock s) (timers s)
    (nextTimerId s) (analyses s) (toggles s) (frames s) (played s).

Definition set_audioContextRef (v : option AudioContext) (s : State) : State :=
  mkState (isCameraOn s) (isLoading s) (isSpeaking s) (isOnCooldown s)
    (analysisResult s) (error s) (stream s) (analysisInterval s)
    (analysisIntervalRef s) (streamRef s) v (clock s) (timers s)
    (nextTimerId s) (analyses s) (toggles s) (frames s) (played s).

Definition set_clock (v : Z) (s : State) : State :=
  mkState (isCameraOn s) (isLoading s) (isSpeaking s) (isOnCooldown s)
    (analysisResult s) (error s) (stream s) (analysisInterval s)
    (analysisIntervalRef s) (streamRef s) (audioContextRef s) v (timers s)
    (nextTimerId s) (analyses s) (toggles s) (frames s) (played s).

Definition set_timers (v : gmap nat Timer) (s : State) : State :=
  mkState (isCameraOn s) (isLoading s) (isSpeaking s) (isOnCooldown s)
    (analysisResult s) (error s) (stream s) (analysisInterval s)
    (analysisIntervalRef s) (streamRef s) (audioContextRef s) (clock s) v
    (nextTimerId s) (analyses s) (toggles s) (frames s) (played s).

Definition set_nextTimerId (v : nat) (s : State) : State :=
  mkState (isCameraOn s) (isLoading s) (isSpeaking s) (isOnCooldown s)
    (analysisResult s) (error s) (stream s) (analysisInterval s)
    (analysisIntervalRef s) (streamRef s) (audioContextRef s) (clock s)
    (timers s) v (analyses s) (toggles s) (frames s) (played s).

Definition set_analyses (v : list Suspended) (s : State) : State :=
  mkState (isCameraOn s) (isLoading s) (isSpeaking s) (isOnCooldown s)
    (analysisResult s) (error s) (stream s) (analysisInterval s)
    (analysisIntervalRef s) (streamRef s) (audioContextRef s) (clock s)
    (timers s) (nextTimerId s) v (toggles s) (frames s) (played s).

Definition set_toggles (v : nat) (s : State) : State :=
  mkState (isCameraOn s) (isLoading s) (isSpeaking s) (isOnCooldown s)
    (analysisResult s) (error s) (stream s) (analysisInterval s)
    (analysisIntervalRef s) (streamRef s) (audioContextRef s) (clock s)
    (timers s) (nextTimerId s) (analyses s) v (frames s) (played s).

Definition set_frames (v : list Z) (s : State) : State :=
  mkState (isCameraOn s) (isLoading s) (isSpeaking s) (isOnCooldown s)
    (analysisResult s) (error s) (stream s) (analysisInterval s)
    (analysisIntervalRef s) (streamRef s) (audioContextRef s) (clock s)
    (timers s) (nextTimerId s) (analyses s) (toggles s) v (played s).

Definition set_played (v : list AudioBuffer) (s : State) : State :=
  mkState (isCameraOn s) (isLoading s) (isSpeaking s) (isOnCooldown s)
    (analysisResult s) (error s) (stream s) (analysisInterval s)
    (analysisIntervalRef s) (streamRef s) (audioContextRef s) (clock s)
    (timers s) (nextTimerId s) (analyses s) (toggles s) (frames s) v.

Arguments setIsCameraOn _ _ /.
Arguments setIsLoading _ _ /.
Arguments setIsSpeaking _ _ /.
Arguments setIsOnCooldown _ _ /.
Arguments setAnalysisResult _ _ /.
Arguments setError _ _ /.
Arguments setStream _ _ /.
Arguments setAnalysisInterval _ _ /.
Arguments set_analysisIntervalRef _ _ /.
Arguments set_streamRef _ _ /.
Arguments set_audioContextRef _ _ /.
Arguments set_clock _ _ /.
Arguments set_timers _ _ /.
Arguments set_nextTimerId _ _ /.
Arguments set_analyses _ _ /.
Arguments set_toggles _ _ /.
Arguments set_frames _ _ /.
Arguments set_played _ _ /.

Notation "s |> f" := (f s) (at level 45, left associativity, only parsing).

Definition flags (s : State) : Flags :=
  mkFlags (isLoading s) (isSpeaking s) (isOnCooldown s).

(** The specification's [Idle]: no flag is up (the guard of line 101
    lets a tick through). *)
Definition isIdle (s : State) : bool :=
  negb (isLoading s || isSpeaking s || isOnCooldown s).

(** [if (ref.current)] on a timer id: 0 is falsy. *)
Definition truthyId (r : option nat) : option nat :=
  match r with
  | Some (S n) => Some (S n)
  | _ => None
  end.

Definition clearInterval (id : nat) (s : State) : State :=
  set_timers (delete id (timers s)) s.

Definition addTimer (tm : Timer) (s : State) : State :=
  s |> set_timers (<[nextTimerId s := tm]> (timers s))
    |> set_nextTimerId (S (nextTimerId s)).

Definition setTimeout (delay : Z) (s : State) : State :=
  addTimer (Timeout (clock s + delay)) s.

Definition suspend (call : Suspended) (s : State) : State :=
  set_analyses (analyses s ++ [call]) s.

(** [stopCamera], lines 62-74. *)
Definition stopCamera (s : State) : State :=
  let s := match truthyId (analysisIntervalRef s) with
           | Some id => s |> clearInterval id |> set_analysisIntervalRef None
           | None => s
           end in
  let s := match streamRef s with
           | Some _ => set_streamRef None s   (* after stopping its tracks *)
           | None => s
           end in
  s |> setStream None |> setIsCameraOn false |> setAnalysisResult StatusStart.

(** [playAudio], lines 76-97, up to its [await] on [onended]: the state,
    and whether the call is left waiting for the end of playback. *)
Definition playAudio (base64Audio : jsstring) (s : State) : State * bool :=
  match audioContextRef s with
  | None => (s, false)
  | Some ctx =>
      match data ← decode base64Audio;
            decodeAudioData data ctx PLAYBACK_SAMPLE_RATE PLAYBACK_CHANNELS with
      | Ok audioBuffer => (set_played (audioBuffer :: played s) s, true)
      | Throw e => (setError (Some ErrPlayback) s, false)
      end
  end.

(** The [finally] block, lines 128-135. *)
Definition finallyBlock (s : State) : State :=
  s |> setIsSpeaking false
    |> setAnalysisResult (StatusCooldown (COOLDOWN_DURATION_MS / 1000))
    |> setTimeout COOLDOWN_DURATION_MS.

(** The callback of that timeout, lines 131-134. *)
Definition cooldownExpired (s : State) : State :=
  s |> setIsOnCooldown false |> setAnalysisResult StatusReady.

Section Handlers.

Variable unicodeUpper : N -> list N.
Variable ai : GoogleGenAI.

(** The test of line 118. *)
Definition isDetected (result : jsstring) : bool :=
  truthy result && negb (JS.eqb (toUpperCase unicodeUpper result) (js "NOPERS")).

(** The branch taken there, in the specification's terms. *)
Definition detection (result : jsstring) : DetectionResult :=
  if isDetected result then Detected result else NoPerson.

(** [runAnalysis], lines 99-114 and 148-150: from the timer's call to
    the [await] of line 116.  [closure] holds the flags the callback
    captured; [mounted] says the two element refs are set, [context]
    that [getContext('2d')] gave a context. *)
Definition runAnalysis (closure : Flags) (mounted context : bool) (s : State)
    : State :=
  if negb mounted then s
  else if loading closure || speaking closure || onCooldown closure then s
  else
    let s := s |> setIsLoading true |> setError None in
    if context then
      s |> set_frames (clock s :: frames s) |> suspend (AwaitAnalyzeFrame closure)
    else setIsLoading false s.

(** Lines 116-122 and 136-147: [analyzeFrame] has settled. *)
Definition afterAnalyzeFrame (closure : Flags) (settled : Result jsstring)
    (s : State) : State :=
  match settled with
  | Ok result =>
      if isDetected result then
        s |> setAnalysisResult (StatusGreeting result)
          |> setIsLoading false
          |> setIsSpeaking true
          |> setIsOnCooldown true
          |> suspend (AwaitTextToSpeech result)
      else
        let s := setIsLoading false s in
        if negb (onCooldown closure) then setAnalysisResult StatusNoPerson s
        else s
  | Throw err =>
      let errorMessage :=
        if instanceofError err then exn_message err
        else js "An unknown error occurred." in
      s |> setIsLoading false |> setError (Some (ErrAnalysis errorMessage))
  end.

(** Lines 123-128: [textToSpeech] has settled. *)
Definition afterTextToSpeech (settled : Result jsstring) (s : State) : State :=
  match settled with
  | Ok audioData =>
      let '(s, waiting) := playAudio audioData s in
      if waiting then suspend AwaitEnded s else finallyBlock s
  | Throw ttsError => finallyBlock s
  end.

(** [handleToggleCamera], lines 153-163, to the [await] of line 164. *)
Definition handleToggleCamera (audioAvailable : bool) (s : State) : State :=
  if isCameraOn s then stopCamera s
  else
    let s := setError None s in
    match audioContextRef s with
    | Some _ => set_toggles (S (toggles s)) s
    | None =>
        if audioAvailable then
          s |> set_audioContextRef (Some (mkAudioContext PLAYBACK_SAMPLE_RATE))
            |> set_toggles (S (toggles s))
        else s |> setError (Some ErrCamera) |> setIsCameraOn false
    end.

(** Lines 164-176: [getUserMedia] has settled. *)
Definition afterGetUserMedia (settled : Result MediaStream) (s : State) : State :=
  match settled with
  | Ok mediaStream =>
      s |> set_streamRef (Some mediaStream)
        |> setStream (Some mediaStream)
        |> setIsCameraOn true
        |> setAnalysisResult StatusCameraOn
  | Throw err => s |> setError (Some ErrCamera) |> setIsCameraOn false
  end.

(** The interval effect, lines 187-201: the cleanup of its last run ... *)
Definition intervalCleanup (s : State) : State :=
  match truthyId (analysisIntervalRef s) with
  | Some id => clearInterval id s
  | None => s
  end.

(** ... and its body, which hands [setInterval] the [runAnalysis] of
    this render. *)
Definition intervalEffect (s : State) : State :=
  if isCameraOn s then
    s |> addTimer (Interval (flags s) (analysisInterval s)
                            (clock s + analysisInterval s))
      |> set_analysisIntervalRef (Some (nextTimerId s))
  else
    match truthyId (analysisIntervalRef s) with
    | Some id => s |> clearInterval id |> set_analysisIntervalRef None
    | None => s
    end.

(** The effect's dependency list, line 201; [runAnalysis] is a new
    function exactly when a flag changed. *)
Definition deps (s : State) : bool * Flags * Z :=
  (isCameraOn s, flags s, analysisInterval s).

(** The render after a task: the effect runs again if a dependency
    changed. *)
Definition commit (before after : State) : State :=
  if decide (deps after = deps before) then after
  else after |> intervalCleanup |> intervalEffect.

(** The range input, lines 255-266. *)
Definition sliderValue (v : Z) : bool :=
  (2000 <=? v) && (v <=? 20000) && (v mod 1000 =? 0).

(** The first suspended call of a kind, taken off the list. *)
Fixpoint resume {A : Type} (kind : Suspended -> option A) (calls : list Suspended)
    : option (A * list Suspended) :=
  match calls with
  | [] => None
  | call :: rest =>
      match kind call with
      | Some a => Some (a, rest)
      | None => '(a, rest') ← resume kind rest; Some (a, call :: rest')
      end
  end.

Definition analyzing (call : Suspended) : option Flags :=
  match call with AwaitAnalyzeFrame closure => Some closure | _ => None end.
Definition synthesizing (call : Suspended) : option jsstring :=
  match call with AwaitTextToSpeech text => Some text | _ => None end.
Definition playing (call : Suspended) : option unit :=
  match call with AwaitEnded => Some () | _ => None end.

Inductive Event : Type :=
  | Tick (id : nat) (mounted context : bool)      (* an interval timer fires *)
  | CooldownTimeout (id : nat)                    (* a timeout fires *)
  | AnalyzeFrameSettled (reply : Result (option jsstring))
  | TextToSpeechSettled (reply : Result (option jsstring))
  | PlaybackEnded                                 (* source.onended *)
  | ToggleClicked (audioAvailable : bool)         (* the camera button *)
  | GetUserMediaSettled (settled : Result MediaStream)
  | SliderChanged (value : Z).                    (* the interval slider *)

(** The task an event starts, or nothing when the event cannot occur:
    a timer fires no earlier than it is due, a call settles only if it
    is pending, and a disabled slider raises no change event.  An
    interval that has fired is due again one period later; a timeout
    that has fired is gone. *)
Definition handle (ev : Event) (s : State) : option State :=
  match ev with
  | Tick id mounted context =>
      match timers s !! id with
      | Some (Interval callback period due) =>
          if decide (due <= clock s) then
            Some (s |> set_timers (<[id := Interval callback period (clock s + period)]>
                                     (timers s))
                    |> runAnalysis callback mounted context)
          else None
      | _ => None
      end
  | CooldownTimeout id =>
      match timers s !! id with
      | Some (Timeout due) =>
          if decide (due <= clock s) then
            Some (s |> set_timers (delete id (timers s)) |> cooldownExpired)
          else None
      | _ => None
      end
  | AnalyzeFrameSettled reply =>
      '(closure, rest) ← resume analyzing (analyses s);
      Some (s |> set_analyses rest
              |> afterAnalyzeFrame closure (analyzeFrame ai reply))
  | TextToSpeechSettled reply =>
      '(_, rest) ← resume synthesizing (analyses s);
      Some (s |> set_analyses rest |> afterTextToSpeech (textToSpeech ai reply))
  | PlaybackEnded =>
      '(_, rest) ← resume playing (analyses s);
      Some (s |> set_analyses rest |> finallyBlock)
  | ToggleClicked audioAvailable => Some (handleToggleCamera audioAvailable s)
  | GetUserMediaSettled settled =>
      match toggles s with
      | S n => Some (s |> set_toggles n |> afterGetUserMedia settled)
      | O => None
      end
  | SliderChanged value =>
      if isCameraOn s && sliderValue value
      then Some (setAnalysisInterval value s)
      else None
  end.

(** One task at time [t], then the render. *)
Definition step (s : State) (t : Z) (ev : Event) : option State :=
  if decide (clock s <= t) then
    s' ← handle ev (set_clock t s); Some (commit s s')
  else None.

Fixpoint run (s : State) (trace : list (Z * Event)) : option State :=
  match trace with
  | [] => Some s
  | (t, ev) :: rest => s' ← step s t ev; run s' rest
  end.

End Handlers.

(** The state of the first render; the effect's first run finds the
    camera off and registers nothing. *)
Definition initial : State := {|
  isCameraOn := false;
  isLoading := false;
  isSpeaking := false;
  isOnCooldown := false;
  analysisResult := StatusStart;
  error := None;
  stream := None;
  analysisInterval := DEFAULT_ANALYSIS_INTERVAL_MS;
  analysisIntervalRef := None;
  streamRef := None;
  audioContextRef := None;
  clock := 0;
  timers := ∅;
  nextTimerId := 1;
  analyses := [];
  toggles := 0;
  frames := [];
  played := []
|}.

End App.

(** ** The program: the module graph is evaluated, then [App] is mounted *)

Module Program.
Import GeminiService.

Record Running : Type := mkRunning {
  ai : GoogleGenAI;
  app : App.State
}.

(** [App.tsx] imports [geminiService] (line 2): an exception of that
    module's body ends the evaluation before [App] exists. *)
Definition start (env : gmap string string) : Result Running :=
  ai ← load env; mret {| ai := ai; app := App.initial |}.

(** The tasks of a trace, run on the started program: the remote calls
    are made from [App]'s tasks only. *)
Definition run (unicodeUpper : N -> list N) (env : gmap string string)
    (trace : list (Z * App.Event)) : Result (option App.State) :=
  p ← start env; mret (App.run unicodeUpper (ai p) (app p) trace).

End Program.

(** ** The sentinel, as the specification words it

    These definitions follow the specification, not the code: a text
    is a casing of a word when it spells the word letter by letter, each
    letter in any of its case forms.  The forms of a capital letter are
    the letter, its small letter and, for I and S, the two further code
    points Unicode gives the same capital: dotless i (U+0131) and long s
    (U+017F). *)

Module SentinelSpec.

Definition SENTINEL : jsstring := js "NOPERS".

Definition caseForms (u : N) : list N :=
  if ((65 <=? u) && (u <=? 90))%N then
    [u; (u + 32)%N]
      ++ (if (u =? 73)%N then [305%N] else [])
      ++ (if (u =? 83)%N then [383%N] else [])
  else [u].

Definition isCasingOf (word text : jsstring) : Prop :=
  Forall2 (fun c u => c ∈ caseForms u) text word.

End SentinelSpec.

(** ** Invariants of the [App] transition system, and the states the
    claims speak of *)

Module AppInvariants.
Import App.

(** No timeout is pending. *)
Definition noTimeout (m : gmap nat Timer) : Prop :=
  forall id d, m !! id <> Some (Timeout d).

(** Exactly one timeout is pending. *)
Definition oneTimeout (m : gmap nat Timer) : Prop :=
  exists id d, m !! id = Some (Timeout d)
               /\ forall id' d', m !! id' = Some (Timeout d') -> id' = id.

(** Two timer pools with the same pending timeouts. *)
Definition sameTimeouts (m m' : gmap nat Timer) : Prop :=
  forall id d, m !! id = Some (Timeout d) <-> m' !! id = Some (Timeout d).

(** A slot of the timer pool that holds no timeout. *)
Definition notTimeout (o : option Timer) : Prop :=
  forall d, o <> Some (Timeout d).

(** Timer ids are handed out in order, from 1. *)
Definition idsOk (s : State) : Prop :=
  (1 <= nextTimerId s)%nat
  /\ forall id tm, timers s !! id = Some tm -> (id < nextTimerId s)%nat.

(** While the camera is on, exactly one interval runs: the one the ref
    names, and its callback holds the flags of the current render. *)
Definition intervalOk (s : State) : Prop :=
  match analysisIntervalRef s with
  | Some id =>
      isCameraOn s = true /\ id <> 0%nat
      /\ exists due,
          timers s !! id = Some (Interval (flags s) (analysisInterval s) due)
  | None => isCameraOn s = false
  end
  /\ forall id cb p due,
      timers s !! id = Some (Interval cb p due) -> analysisIntervalRef s = Some id.

(** The flags, the suspended [runAnalysis] call and the cooldown
    timeout agree: at most one call is suspended. *)
Definition cycleOk (s : State) : Prop :=
  match analyses s with
  | [] =>
      isLoading s = false /\ isSpeaking s = false
      /\ if isOnCooldown s then oneTimeout (timers s) else noTimeout (timers s)
  | [AwaitAnalyzeFrame closure] =>
      flags s = mkFlags true false false
      /\ closure = mkFlags false false false
      /\ noTimeout (timers s)
  | [AwaitTextToSpeech _] | [AwaitEnded] =>
      flags s = mkFlags false true true /\ noTimeout (timers s)
  | _ => False
  end.

(** The invariant of every reachable state. *)
Definition Inv (s : State) : Prop := idsOk s /\ intervalOk s /\ cycleOk s.

(** What a handler must leave for the render to restore [intervalOk]. *)
Definition refOk (s : State) : Prop :=
  (forall id, analysisIntervalRef s = Some id ->
              id <> 0%nat /\ notTimeout (timers s !! id))
  /\ forall id cb p due,
      timers s !! id = Some (Interval cb p due) -> analysisIntervalRef s = Some id.

(** What a task leaves, before the render that follows it. *)
Definition handlerOk (b a : State) : Prop :=
  idsOk a /\ refOk a /\ cycleOk a /\ (deps a = deps b -> intervalOk a).

(** Two states a timer cannot tell apart. *)
Definition sameTimerView (s x : State) : Prop :=
  timers x = timers s /\ nextTimerId x = nextTimerId s
  /\ analysisIntervalRef x = analysisIntervalRef s /\ deps x = deps s.

(** What the [finally] block leaves. *)
Definition enteredCooldown (t : Z) (s' : State) : Prop :=
  flags s' = mkFlags false false true /\ analyses s' = []
  /\ analysisResult s' = StatusCooldown 20
  /\ exists id, timers s' !! id = Some (Timeout (t + COOLDOWN_DURATION_MS)).

(** After a detection at [t0]: until [t0 + COOLDOWN_DURATION_MS] the
    cooldown flag is up and every pending timeout is due no earlier. *)
Definition quiet (t0 : Z) (s : State) : Prop :=
  Inv s /\ t0 <= clock s
  /\ (t0 + COOLDOWN_DURATION_MS <= clock s
      \/ (isOnCooldown s = true
          /\ forall id d, timers s !! id = Some (Timeout d) ->
                          t0 + COOLDOWN_DURATION_MS <= d)).

(** The sampling interval is within the range of the slider. *)
Definition intervalInRange (s : State) : Prop :=
  2000 <= analysisInterval s <= 20000.

End AppInvariants.

(** ** Concrete runs, for the examples below *)

Module Examples.
Import GeminiService App.

(** A table that leaves the code points beyond ASCII as they are. *)
Definition plainUpper : N -> list N := fun c => [c].

Definition ai : GoogleGenAI := {| apiKey := "key" |}.

(** Camera on at 10 ms; the first tick, at 10010 ms, captures a frame. *)
Definition analyzing : list (Z * Event) :=
  [(0, ToggleClicked true); (10, GetUserMediaSettled (Ok 1%nat));
   (10010, Tick 1 true true)].

(** The camera is turned off while the analysis call is pending. *)
Definition stopped : list (Z * Event) :=
  analyzing ++ [(10020, ToggleClicked true)].

Definition greeting : Result (option jsstring) := Ok (Some (js " hi ")).

(** A person is detected at 10500 ms. *)
Definition speaking : list (Z * Event) :=
  analyzing ++ [(10500, AnalyzeFrameSettled greeting)].

(** The speech call fails at 10600 ms; a tick during the cooldown; the
    timeout fires; the next tick. *)
Definition afterwards : list (Z * Event) :=
  [(10600, TextToSpeechSettled (Throw NonError)); (20600, Tick 5 true true);
   (30600, CooldownTimeout 4); (40600, Tick 6 true true)].

End Examples.

(** ** Base64, as RFC 4648 words it

    The speech payload is base64 text.  These definitions follow the
    standard, not the code: the encoder [decode] is tested against. *)

Module Base64Spec.
Import JS.

(** The alphabet: A-Z, a-z, 0-9, +, /. *)
Definition base64Char (v : N) : N :=
  if (v <? 26)%N then (v + 65)%N
  else if (v <? 52)%N then (v + 71)%N
  else if (v <? 62)%N then (v - 4)%N
  else if (v =? 62)%N then 43%N
  else 47%N.

(** The 6-bit groups of a byte sequence, three bytes to four groups; a
    last group of one or two bytes is filled up with zero bits. *)
Fixpoint base64_sextets (bytes : list byte) : list N :=
  match bytes with
  | a :: b :: c :: rest =>
      let n := (Byte.to_N a * 65536 + Byte.to_N b * 256 + Byte.to_N c)%N in
      (n / 262144)%N :: (n / 4096 mod 64)%N :: (n / 64 mod 64)%N :: (n mod 64)%N
        :: base64_sextets rest
  | [a; b] =>
      let n := ((Byte.to_N a * 256 + Byte.to_N b) * 4)%N in
      [(n / 4096)%N; (n / 64 mod 64)%N; (n mod 64)%N]
  | [a] =>
      let n := (Byte.to_N a * 16)%N in
      [(n / 64)%N; (n mod 64)%N]
  | [] => []
  end.

(** The encoding, padded with = to a multiple of four characters. *)
Definition base64_encode (bytes : list byte) : jsstring :=
  map base64Char (base64_sextets bytes)
  ++ replicate ((3 - length bytes mod 3) mod 3) 61%N.

End Base64Spec.

(** ** What the component holds on to: the stream, the audio context,
    the buffers it has played *)

Module AppResources.
Import Audio PcmSpec App.

(** The stream the video element is given (lines 180-185) is the one
    the ref holds, and there is one while the camera is on. *)
Definition streamOk (s : State) : Prop :=
  stream s = streamRef s /\ (isCameraOn s = true -> stream s <> None).

(** The audio context is the one of line 160; while there is none,
    nothing has happened but failed attempts to turn the camera on. *)
Definition audioOk (s : State) : Prop :=
  match audioContextRef s with
  | Some ctx => ctx = mkAudioContext PLAYBACK_SAMPLE_RATE
  | None =>
      toggles s = 0%nat /\ isCameraOn s = false /\ analyses s = []
      /\ isOnCooldown s = false
  end.

(** A buffer an audio source can play as the speech it was sent: one
    channel at 24000 Hz, at least one frame, every sample a 16-bit value
    over 32768. *)
Definition playable (b : AudioBuffer) : Prop :=
  numberOfChannels b = 1%nat /\ sampleRate b = PLAYBACK_SAMPLE_RATE
  /\ (1 <= bufLength b)%nat
  /\ exists channelData,
      channels b = [channelData] /\ length channelData = bufLength b
      /\ Forall (fun smp => exists x, is_int16 x /\ smp = Num (inject_Z x / 32768))
                channelData.

(** The captured frames whose cycle may still start a playback. *)
Definition undecided (s : State) : nat :=
  match analyses s with
  | [] | [AwaitEnded] => 0
  | _ => 1
  end.

Definition Resources (s : State) : Prop :=
  streamOk s /\ audioOk s /\ Forall playable (played s)
  /\ (length (played s) + undecided s <= length (frames s))%nat.

(** The least value of the slider (line 258). *)
Definition MIN_ANALYSIS_INTERVAL_MS : Z := 2000.

(** Captures are paced: every frame was captured no later than now, and
    the sampling timer is due no earlier than the least interval after
    each of them. *)
Definition pacingOk (s : State) : Prop :=
  Forall (fun f => f <= clock s) (frames s)
  /\ forall id cb p due,
      timers s !! id = Some (Interval cb p due) ->
      Forall (fun f => f + MIN_ANALYSIS_INTERVAL_MS <= due) (frames s).

(** Newest first, each at least [gap] after the one before. *)
Fixpoint spaced (gap : Z) (times : list Z) : Prop :=
  match times with
  | [] => True
  | later :: earlier =>
      Forall (fun f => f + gap <= later) earlier /\ spaced gap earlier
  end.

(** The cleanups React runs when [App] is unmounted, in the order of
    the effects: that of the interval effect (lines 196-200), then
    [stopCamera] (lines 203-207). *)
Definition unmount (s : State) : State :=
  s |> intervalCleanup |> stopCamera.

End AppResources.

(** ** More concrete runs *)

Module Scenarios.
Import GeminiService App Examples.

(** The camera button has been pressed; the permission prompt is open. *)
Definition requested : list (Z * Event) := [(0, ToggleClicked true)].

(** The camera is on and no tick has fired yet. *)
Definition watching : list (Z * Event) :=
  requested ++ [(10, GetUserMediaSettled (Ok 1%nat))].

(** The model answers with the sentinel. *)
Definition nobody : Result (option jsstring) := Ok (Some (js " nopers ")).

(** Nobody is seen at 10500 ms; the next tick, at 20500 ms, captures
    the second frame. *)
Definition secondCapture : list (Z * Event) :=
  analyzing ++ [(10500, AnalyzeFrameSettled nobody); (20500, Tick 3 true true)].

(** Three 16-bit samples (16384, -1, -32768) in base64, and a payload
    of a single byte. *)
Definition payload : Result (option jsstring) := Ok (Some (js "AED//wCA")).
Definition oddPayload : Result (option jsstring) := Ok (Some (js "AA==")).

(** The greeting is being played. *)
Definition greeted : list (Z * Event) :=
  speaking ++ [(10600, TextToSpeechSettled payload)].

(** The slider is moved to 3000 ms while the analysis call is pending. *)
Definition retuned : list (Z * Event) :=
  analyzing ++ [(12000, SliderChanged 3000)].

End Scenarios.

(** ** Facts about the audio helpers *)

Module AudioFacts.
Import Audio.

(** The shape shared by both loops: a left-to-right sweep that stores
    [f i] at every index of a window. *)
Lemma foldl_insert_seq {A : Type} (f : nat -> A) (k : nat) :
  forall (a : nat) (l : list A),
    (a + k <= length l)%nat ->
    foldl (fun cd i => <[i := f i]> cd) l (seq a k)
    = take a l ++ map f (seq a k) ++ drop (a + k) l.
Proof.
  induction k as [|k IH]; intros a l Hlen; simpl.
  - rewrite Nat.add_0_r. by rewrite take_drop.
  - rewrite IH by (rewrite length_insert; lia).
    assert (Ha : (a < length l)%nat) by lia.
    destruct (lookup_lt_is_Some_2 (<[a := f a]> l) a) as [x Hx];
      [rewrite length_insert; lia|].
    rewrite (take_S_r _ _ _ Hx).
    rewrite list_lookup_insert_eq in Hx by lia. injection Hx as <-.
    rewrite take_insert_ge by lia.
    rewrite drop_insert_lt by lia.
    rewrite <- app_assoc. simpl.
    by replace (a + S k)%nat with (S (a + k)) by lia.
Qed.

Lemma fill_channel_map (d : list Z) (nc c fc : nat) (cd : list Sample) :
  length cd = fc ->
  fill_channel d nc c fc cd
  = map (fun i => pcm_sample d (i * nc + c)) (seq 0 fc).
Proof.
  intros Hlen. unfold fill_channel.
  rewrite (foldl_insert_seq (fun i => pcm_sample d (i * nc + c))) by (simpl; lia).
  simpl. rewrite drop_ge by lia. by rewrite app_nil_r.
Qed.

Lemma decode_bytes (base64 : jsstring) (binaryString : list byte) :
  JS.atob base64 = Some binaryString ->
  decode base64 = Ok binaryString.
Proof.
  intros Hatob. unfold decode. rewrite Hatob. cbv zeta. f_equal.
  set (n := length binaryString).
  rewrite (foldl_insert_seq (charCodeAt binaryString))
    by (rewrite length_replicate; simpl; lia).
  simpl. rewrite drop_ge by (rewrite length_replicate; lia).
  rewrite app_nil_r.
  apply list_eq. intros i. rewrite list_lookup_fmap.
  destruct (decide (i < n)%nat) as [Hi|Hi].
  - rewrite lookup_seq_lt by done. simpl. unfold charCodeAt.
    destruct (lookup_lt_is_Some_2 binaryString i) as [c Hc]; [done|].
    by rewrite Hc.
  - rewrite lookup_seq_ge by lia. simpl.
    symmetry. apply lookup_ge_None_2. unfold n in Hi. lia.
Qed.

Lemma int16_elements_length (buffer : list byte) :
  length (int16_elements buffer) = (length buffer / 2)%nat.
Proof.
  induction buffer as [buffer IH] using (induction_ltof1 _ (@length byte)).
  unfold ltof in IH.
  destruct buffer as [|lo [|hi rest]]; try reflexivity.
  cbn [int16_elements length]. rewrite IH by (simpl; lia).
  change (S (S (length rest))) with (1 * 2 + length rest)%nat.
  rewrite Nat.div_add_l by lia. lia.
Qed.

Lemma int16_elements_lookup (buffer : list byte) :
  forall (i : nat) (lo hi : byte),
    buffer !! (2 * i)%nat = Some lo ->
    buffer !! (2 * i + 1)%nat = Some hi ->
    int16_elements buffer !! i = Some (int16_of_bytes lo hi).
Proof.
  induction buffer as [buffer IH] using (induction_ltof1 _ (@length byte)).
  unfold ltof in IH. intros i lo hi Hlo Hhi.
  destruct buffer as [|b0 [|b1 rest]].
  - done.
  - destruct i; simpl in *; [done|].
    replace (i + S (i + 0))%nat with (S (2 * i)) in Hlo by lia. done.
  - destruct i as [|i].
    + simpl in *. by simplify_eq.
    + replace (2 * S i)%nat with (S (S (2 * i))) in Hlo by lia.
      replace (2 * S i + 1)%nat with (S (S (2 * i + 1))) in Hhi by lia.
      simpl in Hlo, Hhi. cbn [int16_elements]. simpl.
      apply IH; [simpl; lia|..]; done.
Qed.

Lemma byteZ_range (b : byte) : 0 <= byteZ b <= 255.
Proof. unfold byteZ. pose proof (Byte.to_N_bounded b). lia. Qed.

Lemma int16_of_bytes_range (lo hi : byte) :
  -32768 <= int16_of_bytes lo hi <= 32767.
Proof.
  unfold int16_of_bytes.
  pose proof (byteZ_range lo). pose proof (byteZ_range hi).
  cbv zeta. case_eq (32768 <=? byteZ lo + 256 * byteZ hi); intros Hc;
    [apply Z.leb_le in Hc | apply Z.leb_gt in Hc]; lia.
Qed.

End AudioFacts.

Module PcmFacts.
Import Audio AudioFacts PcmSpec.

Lemma byte_of_Z_byteZ (b : byte) : byte_of_Z (byteZ b) = b.
Proof.
  unfold byte_of_Z, byteZ. rewrite N2Z.id. by rewrite Byte.of_to_N.
Qed.

Lemma pcm16_encode_int16 (lo hi : byte) :
  pcm16_encode (int16_of_bytes lo hi) = [lo; hi].
Proof.
  pose proof (byteZ_range lo) as Hlo. pose proof (byteZ_range hi) as Hhi.
  assert (Hu : int16_of_bytes lo hi mod 65536 = byteZ lo + 256 * byteZ hi).
  { unfold int16_of_bytes. cbv zeta.
    destruct (32768 <=? byteZ lo + 256 * byteZ hi).
    - replace (byteZ lo + 256 * byteZ hi - 65536)
        with (byteZ lo + 256 * byteZ hi + (-1) * 65536) by lia.
      rewrite Z.mod_add by lia. apply Z.mod_small. lia.
    - apply Z.mod_small. lia. }
  unfold pcm16_encode. cbv zeta. rewrite Hu.
  replace (byteZ lo + 256 * byteZ hi) with (byteZ lo + byteZ hi * 256) by lia.
  rewrite Z.mod_add by lia. rewrite Z.div_add by lia.
  rewrite Z.mod_small by lia. rewrite Z.div_small by lia.
  rewrite Z.add_0_l. by rewrite !byte_of_Z_byteZ.
Qed.

Lemma byteZ_byte_of_Z (z : Z) : 0 <= z <= 255 -> byteZ (byte_of_Z z) = z.
Proof.
  intros Hz. unfold byteZ, byte_of_Z.
  pose proof (Byte.to_of_N_option_map (Z.to_N z)) as H.
  assert (Hle : (Z.to_N z <=? 255)%N = true) by (apply N.leb_le; lia).
  rewrite Hle in H.
  destruct (Byte.of_N (Z.to_N z)) as [b|]; [|done].
  cbn in H. injection H as Hb.
  change (default x00 (Some b)) with b. rewrite Hb. lia.
Qed.

(** The encoder of the documented format is undone by the typed-array
    view. *)
Lemma int16_of_bytes_encode (x : Z) :
  is_int16 x ->
  exists lo hi, pcm16_encode x = [lo; hi] /\ int16_of_bytes lo hi = x.
Proof.
  unfold is_int16. intros Hx. eexists _, _. split; [reflexivity|].
  unfold int16_of_bytes.
  pose proof (Z.mod_pos_bound x 65536 ltac:(lia)) as Hu.
  set (u := x mod 65536) in *.
  pose proof (Z.mod_pos_bound u 256 ltac:(lia)).
  assert (0 <= u / 256 <= 255).
  { split; [apply Z.div_pos; lia|]. apply Z.lt_succ_r.
    apply Z.div_lt_upper_bound; lia. }
  rewrite !byteZ_byte_of_Z by lia.
  replace (u mod 256 + 256 * (u / 256)) with u
    by (pose proof (Z.div_mod u 256); lia).
  cbv zeta.
  destruct (Z.leb_spec 32768 u) as [Hhigh|Hlow].
  - assert (x < 0).
    { destruct (Z.lt_ge_cases x 0); [done|].
      assert (u = x) by (unfold u; apply Z.mod_small; lia). lia. }
    assert (u = x + 65536); [|lia].
    unfold u. replace x with (x + 65536 + (-1) * 65536) at 1 by lia.
    rewrite Z.mod_add by lia. apply Z.mod_small. lia.
  - destruct (Z.lt_ge_cases x 0) as [Hneg|Hpos].
    + assert (u = x + 65536); [|lia].
      unfold u. replace x with (x + 65536 + (-1) * 65536) at 1 by lia.
      rewrite Z.mod_add by lia. apply Z.mod_small. lia.
    + unfold u. apply Z.mod_small. lia.
Qed.

Lemma int16_elements_encode (samples : list Z) :
  Forall is_int16 samples ->
  int16_elements (samples ≫= pcm16_encode) = samples.
Proof.
  induction 1 as [|x samples Hx _ IH]; [done|].
  destruct (int16_of_bytes_encode x Hx) as (lo & hi & Henc & Hdec).
  cbn [mbind list_bind]. rewrite Henc. cbn. by rewrite Hdec, IH.
Qed.

Lemma sample_value_bounds (x : Z) :
  is_int16 x -> (-1 <= inject_Z x / 32768 <= 1)%Q.
Proof.
  unfold is_int16. intros Hx.
  unfold Qle, Qdiv, Qmult, Qinv, inject_Z. simpl. lia.
Qed.

Lemma sample_value_quantize (x : Z) :
  pcm16_quantize (inject_Z x / 32768) = x.
Proof.
  unfold pcm16_quantize.
  assert (Heq : (inject_Z x / 32768 * 32768 + (1 # 2) == inject_Z x + (1 # 2))%Q).
  { field. }
  rewrite Heq. unfold Qfloor, Qplus, inject_Z. simpl.
  change (Z.pos (1 * 2)) with 2.
  replace (x * 2 + 1 * 1) with (1 + x * 2) by lia.
  rewrite Z.div_add by lia. reflexivity.
Qed.

Lemma pcm_sample_binary32 (x : Z) :
  is_int16 x -> binary32_exact (inject_Z x / 32768).
Proof.
  unfold is_int16. intros Hx. exists x, (-15). split; [|split].
  - change (2 ^ 24) with 16777216. lia.
  - lia.
  - unfold Qeq, Qdiv, Qmult, Qinv, inject_Z. simpl. lia.
Qed.

Lemma pcm_samples_mono (d : list Z) :
  map (fun i => pcm_sample d (i * 1 + 0)) (seq 0 (length d))
  = map (fun x => Num (inject_Z x / 32768)) d.
Proof.
  apply list_eq. intros i. rewrite !list_lookup_fmap.
  destruct (decide (i < length d)%nat) as [Hi|Hi].
  - rewrite lookup_seq_lt by done. simpl.
    destruct (lookup_lt_is_Some_2 d i) as [x Hx]; [done|].
    unfold pcm_sample. replace (i * 1 + 0)%nat with i by lia. by rewrite Hx.
  - rewrite lookup_seq_ge by lia. rewrite lookup_ge_None_2 by lia. done.
Qed.

(** The decoder at its call site, in closed form. *)
Lemma decodeAudioData_mono (data : list byte) (ctx : AudioContext) :
  data <> [] ->
  Nat.even (length data) = true ->
  decodeAudioData data ctx PLAYBACK_SAMPLE_RATE PLAYBACK_CHANNELS
  = Ok {| numberOfChannels := 1;
          bufLength := (length data / 2)%nat;
          sampleRate := 24000;
          channels := [map (fun x => Num (inject_Z x / 32768)) (int16_elements data)] |}.
Proof.
  intros Hne Hev.
  unfold decodeAudioData, new_Int16Array, PLAYBACK_CHANNELS, PLAYBACK_SAMPLE_RATE.
  rewrite Hev. cbn [mbind Result_bind]. cbv zeta.
  rewrite Nat.div_1_r, int16_elements_length.
  assert (Hpos : (length data / 2 <> 0)%nat).
  { destruct data as [|b0 [|b1 rest]]; [done|done|].
    change (length (b0 :: b1 :: rest)) with (1 * 2 + length rest)%nat.
    rewrite Nat.div_add_l by lia. lia. }
  unfold createBuffer.
  destruct (Nat.eqb_spec (length data / 2) 0) as [|_]; [done|].
  cbn [Nat.eqb orb supportedSampleRate negb andb Z.leb Z.compare Pos.compare
       Pos.compare_cont mbind Result_bind mret Result_ret
       numberOfChannels bufLength sampleRate channels replicate].
  unfold mret, Result_ret. do 2 f_equal.
  unfold fill_channels. cbn [seq foldl lookup list_lookup].
  cbn [insert list_insert]. f_equal.
  rewrite fill_channel_map by apply length_replicate.
  rewrite <- int16_elements_length. apply pcm_samples_mono.
Qed.

End PcmFacts.

(** ** The invariant holds of every reachable state *)

Module AppFacts.
Import JS Audio GeminiService App AppInvariants.

(** *** Timers *)

Lemma sameTimeouts_refl m : sameTimeouts m m.
Proof. by intros id d. Qed.

Lemma sameTimeouts_trans m1 m2 m3 :
  sameTimeouts m1 m2 -> sameTimeouts m2 m3 -> sameTimeouts m1 m3.
Proof. intros H12 H23 id d. etrans; [apply H12|apply H23]. Qed.

Lemma sameTimeouts_delete m i :
  notTimeout (m !! i) -> sameTimeouts m (delete i m).
Proof.
  intros Hi id d. destruct (decide (i = id)) as [->|Hne].
  - rewrite lookup_delete_eq. split; [intros H; by destruct (Hi d)|done].
  - by rewrite lookup_delete_ne.
Qed.

Lemma sameTimeouts_insert_interval m i cb p due :
  notTimeout (m !! i) -> sameTimeouts m (<[i := Interval cb p due]> m).
Proof.
  intros Hi id d. destruct (decide (i = id)) as [->|Hne].
  - rewrite lookup_insert_eq. split; [intros H; by destruct (Hi d)|done].
  - by rewrite lookup_insert_ne.
Qed.

Lemma noTimeout_same m m' : sameTimeouts m m' -> noTimeout m -> noTimeout m'.
Proof. intros Hs Hn id d H. apply Hs in H. by apply Hn in H. Qed.

Lemma oneTimeout_same m m' : sameTimeouts m m' -> oneTimeout m -> oneTimeout m'.
Proof.
  intros Hs (id & d & Hid & Huniq). exists id, d. split.
  - by apply Hs.
  - intros id' d' H. apply Hs in H. eauto.
Qed.

Lemma oneTimeout_insert m i d :
  noTimeout m -> oneTimeout (<[i := Timeout d]> m).
Proof.
  intros Hn. exists i, d. split; [apply lookup_insert_eq|].
  intros id' d' H. destruct (decide (i = id')) as [|Hne]; [done|].
  rewrite lookup_insert_ne in H by done. by apply Hn in H.
Qed.

Lemma noTimeout_delete m i d :
  oneTimeout m -> m !! i = Some (Timeout d) -> noTimeout (delete i m).
Proof.
  intros (id & d0 & Hid & Huniq) Hi id' d' H.
  destruct (decide (i = id')) as [->|Hne].
  - by rewrite lookup_delete_eq in H.
  - rewrite lookup_delete_ne in H by done.
    apply Huniq in H. apply Huniq in Hi. congruence.
Qed.

Lemma intervalOk_refOk s : intervalOk s -> refOk s.
Proof.
  intros [Href Hivl]. split; [|done].
  intros id Hid. rewrite Hid in Href. destruct Href as (_ & Hne & due & Hdue).
  split; [done|]. intros d. by rewrite Hdue.
Qed.

Lemma truthyId_refOk s id :
  refOk s -> analysisIntervalRef s = Some id -> truthyId (Some id) = Some id.
Proof. intros [Href _] Hid. destruct (Href id Hid) as [Hne _]. by destruct id. Qed.

Lemma fresh_id s : idsOk s -> timers s !! nextTimerId s = None.
Proof.
  intros [_ Hlt]. destruct (timers s !! nextTimerId s) as [tm|] eqn:E; [|done].
  apply Hlt in E. lia.
Qed.

Ltac destruct_state s :=
  destruct s as [cam ld sp cd res0 err0 str ivl ref sref actx clk tms nid ans tgl frs pld].

Lemma intervalCleanup_spec a :
  idsOk a -> refOk a ->
  exists m,
    intervalCleanup a = set_timers m a
    /\ sameTimeouts (timers a) m
    /\ (forall id tm, m !! id = Some tm -> (id < nextTimerId a)%nat)
    /\ (forall id cb p due, m !! id <> Some (Interval cb p due)).
Proof.
  intros [_ Hlt] Href. pose proof Href as [Hr Hi].
  unfold intervalCleanup. destruct (analysisIntervalRef a) as [id|] eqn:Eref.
  - rewrite (truthyId_refOk a id Href Eref). destruct (Hr id eq_refl) as [Hne Hnt].
    exists (delete id (timers a)). split; [done|]. split; [|split].
    + by apply sameTimeouts_delete.
    + intros id' tm Hl. apply lookup_delete_Some in Hl as [_ Hl]. eauto.
    + intros id' cb p due Hl. apply lookup_delete_Some in Hl as [Hne' Hl].
      apply Hi in Hl. congruence.
  - exists (timers a). split; [by destruct_state a|]. split; [|split].
    + apply sameTimeouts_refl.
    + done.
    + intros id cb p due Hl. apply Hi in Hl. done.
Qed.

Lemma cycleOk_same a a' :
  analyses a' = analyses a -> flags a' = flags a ->
  sameTimeouts (timers a) (timers a') ->
  cycleOk a -> cycleOk a'.
Proof.
  intros Han Hfl Hs. unfold cycleOk. rewrite Han.
  assert (isLoading a' = isLoading a /\ isSpeaking a' = isSpeaking a
          /\ isOnCooldown a' = isOnCooldown a) as (-> & -> & ->).
  { unfold flags in Hfl. by simplify_eq. }
  rewrite Hfl.
  destruct (analyses a) as [|[cl|txt|] [|? ?]]; try done.
  - intros (? & ? & Hc). do 2 (split; [done|]).
    destruct (isOnCooldown a); eauto using noTimeout_same, oneTimeout_same.
  - intros (? & ? & ?). eauto using noTimeout_same.
  - intros (? & ?). eauto using noTimeout_same.
  - intros (? & ?). eauto using noTimeout_same.
Qed.

Lemma commit_Inv b a :
  idsOk a -> refOk a -> cycleOk a ->
  (deps a = deps b -> intervalOk a) ->
  Inv (commit b a).
Proof.
  intros Hids Href Hcyc Heq. unfold commit.
  destruct (decide (deps a = deps b)) as [E|_]; [by split; [|split; [apply Heq|]]|].
  destruct (intervalCleanup_spec a Hids Href) as (m & -> & Hs & Hlt & Hno).
  destruct Hids as [Hone _]. destruct Href as [Hr _].
  unfold intervalEffect. destruct_state a. cbn in *.
  destruct cam; cbn.
  - split; [|split].
    + split; cbn; [lia|]. intros id tm Hl.
      apply lookup_insert_Some in Hl as [[<- _]|[_ Hl]]; [lia|].
      apply Hlt in Hl. lia.
    + split; cbn.
      * split; [done|]. split; [lia|]. eexists. apply lookup_insert_eq.
      * intros id cb p due Hl.
        apply lookup_insert_Some in Hl as [[<- _]|[_ Hl]]; [done|].
        by apply Hno in Hl.
    + eapply cycleOk_same; [| |  |exact Hcyc]; cbn; [done|done|].
      eapply sameTimeouts_trans; [exact Hs|].
      apply sameTimeouts_insert_interval.
      intros d Hl. apply Hlt in Hl. lia.
  - assert (Hm : forall id, notTimeout (m !! id) -> sameTimeouts tms (delete id m)).
    { intros id Hid. eapply sameTimeouts_trans; [exact Hs|].
      by apply sameTimeouts_delete. }
    destruct ref as [[|id]|]; cbn.
    + by destruct (Hr 0%nat eq_refl).
    + split; [|split].
      * split; cbn; [done|]. intros id' tm Hl.
        apply lookup_delete_Some in Hl as [_ Hl]. eauto.
      * split; cbn; [done|]. intros id' cb p due Hl.
        apply lookup_delete_Some in Hl as [_ Hl]. by apply Hno in Hl.
      * eapply cycleOk_same; [| | |exact Hcyc]; cbn; [done|done|].
        apply Hm. intros d Hl. apply Hs in Hl.
        destruct (Hr (S id) eq_refl) as [_ Hnt]. by apply Hnt in Hl.
    + split; [|split].
      * split; cbn; [done|]. eauto.
      * split; cbn; [done|]. intros id' cb p due Hl. by apply Hno in Hl.
      * eapply cycleOk_same; [| | |exact Hcyc]; cbn; done.
Qed.

Lemma resume_analyzing s closure rest :
  cycleOk s -> resume analyzing (analyses s) = Some (closure, rest) ->
  analyses s = [AwaitAnalyzeFrame closure] /\ rest = []
  /\ flags s = mkFlags true false false
  /\ closure = mkFlags false false false /\ noTimeout (timers s).
Proof.
  unfold cycleOk.
  destruct (analyses s) as [|[cl|txt|] [|? ?]]; cbn; try done.
  intros (? & ? & ?) ?. by simplify_eq.
Qed.

Lemma resume_synthesizing s text rest :
  cycleOk s -> resume synthesizing (analyses s) = Some (text, rest) ->
  analyses s = [AwaitTextToSpeech text] /\ rest = []
  /\ flags s = mkFlags false true true /\ noTimeout (timers s).
Proof.
  unfold cycleOk.
  destruct (analyses s) as [|[cl|txt|] [|? ?]]; cbn; try done.
  intros (? & ?) ?. by simplify_eq.
Qed.

Lemma resume_playing s u rest :
  cycleOk s -> resume playing (analyses s) = Some (u, rest) ->
  analyses s = [AwaitEnded] /\ rest = []
  /\ flags s = mkFlags false true true /\ noTimeout (timers s).
Proof.
  unfold cycleOk.
  destruct (analyses s) as [|[cl|txt|] [|? ?]]; cbn; try done.
  intros (? & ?) ?. by simplify_eq.
Qed.

(** A pending timeout means the cycle is in its cooldown. *)
Lemma timeout_cooldown s id due :
  cycleOk s -> timers s !! id = Some (Timeout due) ->
  analyses s = [] /\ flags s = mkFlags false false true /\ oneTimeout (timers s).
Proof.
  unfold cycleOk, flags. intros Hc Hid.
  destruct (analyses s) as [|[cl|txt|] [|? ?]]; try done.
  - destruct Hc as (-> & -> & Hc). destruct (isOnCooldown s); [done|].
    by apply Hc in Hid.
  - destruct Hc as (_ & _ & Hc). by apply Hc in Hid.
  - destruct Hc as (_ & Hc). by apply Hc in Hid.
  - destruct Hc as (_ & Hc). by apply Hc in Hid.
Qed.

(** With every flag down nothing is suspended and no timeout is pending. *)
Lemma idle_cycle s :
  cycleOk s -> flags s = mkFlags false false false ->
  analyses s = [] /\ noTimeout (timers s).
Proof.
  unfold cycleOk, flags. intros Hc Hf.
  destruct (analyses s) as [|[cl|txt|] [|? ?]]; try done.
  - destruct Hc as (_ & _ & Hc). injection Hf as _ _ Hcd. by rewrite Hcd in Hc.
  - destruct Hc as (Hc & _). congruence.
  - destruct Hc as (Hc & _). congruence.
  - destruct Hc as (Hc & _). congruence.
Qed.

Lemma finallyBlock_ok b x :
  idsOk x -> intervalOk x -> noTimeout (timers x) ->
  analyses x = [] -> flags x = mkFlags false true true ->
  flags b = flags x ->
  handlerOk b (finallyBlock x).
Proof.
  intros Hids Hivl Hno Han Hfl Hb.
  pose proof (fresh_id x Hids) as Hfresh.
  pose proof (intervalOk_refOk x Hivl) as [Hr Hi].
  destruct Hids as [Hone Hlt].
  rewrite Hfl in Hb.
  unfold finallyBlock, setTimeout, addTimer, handlerOk, flags in *.
  destruct_state x. cbn in *. simplify_eq.
  split; [|split; [|split]].
  - split; cbn; [lia|]. intros id tm Hl.
    apply lookup_insert_Some in Hl as [[<- _]|[_ Hl]]; [lia|].
    apply Hlt in Hl. lia.
  - split; cbn.
    + intros id ->. destruct (Hr id eq_refl) as [Hne Hnt]. split; [done|].
      intros d Hl. apply lookup_insert_Some in Hl as [[<- _]|[_ Hl]].
      * destruct Hivl as [(_ & _ & due & Hdue) _]. cbn in Hdue. congruence.
      * by apply Hnt in Hl.
    + intros id cb p due Hl.
      apply lookup_insert_Some in Hl as [[_ ?]|[_ Hl]]; [done|]. eauto.
  - unfold cycleOk. cbn. do 2 (split; [done|]). by apply oneTimeout_insert.
  - unfold deps, flags. cbn. intros E. destruct b. cbn in *. congruence.
Qed.

(** *** Every task preserves the invariant *)

Section Preservation.

Variable unicodeUpper : N -> list N.
Variable ai : GoogleGenAI.

Lemma interval_at_ref s id cb p due :
  intervalOk s -> timers s !! id = Some (Interval cb p due) ->
  analysisIntervalRef s = Some id /\ isCameraOn s = true /\ id <> 0%nat
  /\ cb = flags s /\ p = analysisInterval s.
Proof.
  intros [Href Hi] Hl. pose proof (Hi _ _ _ _ Hl) as Hid.
  rewrite Hid in Href. destruct Href as (? & ? & due' & Hdue').
  rewrite Hdue' in Hl. by simplify_eq.
Qed.

Lemma tick_ok s t id mounted context a :
  Inv s -> handle unicodeUpper ai (Tick id mounted context) (set_clock t s) = Some a ->
  handlerOk s a.
Proof.
  intros (Hids & Hivl & Hcyc) H. cbn in H.
  destruct (timers s !! id) as [[cb p due|]|] eqn:Etm; try done.
  case_decide; [|done]. injection H as <-.
  destruct (interval_at_ref s id cb p due Hivl Etm) as (Hid & Hcam & Hne & -> & ->).
  match goal with |- handlerOk _ (runAnalysis _ _ _ ?y) => set (x := y) end.
  assert (Hx : idsOk x /\ intervalOk x /\ sameTimeouts (timers s) (timers x)
               /\ flags x = flags s /\ analyses x = analyses s /\ deps x = deps s).
  { subst x. split.
    { destruct Hids as [Hone Hlt]. split; [done|]. cbn.
      intros id' tm Hl. apply lookup_insert_Some in Hl as [[<- _]|[_ Hl]]; eauto. }
    destruct Hivl as [Href Hi]. rewrite Hid in Href.
    destruct_state s. cbn in *. simplify_eq. repeat split; try done.
    - eexists. apply lookup_insert_eq.
    - intros id' cb p d Hl. cbn in Hl.
      apply lookup_insert_Some in Hl as [[<- _]|[_ Hl]]; eauto.
    - intros Hl. cbn. destruct (decide (id = id0)) as [->|Hne']; [congruence|].
      by rewrite lookup_insert_ne.
    - intros Hl. cbn in Hl.
      apply lookup_insert_Some in Hl as [[_ ?]|[_ Hl]]; done. }
  destruct Hx as (Hxi & Hxv & Hxs & Hxf & Hxa & Hxd).
  assert (Hnoop : handlerOk s x).
  { split; [done|]. split; [by apply intervalOk_refOk|]. split; [|done].
    by eapply cycleOk_same. }
  clearbody x. unfold runAnalysis.
  destruct mounted; [|done]. cbn [negb].
  rewrite <- Hxf.
  destruct (loading (flags x) || speaking (flags x) || onCooldown (flags x)) eqn:Ebusy;
    [done|].
  assert (Hidle : flags x = mkFlags false false false).
  { destruct (flags x) as [[] [] []]; cbn in Ebusy; done. }
  rewrite Hxf in Hidle.
  destruct (idle_cycle s Hcyc Hidle) as [Han Hno].
  rewrite <- Hxf in Hidle. rewrite <- Hxa in Han.
  pose proof (noTimeout_same _ _ Hxs Hno) as Hnox.
  destruct Hxi as [Hone Hlt]. pose proof (intervalOk_refOk x Hxv) as [Hr Hi].
  unfold handlerOk, idsOk, refOk, cycleOk, deps, flags, suspend in *.
  destruct_state x. destruct s. cbn in *. simplify_eq.
  destruct context; cbn.
  - repeat split; eauto; try apply Hr; try done.
  - repeat split; eauto; try apply Hr; try done;
      unfold intervalOk in Hxv; cbn in *; apply Hxv.
Qed.

Lemma sameTimerView_ok s x :
  sameTimerView s x -> idsOk s -> intervalOk s -> idsOk x /\ intervalOk x.
Proof.
  unfold sameTimerView, idsOk, intervalOk, deps, flags.
  destruct_state s. destruct x. cbn. intros (? & ? & ? & ?). by simplify_eq.
Qed.

Lemma sameTimerView_handlerOk s x :
  sameTimerView s x -> idsOk s -> intervalOk s -> cycleOk x -> handlerOk s x.
Proof.
  intros Hv Hids Hivl Hcyc.
  destruct (sameTimerView_ok s x Hv Hids Hivl) as [Hxi Hxv].
  split; [done|]. split; [by apply intervalOk_refOk|]. done.
Qed.

Lemma cooldown_ok s t id a :
  Inv s -> handle unicodeUpper ai (CooldownTimeout id) (set_clock t s) = Some a ->
  handlerOk s a.
Proof.
  intros (Hids & Hivl & Hcyc) H. cbn in H.
  destruct (timers s !! id) as [[cb p due|due]|] eqn:Etm; try done.
  case_decide; [|done]. injection H as <-.
  destruct (timeout_cooldown s id due Hcyc Etm) as (Han & Hfl & Hone).
  pose proof (noTimeout_delete _ _ _ Hone Etm) as Hno.
  pose proof (intervalOk_refOk s Hivl) as [Hr Hi].
  destruct Hids as [Hge Hlt].
  unfold handlerOk, idsOk, refOk, cycleOk, deps, flags in *.
  destruct_state s. cbn in *. simplify_eq.
  split; [|split; [|split]].
  - split; [done|]. intros id' tm Hl.
    apply lookup_delete_Some in Hl as [_ Hl]. eauto.
  - split.
    + intros id' ->. destruct (Hr id' eq_refl) as [Hne Hnt]. split; [done|].
      intros d Hl. apply lookup_delete_Some in Hl as [_ Hl]. by apply Hnt in Hl.
    + intros id' cb p d Hl. apply lookup_delete_Some in Hl as [_ Hl]. eauto.
  - done.
  - done.
Qed.

Lemma analyze_ok s t reply a :
  Inv s -> handle unicodeUpper ai (AnalyzeFrameSettled reply) (set_clock t s) = Some a ->
  handlerOk s a.
Proof.
  intros (Hids & Hivl & Hcyc) H. cbn in H.
  destruct (resume analyzing (analyses s)) as [[closure rest]|] eqn:Eres; [|done].
  destruct (resume_analyzing s closure rest Hcyc Eres) as (Han & -> & Hfl & -> & Hno).
  cbn in H. injection H as <-.
  pose proof (intervalOk_refOk s Hivl) as Href.
  unfold afterAnalyzeFrame, suspend.
  destruct (analyzeFrame ai reply) as [result|err]; [destruct (isDetected _ result)|];
    unfold handlerOk, idsOk, refOk, cycleOk, deps, flags in *;
    destruct_state s; cbn in *; simplify_eq; done.
Qed.

Lemma speech_end_ok s x :
  Inv s -> flags s = mkFlags false true true ->
  sameTimerView s x -> analyses x = [] ->
  handlerOk s (finallyBlock x).
Proof.
  intros (Hids & Hivl & Hcyc) Hfl Hv Han.
  destruct (sameTimerView_ok s x Hv Hids Hivl) as [Hxi Hxv].
  assert (Hno : noTimeout (timers s)).
  { unfold cycleOk in Hcyc. unfold flags in Hfl.
    destruct (analyses s) as [|[cl|txt|] [|? ?]]; try done.
    - destruct Hcyc as (_ & ? & _). congruence.
    - by destruct Hcyc as (_ & _ & ?).
    - by destruct Hcyc as (_ & ?).
    - by destruct Hcyc as (_ & ?). }
  destruct Hv as (Htm & _ & _ & Hd).
  assert (Hxf : flags x = flags s) by (unfold deps in Hd; congruence).
  apply finallyBlock_ok; try done.
  - by rewrite Htm.
  - by rewrite Hxf.
Qed.

Lemma tts_ok s t reply a :
  Inv s -> handle unicodeUpper ai (TextToSpeechSettled reply) (set_clock t s) = Some a ->
  handlerOk s a.
Proof.
  intros HInv H. pose proof HInv as (Hids & Hivl & Hcyc). cbn in H.
  destruct (resume synthesizing (analyses s)) as [[text rest]|] eqn:Eres; [|done].
  destruct (resume_synthesizing s text rest Hcyc Eres) as (Han & -> & Hfl & Hno).
  cbn in H. injection H as <-.
  unfold afterTextToSpeech.
  destruct (textToSpeech ai reply) as [audioData|ttsError].
  - unfold playAudio. cbn [audioContextRef].
    destruct (audioContextRef s) as [ctx|].
    + destruct (decode audioData ≫= _) as [audioBuffer|e].
      * by apply sameTimerView_handlerOk.
      * apply (speech_end_ok s); try done.
    + apply (speech_end_ok s); try done.
  - apply (speech_end_ok s); try done.
Qed.

Lemma ended_ok s t a :
  Inv s -> handle unicodeUpper ai PlaybackEnded (set_clock t s) = Some a ->
  handlerOk s a.
Proof.
  intros HInv H. pose proof HInv as (Hids & Hivl & Hcyc). cbn in H.
  destruct (resume playing (analyses s)) as [[u rest]|] eqn:Eres; [|done].
  destruct (resume_playing s u rest Hcyc Eres) as (Han & -> & Hfl & Hno).
  cbn in H. injection H as <-.
  apply (speech_end_ok s); try done.
Qed.

(** A task that leaves the timers, the ref, the flags and the suspended
    calls alone. *)
Lemma untouched_ok s a :
  timers a = timers s -> nextTimerId a = nextTimerId s ->
  analysisIntervalRef a = analysisIntervalRef s ->
  analyses a = analyses s -> flags a = flags s ->
  Inv s -> handlerOk s a.
Proof.
  intros Htm Hn Hr Han Hfl (Hids & Hivl & Hcyc).
  assert (Hc : cycleOk a).
  { eapply cycleOk_same; [done|done| |exact Hcyc]. rewrite Htm.
    apply sameTimeouts_refl. }
  pose proof (intervalOk_refOk s Hivl) as Href.
  split; [|split; [|split]].
  - unfold idsOk in *. by rewrite Htm, Hn.
  - unfold refOk in *. by rewrite Htm, Hr.
  - done.
  - intros Hd. by apply (sameTimerView_ok s a).
Qed.

Lemma stopCamera_view x id :
  analysisIntervalRef x = Some (S id) ->
  timers (stopCamera x) = delete (S id) (timers x)
  /\ nextTimerId (stopCamera x) = nextTimerId x
  /\ analysisIntervalRef (stopCamera x) = None
  /\ isCameraOn (stopCamera x) = false
  /\ analyses (stopCamera x) = analyses x
  /\ flags (stopCamera x) = flags x
  /\ frames (stopCamera x) = frames x.
Proof.
  unfold stopCamera. destruct_state x. cbn. intros ->. cbn.
  by destruct sref.
Qed.

Lemma toggle_ok s t audioAvailable a :
  Inv s ->
  handle unicodeUpper ai (ToggleClicked audioAvailable) (set_clock t s) = Some a ->
  handlerOk s a.
Proof.
  intros HInv H. pose proof HInv as (Hids & Hivl & Hcyc).
  assert (a = handleToggleCamera audioAvailable (set_clock t s)) as ->
    by (unfold handle in H; injection H as <-; reflexivity).
  clear H.
  assert (Hx : sameTimerView s (set_clock t s)
               /\ analyses (set_clock t s) = analyses s
               /\ flags (set_clock t s) = flags s
               /\ isCameraOn (set_clock t s) = isCameraOn s) by done.
  set (x := set_clock t s) in *. clearbody x.
  destruct Hx as ((Hxt & Hxn & Hxr & Hxd) & Hxa & Hxf & Hxc).
  unfold handleToggleCamera. destruct (isCameraOn x) eqn:Ecam; cbv iota.
  - pose proof (intervalOk_refOk s Hivl) as [Hr Hi].
    destruct Hivl as [Href _].
    destruct (analysisIntervalRef s) as [id|] eqn:Eref; [|congruence].
    destruct Href as (_ & Hne & due & Hdue).
    destruct id as [|id]; [done|].
    destruct (stopCamera_view x id Hxr) as (Htm & Hn & Hr' & Hcam & Han & Hfl & _).
    rewrite Hxt in Htm. rewrite Hxn in Hn. rewrite Hxa in Han. rewrite Hxf in Hfl.
    set (y := stopCamera x) in *. clearbody y.
    destruct Hids as [Hone Hlt].
    split; [|split; [|split]].
    + split; [by rewrite Hn|]. intros id' tm Hl. rewrite Htm in Hl. rewrite Hn.
      apply lookup_delete_Some in Hl as [_ Hl]. eauto.
    + split; [by rewrite Hr'|]. intros id' cb p d Hl. rewrite Htm in Hl.
      apply lookup_delete_Some in Hl as [Hne' Hl]. apply Hi in Hl. congruence.
    + eapply cycleOk_same; [done|done| |exact Hcyc]. rewrite Htm.
      apply sameTimeouts_delete. intros d. by rewrite Hdue.
    + unfold deps. congruence.
  - assert (Hu : forall y, timers y = timers x -> nextTimerId y = nextTimerId x ->
                 analysisIntervalRef y = analysisIntervalRef x ->
                 analyses y = analyses x -> flags y = flags x -> handlerOk s y).
    { intros y ? ? ? ? ?. apply untouched_ok; congruence. }
    destruct (audioContextRef (setError None x)) as [ctx|];
      [|destruct audioAvailable]; apply Hu; done.
Qed.

Lemma media_ok s t settled a :
  Inv s ->
  handle unicodeUpper ai (GetUserMediaSettled settled) (set_clock t s) = Some a ->
  handlerOk s a.
Proof.
  intros HInv H. pose proof HInv as (Hids & Hivl & Hcyc). cbn in H.
  destruct (toggles s) as [|n]; [done|]. injection H as <-.
  pose proof (intervalOk_refOk s Hivl) as Href.
  unfold afterGetUserMedia.
  destruct settled as [mediaStream|e];
    (split; [done|]; split; [done|]; split; [done|]);
    intros Hd; apply (sameTimerView_ok s); done.
Qed.

Lemma slider_ok s t value a :
  Inv s ->
  handle unicodeUpper ai (SliderChanged value) (set_clock t s) = Some a ->
  handlerOk s a.
Proof.
  intros HInv H. pose proof HInv as (Hids & Hivl & Hcyc). cbn in H.
  destruct (isCameraOn s && sliderValue value); [|done]. injection H as <-.
  pose proof (intervalOk_refOk s Hivl) as Href.
  (split; [done|]; split; [done|]; split; [done|]).
  intros Hd. apply (sameTimerView_ok s); done.
Qed.

(** Every task re-establishes the invariant once React has rendered. *)
Lemma step_Inv s t ev s' :
  Inv s -> step unicodeUpper ai s t ev = Some s' -> Inv s'.
Proof.
  intros HInv H. unfold step in H. case_decide; [|done].
  destruct (handle unicodeUpper ai ev (set_clock t s)) as [a|] eqn:Ea; [|done].
  cbn in H. injection H as <-.
  assert (Ha : handlerOk s a).
  { destruct ev; eauto using tick_ok, cooldown_ok, analyze_ok, tts_ok,
      ended_ok, toggle_ok, media_ok, slider_ok. }
  destruct Ha as (? & ? & ? & ?). by apply commit_Inv.
Qed.

Lemma run_Inv trace : forall s s',
  Inv s -> run unicodeUpper ai s trace = Some s' -> Inv s'.
Proof.
  induction trace as [|[t ev] trace IH]; intros s s' HInv H; cbn in H.
  - by simplify_eq.
  - destruct (step unicodeUpper ai s t ev) as [s1|] eqn:E1; [|done].
    cbn in H. eauto using step_Inv.
Qed.

Lemma initial_Inv : Inv initial.
Proof.
  split; [|split].
  - split; [done|]. intros id tm Hl. cbn in Hl. by rewrite lookup_empty in Hl.
  - split; [done|]. intros id cb p due Hl. cbn in Hl. by rewrite lookup_empty in Hl.
  - cbn. do 2 (split; [done|]). intros id d Hl. by rewrite lookup_empty in Hl.
Qed.

Lemma reachable_Inv trace s :
  run unicodeUpper ai initial trace = Some s -> Inv s.
Proof. apply run_Inv, initial_Inv. Qed.

End Preservation.

End AppFacts.

(** ** What a task does, field by field *)

Module AppSteps.
Import JS Audio GeminiService App AppInvariants AppFacts.

Lemma commit_unchanged b a : deps a = deps b -> commit b a = a.
Proof. intros E. unfold commit. by rewrite decide_True. Qed.

(** The render touches the timer pool, the id counter and the ref
    only, and no timeout. *)
Lemma commit_view b a :
  idsOk a -> refOk a ->
  exists m n r,
    commit b a = set_analysisIntervalRef r (set_nextTimerId n (set_timers m a))
    /\ sameTimeouts (timers a) m.
Proof.
  intros Hids Href. unfold commit.
  destruct (decide (deps a = deps b)) as [_|_].
  { exists (timers a), (nextTimerId a), (analysisIntervalRef a).
    split; [by destruct_state a|apply sameTimeouts_refl]. }
  destruct (intervalCleanup_spec a Hids Href) as (m & -> & Hs & Hlt & Hno).
  destruct Href as [Hr _].
  unfold intervalEffect, addTimer. destruct_state a. cbn in *.
  destruct cam; cbn.
  - eexists _, _, _. split; [reflexivity|].
    eapply sameTimeouts_trans; [exact Hs|].
    apply sameTimeouts_insert_interval. intros d Hl. apply Hlt in Hl. lia.
  - destruct ref as [[|id]|]; cbn.
    + by destruct (Hr 0%nat eq_refl).
    + eexists _, _, _. split; [reflexivity|].
      eapply sameTimeouts_trans; [exact Hs|].
      apply sameTimeouts_delete. intros d Hl. apply Hs in Hl.
      destruct (Hr (S id) eq_refl) as [_ Hnt]. by apply Hnt in Hl.
    + by eexists _, _, _.
Qed.

(** When a dependency changed and the camera is on, the interval is
    registered afresh: the flags of this render, the current period,
    first due one period from now. *)
Lemma commit_rearmed b a :
  deps a <> deps b -> isCameraOn a = true ->
  exists id,
    analysisIntervalRef (commit b a) = Some id
    /\ timers (commit b a) !! id
       = Some (Interval (flags a) (analysisInterval a)
                        (clock a + analysisInterval a)).
Proof.
  intros Hd Hcam. unfold commit. rewrite decide_False by done.
  unfold intervalEffect, intervalCleanup, addTimer, clearInterval.
  destruct_state a. cbn in *. subst cam.
  exists nid.
  destruct (truthyId ref); cbn; (split; [done|apply lookup_insert_eq]).
Qed.

(** A payload that is base64 for a non-empty, even number of bytes is
    decoded and handed to the audio source. *)
Lemma playAudio_plays (base64Audio : jsstring) (data : list byte)
    (ctx : AudioContext) (s : State) :
  audioContextRef s = Some ctx ->
  JS.atob base64Audio = Some data ->
  data <> [] -> Nat.even (length data) = true ->
  playAudio base64Audio s
  = (set_played ({| numberOfChannels := 1;
                    bufLength := (length data / 2)%nat;
                    sampleRate := 24000;
                    channels := [map (fun x => Num (inject_Z x / 32768))
                                     (int16_elements data)] |} :: played s) s,
     true).
Proof.
  intros Hctx Hatob Hne Hev. unfold playAudio. rewrite Hctx.
  rewrite (AudioFacts.decode_bytes _ _ Hatob). cbn [mbind Result_bind].
  by rewrite PcmFacts.decodeAudioData_mono.
Qed.

Section Steps.

Variable unicodeUpper : N -> list N.
Variable ai : GoogleGenAI.

Lemma step_inv s t ev s' :
  step unicodeUpper ai s t ev = Some s' ->
  clock s <= t
  /\ exists a, handle unicodeUpper ai ev (set_clock t s) = Some a
               /\ s' = commit s a.
Proof.
  unfold step. intros H. case_decide; [|done]. split; [done|].
  destruct (handle unicodeUpper ai ev (set_clock t s)) as [a|]; [|done].
  cbn in H. injection H as <-. by exists a.
Qed.

Lemma handle_handlerOk s t ev a :
  Inv s -> handle unicodeUpper ai ev (set_clock t s) = Some a -> handlerOk s a.
Proof.
  intros HInv Ha.
  destruct ev; eauto using tick_ok, cooldown_ok, analyze_ok, tts_ok,
    ended_ok, toggle_ok, media_ok, slider_ok.
Qed.

(** A tick with a flag up: the timer is re-armed and nothing else
    happens. *)
Lemma tick_busy s t id mounted context s' :
  Inv s -> isIdle s = false ->
  step unicodeUpper ai s t (Tick id mounted context) = Some s' ->
  s' = set_timers (<[id := Interval (flags s) (analysisInterval s)
                                    (t + analysisInterval s)]> (timers s))
                  (set_clock t s).
Proof.
  intros (Hids & Hivl & Hcyc) Hbusy H.
  apply step_inv in H as (Ht & a & Ha & ->). cbn in Ha.
  destruct (timers s !! id) as [[cb p due|]|] eqn:Etm; try done.
  case_decide; [|done]. injection Ha as <-.
  destruct (interval_at_ref s id cb p due Hivl Etm) as (Hid & Hcam & Hne & -> & ->).
  unfold runAnalysis, isIdle in *. apply negb_false_iff in Hbusy.
  destruct mounted; cbn [negb flags loading speaking onCooldown]; rewrite ?Hbusy;
    by rewrite commit_unchanged.
Qed.

(** A tick with every flag down, the refs set and a 2d context: a
    frame is captured and the analysis call is made. *)
Lemma tick_idle s t id s' :
  Inv s -> isIdle s = true ->
  step unicodeUpper ai s t (Tick id true true) = Some s' ->
  frames s' = t :: frames s
  /\ analyses s' = [AwaitAnalyzeFrame (mkFlags false false false)]
  /\ flags s' = mkFlags true false false.
Proof.
  intros HInv Hidle H. pose proof HInv as (Hids & Hivl & Hcyc).
  pose proof H as Hstep.
  apply step_inv in H as (Ht & a & Ha & ->).
  destruct (handle_handlerOk s t _ a HInv Ha) as (Hai & Har & _ & _).
  destruct (commit_view s a Hai Har) as (m & n & r & -> & _).
  cbn in Ha.
  destruct (timers s !! id) as [[cb p due|]|] eqn:Etm; try done.
  case_decide; [|done]. injection Ha as <-.
  destruct (interval_at_ref s id cb p due Hivl Etm) as (Hid & Hcam & Hne & -> & ->).
  assert (Hfl : flags s = mkFlags false false false).
  { unfold isIdle in Hidle. unfold flags.
    destruct (isLoading s), (isSpeaking s), (isOnCooldown s); done. }
  destruct (idle_cycle s Hcyc Hfl) as [Han _].
  unfold runAnalysis, suspend. rewrite Hfl. cbn. rewrite Han.
  injection Hfl as _ Hs Hc. unfold flags. cbn. by rewrite Hs, Hc.
Qed.

Lemma tick_enabled s t id cb p due mounted context :
  timers s !! id = Some (Interval cb p due) -> due <= t -> clock s <= t ->
  exists s', step unicodeUpper ai s t (Tick id mounted context) = Some s'.
Proof.
  intros Hid Hdue Hclk. unfold step. rewrite decide_True by done. cbn.
  rewrite Hid. rewrite decide_True by done. cbn. by eexists.
Qed.

Lemma timeout_enabled s t id due :
  timers s !! id = Some (Timeout due) -> due <= t -> clock s <= t ->
  exists s', step unicodeUpper ai s t (CooldownTimeout id) = Some s'.
Proof.
  intros Hid Hdue Hclk. unfold step. rewrite decide_True by done. cbn.
  rewrite Hid. rewrite decide_True by done. cbn. by eexists.
Qed.

(** The analysis call has settled. *)
Lemma analyze_settled s t reply s' :
  Inv s -> step unicodeUpper ai s t (AnalyzeFrameSettled reply) = Some s' ->
  analyses s = [AwaitAnalyzeFrame (mkFlags false false false)]
  /\ flags s = mkFlags true false false
  /\ clock s' = t /\ frames s' = frames s /\ isCameraOn s' = isCameraOn s
  /\ analysisInterval s' = analysisInterval s
  /\ noTimeout (timers s')
  /\ match analyzeFrame ai reply with
     | Ok result =>
         error s' = error s
         /\ if isDetected unicodeUpper result then
              analyses s' = [AwaitTextToSpeech result]
              /\ flags s' = mkFlags false true true
              /\ analysisResult s' = StatusGreeting result
            else
              analyses s' = [] /\ flags s' = mkFlags false false false
              /\ analysisResult s' = StatusNoPerson
     | Throw err =>
         analyses s' = [] /\ flags s' = mkFlags false false false
         /\ analysisResult s' = analysisResult s
         /\ error s' = Some (ErrAnalysis
                               (if instanceofError err then exn_message err
                                else js "An unknown error occurred."))
     end.
Proof.
  intros HInv H. pose proof HInv as (Hids & Hivl & Hcyc).
  apply step_inv in H as (Ht & a & Ha & ->).
  destruct (handle_handlerOk s t _ a HInv Ha) as (Hai & Har & _ & _).
  destruct (commit_view s a Hai Har) as (m & n & r & -> & Hs).
  cbn in Ha.
  destruct (resume analyzing (analyses s)) as [[closure rest]|] eqn:Eres; [|done].
  destruct (resume_analyzing s closure rest Hcyc Eres) as (Han & -> & Hfl & -> & Hno).
  cbn in Ha. injection Ha as <-.
  do 2 (split; [done|]).
  assert (Hno' : forall x, timers x = timers s -> sameTimeouts (timers x) m ->
                           noTimeout m).
  { intros x Hx Hxs. rewrite Hx in Hxs. by eapply noTimeout_same. }
  unfold afterAnalyzeFrame, suspend, flags in *. injection Hfl as Hl Hsp Hcd.
  destruct (analyzeFrame ai reply) as [result|exn];
    [destruct (isDetected unicodeUpper result)|];
    cbn in *; rewrite ?Hsp, ?Hcd; (repeat split; try done); by eapply Hno'.
Qed.

Lemma finallyBlock_entered b x :
  idsOk (finallyBlock x) -> refOk (finallyBlock x) ->
  flags x = mkFlags false true true -> analyses x = [] ->
  enteredCooldown (clock x) (commit b (finallyBlock x)).
Proof.
  intros Hai Har Hfl Han.
  destruct (commit_view b _ Hai Har) as (m & n & r & -> & Hs).
  assert (Hl : timers (finallyBlock x) !! nextTimerId x
               = Some (Timeout (clock x + COOLDOWN_DURATION_MS))).
  { destruct_state x. cbn. apply lookup_insert_eq. }
  apply Hs in Hl. unfold flags in *.
  destruct_state x. cbn in *. simplify_eq. repeat split; try done. by eexists.
Qed.

(** The speech call has settled, or playback has ended. *)
Lemma speech_settled s t ev s' :
  Inv s -> step unicodeUpper ai s t ev = Some s' ->
  (ev = PlaybackEnded \/ exists reply, ev = TextToSpeechSettled reply) ->
  flags s = mkFlags false true true
  /\ clock s' = t /\ frames s' = frames s /\ isCameraOn s' = isCameraOn s
  /\ analysisInterval s' = analysisInterval s
  /\ (enteredCooldown t s'
      \/ exists reply audioData audioBuffer,
          ev = TextToSpeechSettled reply
          /\ textToSpeech ai reply = Ok audioData
          /\ analyses s' = [AwaitEnded] /\ flags s' = mkFlags false true true
          /\ played s' = audioBuffer :: played s).
Proof.
  intros HInv H Hev. pose proof HInv as (Hids & Hivl & Hcyc).
  apply step_inv in H as (Ht & a & Ha & ->).
  destruct (handle_handlerOk s t _ a HInv Ha) as (Hai & Har & _ & _).
  assert (Hfin : forall x,
             a = finallyBlock x -> clock x = t -> frames x = frames s ->
             isCameraOn x = isCameraOn s -> analysisInterval x = analysisInterval s ->
             flags x = mkFlags false true true -> analyses x = [] ->
             clock (commit s a) = t /\ frames (commit s a) = frames s
             /\ isCameraOn (commit s a) = isCameraOn s
             /\ analysisInterval (commit s a) = analysisInterval s
             /\ enteredCooldown t (commit s a)).
  { intros x -> Hc Hf Hcam Hi Hfl Han.
    pose proof (finallyBlock_entered s x Hai Har Hfl Han) as He. rewrite Hc in He.
    destruct (commit_view s _ Hai Har) as (m & n & r & Hcm & _).
    rewrite Hcm in *. destruct_state x. by cbn in *. }
  destruct Hev as [->|[reply ->]]; cbn in Ha.
  - destruct (resume playing (analyses s)) as [[u rest]|] eqn:Eres; [|done].
    destruct (resume_playing s u rest Hcyc Eres) as (Han & -> & Hfl & Hno).
    cbn in Ha. injection Ha as Ha. symmetry in Ha.
    split; [done|]. edestruct Hfin as (? & ? & ? & ? & ?); [exact Ha|done..|].
    repeat split; try done. by left.
  - destruct (resume synthesizing (analyses s)) as [[text rest]|] eqn:Eres; [|done].
    destruct (resume_synthesizing s text rest Hcyc Eres) as (Han & -> & Hfl & Hno).
    cbn in Ha. injection Ha as Ha. symmetry in Ha. split; [done|].
    unfold afterTextToSpeech in Ha.
    destruct (textToSpeech ai reply) as [audioData|ttsError] eqn:Etts.
    + unfold playAudio in Ha. cbn [audioContextRef] in Ha.
      destruct (audioContextRef s) as [ctx|].
      * destruct (decode audioData ≫= _) as [audioBuffer|e].
        -- destruct (commit_view s a Hai Har) as (m & n & r & -> & _).
           subst a. unfold suspend. cbn. repeat split; try done.
           right. by exists reply, audioData, audioBuffer.
        -- edestruct Hfin as (? & ? & ? & ? & ?); [exact Ha|done..|].
           repeat split; try done. by left.
      * edestruct Hfin as (? & ? & ? & ? & ?); [exact Ha|done..|].
        repeat split; try done. by left.
    + edestruct Hfin as (? & ? & ? & ? & ?); [exact Ha|done..|].
      repeat split; try done. by left.
Qed.

(** The cooldown timeout has fired. *)
Lemma cooldown_fired s t id s' :
  Inv s -> step unicodeUpper ai s t (CooldownTimeout id) = Some s' ->
  flags s = mkFlags false false true /\ analyses s = []
  /\ (exists due, timers s !! id = Some (Timeout due) /\ due <= t)
  /\ clock s' = t /\ frames s' = frames s /\ isCameraOn s' = isCameraOn s
  /\ flags s' = mkFlags false false false /\ analyses s' = []
  /\ analysisResult s' = StatusReady /\ noTimeout (timers s').
Proof.
  intros HInv H. pose proof HInv as (Hids & Hivl & Hcyc).
  pose proof (step_Inv _ _ _ _ _ _ HInv H) as (_ & _ & Hcyc').
  apply step_inv in H as (Ht & a & Ha & ->).
  destruct (handle_handlerOk s t _ a HInv Ha) as (Hai & Har & _ & _).
  destruct (commit_view s a Hai Har) as (m & n & r & Hcm & Hs).
  rewrite Hcm in *. clear Hcm.
  cbn in Ha.
  destruct (timers s !! id) as [[cb p due|due]|] eqn:Etm; try done.
  case_decide; [|done]. injection Ha as <-.
  destruct (timeout_cooldown s id due Hcyc Etm) as (Han & Hfl & Hone).
  unfold cycleOk in Hcyc'. unfold flags in *. cbn in *. rewrite Han in *.
  injection Hfl as -> -> ->.
  repeat split; try done; [by exists due|apply Hcyc'].
Qed.

(** Any tick: at most a frame is captured, and only from Idle. *)
Lemma tick_view s t id mounted context s' :
  Inv s -> step unicodeUpper ai s t (Tick id mounted context) = Some s' ->
  clock s' = t /\ isOnCooldown s' = isOnCooldown s
  /\ sameTimeouts (timers s) (timers s')
  /\ (frames s' = frames s \/ (frames s' = t :: frames s /\ isIdle s = true)).
Proof.
  intros HInv H. pose proof HInv as (Hids & Hivl & Hcyc).
  apply step_inv in H as (Ht & a & Ha & ->).
  destruct (handle_handlerOk s t _ a HInv Ha) as (Hai & Har & _ & _).
  destruct (commit_view s a Hai Har) as (m & n & r & -> & Hs).
  cbn in Ha.
  destruct (timers s !! id) as [[cb p due|]|] eqn:Etm; try done.
  case_decide; [|done]. injection Ha as <-.
  destruct (interval_at_ref s id cb p due Hivl Etm) as (Hid & Hcam & Hne & -> & ->).
  assert (Hs0 : sameTimeouts (timers s)
                  (<[id := Interval (flags s) (analysisInterval s)
                             (t + analysisInterval s)]> (timers s))).
  { apply sameTimeouts_insert_interval. intros d. by rewrite Etm. }
  unfold runAnalysis, suspend, isIdle, flags in *.
  destruct mounted, context, (isLoading s), (isSpeaking s), (isOnCooldown s);
    cbn in *; (split; [done|]); (split; [done|]);
    (split; [eapply sameTimeouts_trans; [exact Hs0|exact Hs]|]);
    try (by left); by right.
Qed.

(** The camera button, the permission prompt and the slider leave the
    cycle alone. *)
Lemma ui_event_view s t ev s' :
  Inv s -> step unicodeUpper ai s t ev = Some s' ->
  match ev with
  | ToggleClicked _ | GetUserMediaSettled _ | SliderChanged _ => True
  | _ => False
  end ->
  clock s' = t /\ flags s' = flags s /\ analyses s' = analyses s
  /\ frames s' = frames s /\ sameTimeouts (timers s) (timers s').
Proof.
  intros HInv H Hev. pose proof HInv as (Hids & Hivl & Hcyc).
  apply step_inv in H as (Ht & a & Ha & ->).
  destruct (handle_handlerOk s t _ a HInv Ha) as (Hai & Har & _ & _).
  destruct (commit_view s a Hai Har) as (m & n & r & -> & Hs).
  assert (Hgoal : clock a = t /\ flags a = flags s /\ analyses a = analyses s
                  /\ frames a = frames s /\ sameTimeouts (timers s) (timers a)).
  { destruct ev as [| | | | |audioAvailable|settled|value]; try done.
    - assert (a = handleToggleCamera audioAvailable (set_clock t s)) as ->
        by (unfold handle in Ha; injection Ha as <-; reflexivity).
      unfold handleToggleCamera.
      change (isCameraOn (set_clock t s)) with (isCameraOn s).
      destruct (isCameraOn s) eqn:Ecam.
      + destruct Hivl as [Href _].
        destruct (analysisIntervalRef s) as [[|id]|] eqn:Eref;
          [by destruct Href as (_ & ? & _)| |congruence].
        destruct Href as (_ & _ & due & Hdue).
        destruct (stopCamera_view (set_clock t s) id Eref)
          as (Htm & _ & _ & _ & Han & Hfl & Hfr).
        rewrite Htm. split_and!; try done.
        * destruct_state s. cbn in *. simplify_eq. cbn. by destruct sref.
        * apply sameTimeouts_delete. intros d. cbn. by rewrite Hdue.
      + destruct (audioContextRef (setError None (set_clock t s)));
          [|destruct audioAvailable]; split_and!; try done;
          apply sameTimeouts_refl.
    - cbn in Ha. destruct (toggles s); [done|]. injection Ha as <-.
      destruct settled; split_and!; try done; apply sameTimeouts_refl.
    - cbn in Ha. destruct (isCameraOn s && sliderValue value); [|done].
      injection Ha as <-. split_and!; try done; apply sameTimeouts_refl. }
  destruct Hgoal as (? & ? & ? & ? & ?).
  destruct_state a. cbn in *. split_and!; try done.
  by eapply sameTimeouts_trans.
Qed.

(** What any task can do to the clock, the frames and the timeouts. *)
Lemma step_effects s t ev s' :
  Inv s -> step unicodeUpper ai s t ev = Some s' ->
  clock s <= t /\ clock s' = t
  /\ (frames s' = frames s \/ (frames s' = t :: frames s /\ isIdle s = true))
  /\ (forall id d, timers s' !! id = Some (Timeout d) ->
                   timers s !! id = Some (Timeout d)
                   \/ d = t + COOLDOWN_DURATION_MS)
  /\ (isOnCooldown s = true ->
      isOnCooldown s' = true
      \/ exists id d, timers s !! id = Some (Timeout d) /\ d <= t).
Proof.
  intros HInv H. pose proof (step_Inv _ _ _ _ _ _ HInv H) as (_ & _ & Hcyc').
  pose proof H as (Ht & _)%step_inv. split; [done|].
  destruct ev as [id mounted context|id|reply|reply| |audioAvailable|settled|value].
  - destruct (tick_view _ _ _ _ _ _ HInv H) as (? & Hcd & Hs & ?).
    split_and!; try done.
    + intros id' d Hl. left. by apply Hs.
    + intros Hc. left. congruence.
  - destruct (cooldown_fired _ _ _ _ HInv H)
      as (_ & _ & (due & ? & ?) & ? & ? & _ & _ & _ & _ & Hno).
    split_and!; try done; [by left| |].
    + intros id' d Hl. by apply Hno in Hl.
    + intros _. right. by exists id, due.
  - destruct (analyze_settled _ _ _ _ HInv H) as (_ & Hfl & ? & ? & _ & _ & Hno & _).
    split_and!; try done; [by left| |].
    + intros id' d Hl. by apply Hno in Hl.
    + intros Hc. unfold flags in Hfl. congruence.
  - destruct (speech_settled _ _ _ _ HInv H) as (_ & ? & ? & _ & _ & Hend);
      [right; by eexists|].
    split_and!; try done; [by left| |].
    + intros id' d Hl. right.
      destruct Hend as [(Hfl & Han & _ & id0 & Hid0)|(? & ? & ? & _ & _ & Han & _)];
        unfold cycleOk in Hcyc'; rewrite Han in Hcyc'.
      * destruct Hcyc' as (_ & _ & Hone). unfold flags in Hfl.
        injection Hfl as _ _ Hc. rewrite Hc in Hone.
        destruct Hone as (id1 & d1 & _ & Huniq).
        pose proof (Huniq _ _ Hl). pose proof (Huniq _ _ Hid0). simplify_eq.
        congruence.
      * destruct Hcyc' as (_ & Hno). by apply Hno in Hl.
    + intros _. left.
      destruct Hend as [(Hfl & _)|(? & ? & ? & _ & _ & _ & Hfl & _)];
        unfold flags in Hfl; congruence.
  - destruct (speech_settled _ _ _ _ HInv H) as (_ & ? & ? & _ & _ & Hend);
      [by left|].
    split_and!; try done; [by left| |].
    + intros id' d Hl. right.
      destruct Hend as [(Hfl & Han & _ & id0 & Hid0)|(? & ? & ? & ? & _)]; [|done].
      unfold cycleOk in Hcyc'; rewrite Han in Hcyc'.
      destruct Hcyc' as (_ & _ & Hone). unfold flags in Hfl.
      injection Hfl as _ _ Hc. rewrite Hc in Hone.
      destruct Hone as (id1 & d1 & _ & Huniq).
      pose proof (Huniq _ _ Hl). pose proof (Huniq _ _ Hid0). simplify_eq.
      congruence.
    + intros _. left.
      destruct Hend as [(Hfl & _)|(? & ? & ? & ? & _)]; [|done].
      unfold flags in Hfl; congruence.
  - destruct (ui_event_view _ _ _ _ HInv H I) as (? & Hfl & _ & ? & Hs).
    split_and!; try done; [by left| |].
    + intros id' d Hl. left. by apply Hs.
    + intros Hc. left. unfold flags in Hfl. congruence.
  - destruct (ui_event_view _ _ _ _ HInv H I) as (? & Hfl & _ & ? & Hs).
    split_and!; try done; [by left| |].
    + intros id' d Hl. left. by apply Hs.
    + intros Hc. left. unfold flags in Hfl. congruence.
  - destruct (ui_event_view _ _ _ _ HInv H I) as (? & Hfl & _ & ? & Hs).
    split_and!; try done; [by left| |].
    + intros id' d Hl. left. by apply Hs.
    + intros Hc. left. unfold flags in Hfl. congruence.
Qed.

(** *** The quiet period after a detection at [t0] *)

Lemma quiet_step t0 s t ev s' :
  quiet t0 s -> step unicodeUpper ai s t ev = Some s' ->
  quiet t0 s'
  /\ (frames s' = frames s
      \/ (frames s' = t :: frames s /\ t0 + COOLDOWN_DURATION_MS <= t)).
Proof.
  intros (HInv & Ht0 & Hq) H.
  pose proof (step_Inv _ _ _ _ _ _ HInv H) as HInv'.
  destruct (step_effects _ _ _ _ HInv H) as (Ht & Hclk & Hfr & Htm & Hcd).
  destruct (decide (t0 + COOLDOWN_DURATION_MS <= t)) as [Hlate|Hearly].
  - split.
    + split; [done|]. split; [lia|]. left. lia.
    + destruct Hfr as [?|[? _]]; [by left|by right].
  - destruct Hq as [?|[Hc Hd]]; [lia|].
    assert (Hc' : isOnCooldown s' = true).
    { destruct (Hcd Hc) as [?|(id & d & Hid & Hdue)]; [done|].
      apply Hd in Hid. lia. }
    split.
    + split; [done|]. split; [lia|]. right. split; [done|].
      intros id d Hl. destruct (Htm _ _ Hl) as [Hold| ->]; [eauto|lia].
    + left. destruct Hfr as [?|[_ Hidle]]; [done|].
      unfold isIdle in Hidle. rewrite Hc in Hidle.
      by rewrite !orb_true_r in Hidle.
Qed.

Lemma quiet_run t0 trace : forall s s',
  quiet t0 s -> run unicodeUpper ai s trace = Some s' ->
  exists captured,
    frames s' = captured ++ frames s
    /\ Forall (fun t => t0 + COOLDOWN_DURATION_MS <= t) captured.
Proof.
  induction trace as [|[t ev] trace IH]; intros s s' Hq H; cbn in H.
  - injection H as <-. by exists [].
  - destruct (step unicodeUpper ai s t ev) as [s1|] eqn:E1; [|done]. cbn in H.
    destruct (quiet_step _ _ _ _ _ Hq E1) as [Hq1 Hfr].
    destruct (IH _ _ Hq1 H) as (captured & -> & Hall).
    destruct Hfr as [->|[-> Hlate]].
    + by exists captured.
    + exists (captured ++ [t]). split; [by rewrite <- app_assoc|].
      apply Forall_app. split; [done|]. by constructor.
Qed.

(** *** The interval slider and the camera button *)

Lemma slider_changed s t value s' :
  Inv s -> step unicodeUpper ai s t (SliderChanged value) = Some s' ->
  isCameraOn s = true /\ sliderValue value = true
  /\ analysisInterval s' = value
  /\ (value <> analysisInterval s ->
      exists id,
        analysisIntervalRef s' = Some id
        /\ timers s' !! id = Some (Interval (flags s) value (t + value))).
Proof.
  intros HInv H.
  apply step_inv in H as (Ht & a & Ha & ->).
  assert (Hg : isCameraOn s = true /\ sliderValue value = true
               /\ a = setAnalysisInterval value (set_clock t s)).
  { cbn in Ha. destruct (isCameraOn s) eqn:Ecam; [|done].
    destruct (sliderValue value); [|done]. cbn in Ha. injection Ha as <-.
    cbn. by rewrite Ecam. }
  destruct Hg as (Ecam & Eval & ->).
  do 2 (split; [done|]). split.
  - unfold commit. case_decide; [done|]. unfold intervalEffect, intervalCleanup.
    cbn. rewrite ?Ecam. destruct (truthyId (analysisIntervalRef s)); by cbn.
  - intros Hne.
    destruct (commit_rearmed s (setAnalysisInterval value (set_clock t s)))
      as (id & Hid & Hl);
      [|exact Ecam|exists id; split; [exact Hid|exact Hl]].
    unfold deps. cbn. congruence.
Qed.

(** The setter of line 262 run with the camera off (the slider is
    disabled then, so only a caller other than the control could do it):
    the value is stored and no timer is registered. *)
Lemma setAnalysisInterval_inactive s t value :
  Inv s -> isCameraOn s = false ->
  commit s (setAnalysisInterval value (set_clock t s))
  = setAnalysisInterval value (set_clock t s)
  /\ Inv (setAnalysisInterval value (set_clock t s)).
Proof.
  intros HInv Hcam. pose proof HInv as (Hids & [Href Hi] & Hcyc).
  assert (Hr : analysisIntervalRef s = None).
  { destruct (analysisIntervalRef s); [|done].
    destruct Href as (? & _). congruence. }
  assert (Hc : commit s (setAnalysisInterval value (set_clock t s))
               = setAnalysisInterval value (set_clock t s)).
  { unfold commit. case_decide; [done|].
    unfold intervalEffect, intervalCleanup. cbn. by rewrite Hr, Hcam. }
  split; [done|]. rewrite <- Hc.
  assert (Ha : handlerOk s (setAnalysisInterval value (set_clock t s))).
  { by apply untouched_ok. }
  destruct Ha as (? & ? & ? & ?). by apply commit_Inv.
Qed.

Lemma camera_on_arms s t mediaStream s' :
  Inv s -> isCameraOn s = false ->
  step unicodeUpper ai s t (GetUserMediaSettled (Ok mediaStream)) = Some s' ->
  isCameraOn s' = true
  /\ exists id,
      analysisIntervalRef s' = Some id
      /\ timers s' !! id
         = Some (Interval (flags s) (analysisInterval s) (t + analysisInterval s)).
Proof.
  intros HInv Hcam H.
  apply step_inv in H as (Ht & a & Ha & ->). cbn in Ha.
  destruct (toggles s); [done|]. injection Ha as <-.
  match goal with |- context [commit s ?y] => set (a := y) end.
  destruct (commit_rearmed s a) as (id & Hid & Hl).
  { unfold deps. cbn. congruence. }
  { done. }
  split; [|exists id; split; [exact Hid|exact Hl]].
  unfold commit. case_decide; [done|]. unfold intervalEffect, intervalCleanup.
  cbn. destruct (truthyId (analysisIntervalRef s)); by cbn.
Qed.

(** *** The sampling interval stays within the slider's range *)

Lemma commit_analysisInterval b a :
  analysisInterval (commit b a) = analysisInterval a
  /\ clock (commit b a) = clock a.
Proof.
  unfold commit, intervalEffect, intervalCleanup.
  destruct (decide (deps a = deps b)); [done|].
  destruct_state a. cbn.
  destruct (truthyId ref), cam; cbn; try done.
  all: destruct (truthyId ref); by cbn.
Qed.

Lemma handle_analysisInterval ev x a :
  handle unicodeUpper ai ev x = Some a ->
  analysisInterval a = analysisInterval x
  \/ exists value, ev = SliderChanged value /\ sliderValue value = true
                   /\ analysisInterval a = value.
Proof.
  destruct ev as [id mounted context|id|reply|reply| |audioAvailable|settled|value];
    cbn; intros H.
  - destruct (timers x !! id) as [[cb p due|]|]; try done.
    case_decide; [|done]. injection H as <-. left.
    unfold runAnalysis.
    destruct mounted, context, (loading cb), (speaking cb), (onCooldown cb); done.
  - destruct (timers x !! id) as [[cb p due|due]|]; try done.
    case_decide; [|done]. injection H as <-. by left.
  - destruct (resume analyzing (analyses x)) as [[closure rest]|]; [|done].
    cbn in H. injection H as <-. left. unfold afterAnalyzeFrame.
    destruct (analyzeFrame ai reply) as [result|exn];
      [destruct (isDetected unicodeUpper result)|]; try done.
    by destruct (onCooldown closure).
  - destruct (resume synthesizing (analyses x)) as [[text rest]|]; [|done].
    cbn in H. injection H as <-. left. unfold afterTextToSpeech, playAudio.
    destruct (textToSpeech ai reply) as [audioData|e]; [|done].
    cbn. destruct (audioContextRef x); [|done].
    by destruct (decode audioData ≫= _).
  - destruct (resume playing (analyses x)) as [[u rest]|]; [|done].
    cbn in H. injection H as <-. by left.
  - injection H as <-. left. unfold handleToggleCamera, stopCamera.
    destruct_state x. cbn.
    destruct cam; cbn.
    + destruct (truthyId ref); cbn; by destruct sref.
    + destruct actx; [done|]. by destruct audioAvailable.
  - destruct (toggles x); [done|]. injection H as <-. left. by destruct settled.
  - destruct (isCameraOn x); [|done]. cbn in H.
    destruct (sliderValue value) eqn:Ev; [|done]. injection H as <-.
    right. by exists value.
Qed.

Lemma step_intervalInRange s t ev s' :
  intervalInRange s -> step unicodeUpper ai s t ev = Some s' ->
  intervalInRange s'.
Proof.
  unfold intervalInRange. intros Hr H.
  apply step_inv in H as (_ & a & Ha & ->).
  destruct (commit_analysisInterval s a) as [-> _].
  destruct (handle_analysisInterval _ _ _ Ha) as [->|(value & _ & Hv & ->)];
    [done|].
  unfold sliderValue in Hv. apply andb_true_iff in Hv as [Hv _].
  apply andb_true_iff in Hv as [H1 H2].
  apply Z.leb_le in H1. apply Z.leb_le in H2. done.
Qed.

Lemma reachable_intervalInRange trace : forall s s',
  intervalInRange s -> run unicodeUpper ai s trace = Some s' ->
  intervalInRange s'.
Proof.
  induction trace as [|[t ev] trace IH]; intros s s' Hr H; cbn in H.
  - by simplify_eq.
  - destruct (step unicodeUpper ai s t ev) as [s1|] eqn:E1; [|done].
    cbn in H. eauto using step_intervalInRange.
Qed.

End Steps.

End AppSteps.

(** * The claims of the specification *)

Import JS Audio AudioFacts PcmSpec PcmFacts GeminiService.

(** ** Audio *)

(** C7 -- Decode correctness.  For every byte buffer handed to
    [decodeAudioData] at its call site (24000 Hz, one channel): whenever
    a buffer is produced, it has one channel of [length / 2] samples, and
    sample [i] is the 16-bit signed little-endian integer of bytes [2i]
    and [2i+1] divided by 32768 -- exactly, the quotient being a binary32
    number -- lies in [-1, 1], and quantises and re-encodes to the
    original two bytes.  A buffer is produced for every non-empty buffer
    of even length.  In particular the round trip: decoding the encoding
    of a sequence of 16-bit samples gives each sample divided by 32768,
    which quantises back to the sample. *)
Theorem decodeAudioData_pcm16 (data : list byte) (ctx : AudioContext) :
  (forall buffer,
     decodeAudioData data ctx PLAYBACK_SAMPLE_RATE PLAYBACK_CHANNELS = Ok buffer ->
     numberOfChannels buffer = 1%nat /\ sampleRate buffer = 24000
     /\ exists channelData,
         channels buffer = [channelData]
         /\ length channelData = (length data / 2)%nat
         /\ forall (i : nat) (lo hi : byte),
             data !! (2 * i)%nat = Some lo -> data !! (2 * i + 1)%nat = Some hi ->
             let x := int16_of_bytes lo hi in
             channelData !! i = Some (Num (inject_Z x / 32768))
             /\ (-1 <= inject_Z x / 32768 <= 1)%Q
             /\ binary32_exact (inject_Z x / 32768)
             /\ pcm16_quantize (inject_Z x / 32768) = x
             /\ pcm16_encode (pcm16_quantize (inject_Z x / 32768)) = [lo; hi])
  /\ (data <> [] -> Nat.even (length data) = true ->
      exists buffer,
        decodeAudioData data ctx PLAYBACK_SAMPLE_RATE PLAYBACK_CHANNELS = Ok buffer)
  /\ (forall samples buffer,
        Forall is_int16 samples -> data = samples ≫= pcm16_encode ->
        decodeAudioData data ctx PLAYBACK_SAMPLE_RATE PLAYBACK_CHANNELS = Ok buffer ->
        channels buffer = [map (fun x => Num (inject_Z x / 32768)) samples]
        /\ map (fun x => pcm16_quantize (inject_Z x / 32768)) samples = samples).
Proof.
  assert (Hodd : Nat.even (length data) = false ->
                 decodeAudioData data ctx PLAYBACK_SAMPLE_RATE PLAYBACK_CHANNELS
                 = Throw RangeError).
  { intros Hev. unfold decodeAudioData, new_Int16Array. by rewrite Hev. }
  split.
  - intros buffer Hbuf.
    destruct (Nat.even (length data)) eqn:Hev; [|rewrite Hodd in Hbuf; done].
    assert (Hne : data <> []) by (intros ->; discriminate Hbuf).
    rewrite decodeAudioData_mono in Hbuf by done. injection Hbuf as <-.
    cbn [numberOfChannels sampleRate channels]. do 2 (split; [done|]).
    eexists. split; [done|]. split.
    + by rewrite length_map, int16_elements_length.
    + intros i lo hi Hlo Hhi. cbv zeta.
      pose proof (int16_of_bytes_range lo hi) as Hx.
      split; [|split; [|split; [|split]]].
      * rewrite list_lookup_fmap.
        by rewrite (int16_elements_lookup _ i lo hi Hlo Hhi).
      * by apply sample_value_bounds.
      * by apply pcm_sample_binary32.
      * apply sample_value_quantize.
      * rewrite sample_value_quantize. apply pcm16_encode_int16.
  - split; [intros Hne Hev; eexists; by apply decodeAudioData_mono|].
    intros samples buffer Hin -> Hbuf.
    destruct (Nat.even (length (samples ≫= pcm16_encode))) eqn:Hev;
      [|rewrite Hodd in Hbuf; done].
    assert (Hne : samples ≫= pcm16_encode <> []) by (intros E; by rewrite E in Hbuf).
    rewrite decodeAudioData_mono in Hbuf by done. injection Hbuf as <-.
    cbn [channels]. rewrite int16_elements_encode by done. split; [done|].
    clear. induction samples as [|x samples IH]; [done|].
    cbn [map]. by rewrite sample_value_quantize, IH.
Qed.

(** The specification's two examples: 16384 decodes to 0.5 and -32768
    to -1.0. *)
Lemma decodeAudioData_pcm16_witness :
  exists buffer,
    decodeAudioData [x00; x40; x00; x80] (mkAudioContext 24000)
                    PLAYBACK_SAMPLE_RATE PLAYBACK_CHANNELS = Ok buffer
    /\ exists s0 s1,
        channels buffer = [[Num s0; Num s1]]
        /\ (s0 == 1 # 2)%Q /\ (s1 == -1)%Q
        /\ pcm16_quantize s0 = 16384 /\ pcm16_quantize s1 = -32768.
Proof.
  destruct (decodeAudioData_pcm16 [x00; x40; x00; x80] (mkAudioContext 24000))
    as (Hsound & Htotal & _).
  destruct Htotal as [buffer Hbuf]; [done|reflexivity|].
  exists buffer. split; [exact Hbuf|].
  destruct (Hsound buffer Hbuf) as (_ & _ & channelData & Hch & Hlen & Hsamples).
  destruct (Hsamples 0%nat x00 x40 eq_refl eq_refl) as (H0 & _ & _ & Hq0 & _).
  destruct (Hsamples 1%nat x00 x80 eq_refl eq_refl) as (H1 & _ & _ & Hq1 & _).
  destruct channelData as [|c0 [|c1 [|c2 rest]]]; try discriminate Hlen.
  injection H0 as ->. injection H1 as ->.
  eexists _, _. split; [exact Hch|].
  split; [reflexivity|]. split; [reflexivity|]. split; [exact Hq0|exact Hq1].
Defined.

(** C9 -- Decode totality edge case.  For every buffer of odd length the
    [Int16Array] construction throws a [RangeError] and so does
    [decodeAudioData], whatever the other arguments; a buffer is only
    ever produced from an input whose length is a multiple of 2. *)
Theorem decodeAudioData_odd_length (data : list byte) (ctx : AudioContext)
    (rate : Z) (numChannels : nat) :
  (Nat.odd (length data) = true ->
   new_Int16Array data = Throw RangeError
   /\ decodeAudioData data ctx rate numChannels = Throw RangeError)
  /\ (forall buffer,
        decodeAudioData data ctx rate numChannels = Ok buffer ->
        Nat.even (length data) = true /\ (length data mod 2 = 0)%nat).
Proof.
  unfold decodeAudioData, new_Int16Array. split.
  - intros Hodd. rewrite <- Nat.negb_even in Hodd.
    apply negb_true_iff in Hodd. by rewrite Hodd.
  - intros buffer H. destruct (Nat.even (length data)) eqn:Hev; [|done].
    split; [done|]. apply Nat.even_spec in Hev. destruct Hev as [k ->].
    by rewrite Nat.mul_comm, Nat.Div0.mod_mul.
Qed.

Lemma decodeAudioData_odd_length_witness :
  decodeAudioData [x00; x40; x00] (mkAudioContext 24000)
                  PLAYBACK_SAMPLE_RATE PLAYBACK_CHANNELS = Throw RangeError.
Proof.
  apply (decodeAudioData_odd_length [x00; x40; x00] (mkAudioContext 24000)
           PLAYBACK_SAMPLE_RATE PLAYBACK_CHANNELS).
  reflexivity.
Defined.

(** ** The remote clients *)

(** C10 -- Startup precondition.  With [API_KEY] unset, loading the
    remote-client module throws, so does the start of the program, and
    no task of any trace is ever run (the remote calls are made from
    tasks only); a program that did start holds a non-empty key. *)
Theorem api_key_guard (unicodeUpper : N -> list N) (env : gmap string string) :
  (env !! "API_KEY"%string = None ->
   load env = Throw (Error (js "API_KEY environment variable is not set"))
   /\ Program.start env
      = Throw (Error (js "API_KEY environment variable is not set"))
   /\ forall trace,
       Program.run unicodeUpper env trace
       = Throw (Error (js "API_KEY environment variable is not set")))
  /\ (forall p,
        Program.start env = Ok p ->
        exists key,
          env !! "API_KEY"%string = Some key /\ key <> ""%string
          /\ apiKey (Program.ai p) = key /\ Program.app p = App.initial).
Proof.
  unfold Program.run, Program.start, load. split.
  - intros ->. done.
  - intros p H. destruct (env !! "API_KEY"%string) as [key|]; [|done].
    case_bool_decide; [done|]. cbn in H. injection H as <-. by exists key.
Qed.

Lemma api_key_guard_witness :
  Program.start ∅
  = Throw (Error (js "API_KEY environment variable is not set")).
Proof.
  apply (api_key_guard (fun c => [c]) ∅). reflexivity.
Defined.

Section Sentinel.
Import SentinelSpec App.

Variable unicodeUpper : N -> list N.

(** What the claim needs of the rest of the Unicode table: the
    upper-case form of a code point beyond ASCII (other than dotless i and
    long s) is no piece of the sentinel. *)
Hypothesis unicodeUpper_apart :
  forall c pre suf,
    beyondAscii c -> pre ++ unicodeUpper c ++ suf <> SENTINEL.

Lemma upperCodePoint_cases (c : N) :
  (exists u, upperCodePoint unicodeUpper c = [u] /\ c ∈ caseForms u)
  \/ (beyondAscii c /\ upperCodePoint unicodeUpper c = unicodeUpper c).
Proof.
  unfold upperCodePoint.
  destruct ((97 <=? c)%N && (c <=? 122)%N) eqn:Hlower.
  { left. exists (c - 32)%N. split; [done|].
    apply andb_true_iff in Hlower as [H1 H2].
    apply N.leb_le in H1. apply N.leb_le in H2.
    unfold caseForms.
    assert (((65 <=? c - 32)%N && (c - 32 <=? 90)%N) = true) as ->.
    { apply andb_true_iff. split; apply N.leb_le; lia. }
    apply elem_of_cons. right. apply elem_of_cons. left. lia. }
  destruct (c <? 128)%N eqn:Hascii.
  { left. exists c. split; [done|]. unfold caseForms.
    destruct ((65 <=? c)%N && (c <=? 90)%N); apply elem_of_cons; by left. }
  apply N.ltb_ge in Hascii.
  destruct (c =? 305)%N eqn:H305.
  { apply N.eqb_eq in H305 as ->. left. exists 73%N. split; [done|].
    vm_compute. do 2 right. left. }
  destruct (c =? 383)%N eqn:H383.
  { apply N.eqb_eq in H383 as ->. left. exists 83%N. split; [done|].
    vm_compute. do 2 right. left. }
  right. apply N.eqb_neq in H305. apply N.eqb_neq in H383. by repeat split.
Qed.

(** Upper-casing to a tail of the sentinel forces the spelling. *)
Lemma toUpperCase_sentinel_inv (text : jsstring) :
  forall pre w,
    pre ++ w = SENTINEL -> toUpperCase unicodeUpper text = w ->
    isCasingOf w text.
Proof.
  induction text as [|c text IH]; intros pre w Hpre Hup.
  - cbn in Hup. subst w. constructor.
  - change (toUpperCase unicodeUpper (c :: text))
      with (upperCodePoint unicodeUpper c ++ toUpperCase unicodeUpper text) in Hup.
    destruct (upperCodePoint_cases c) as [(u & Hu & Hform)|[Hbeyond Hu]];
      rewrite Hu in Hup.
    + subst w. constructor; [done|].
      apply (IH (pre ++ [u])); [|done]. by rewrite <- app_assoc.
    + subst w. by destruct (unicodeUpper_apart c pre (toUpperCase unicodeUpper text)).
Qed.

Lemma casing_toUpperCase (text : jsstring) :
  isCasingOf SENTINEL text -> toUpperCase unicodeUpper text = SENTINEL.
Proof.
  unfold isCasingOf. intros H.
  repeat match goal with
         | H : Forall2 _ _ (_ :: _) |- _ =>
             apply Forall2_cons_inv_r in H as (? & ? & ? & H & ->)
         | H : Forall2 _ _ SENTINEL |- _ =>
             change SENTINEL with [78; 79; 80; 69; 82; 83]%N in H
         | H : Forall2 _ _ [] |- _ => apply Forall2_nil_inv_r in H as ->
         end.
  repeat match goal with
         | H : _ ∈ caseForms ?u |- _ =>
             let forms := eval vm_compute in (caseForms u) in
             change (caseForms u) with forms in H;
             rewrite ?elem_of_cons, elem_of_nil in H;
             destruct H as [->|[->|H]]; try (destruct H as [->|[]]); try done
         end.
Qed.

(** C6 -- Sentinel classification.  For every analysis reply, trimmed
    as [analyzeFrame] returns it: any casing of the sentinel NOPERS maps
    to NoPerson, and every other non-empty text maps to Detected with
    that text. *)
Theorem sentinel_classification (ai : GoogleGenAI) (response : jsstring) :
  let text := trim response in
  analyzeFrame ai (Ok (Some response)) = Ok text
  /\ (isCasingOf SENTINEL text -> detection unicodeUpper text = NoPerson)
  /\ (text <> [] -> ~ isCasingOf SENTINEL text ->
      detection unicodeUpper text = Detected text).
Proof.
  cbv zeta. split; [done|]. unfold detection, isDetected, JS.eqb. split.
  - intros Hcasing. rewrite (casing_toUpperCase _ Hcasing).
    rewrite bool_decide_eq_true_2 by done. by rewrite andb_false_r.
  - intros Hne Hnot.
    destruct (trim response) as [|c text] eqn:Etext; [done|]. cbn [truthy andb].
    rewrite bool_decide_eq_false_2; [done|].
    intros Hup. apply Hnot.
    by apply (toUpperCase_sentinel_inv _ []).
Qed.

End Sentinel.

(** ** The analysis loop *)

Section AppClaims.
Import App AppInvariants AppFacts AppSteps.

Variable unicodeUpper : N -> list N.
Variable ai : GoogleGenAI.

Lemma step_rearmed s t ev s' :
  Inv s -> step unicodeUpper ai s t ev = Some s' ->
  flags s' <> flags s -> isCameraOn s' = true ->
  exists id,
    analysisIntervalRef s' = Some id
    /\ timers s' !! id
       = Some (Interval (flags s') (analysisInterval s')
                        (t + analysisInterval s')).
Proof.
  intros HInv H Hfl Hcam.
  destruct (step_effects _ _ _ _ _ _ HInv H) as (_ & Hclk & _).
  apply step_inv in H as (Ht & a & Ha & ->).
  destruct (handle_handlerOk _ _ s t _ a HInv Ha) as (Hai & Har & _ & _).
  destruct (commit_view s a Hai Har) as (m & n & r & Hcm & _).
  assert (Hsame : flags (commit s a) = flags a
                  /\ isCameraOn (commit s a) = isCameraOn a
                  /\ analysisInterval (commit s a) = analysisInterval a
                  /\ clock (commit s a) = clock a).
  { rewrite Hcm. by destruct a. }
  destruct Hsame as (Hf & Hc & Hi & Hk).
  rewrite Hf, Hi, <- Hclk, Hk. apply commit_rearmed; [|congruence].
  unfold deps. congruence.
Qed.

(** C1 -- No re-entrancy.  In every state the program can reach, at
    most one [runAnalysis] call is suspended; and a tick that arrives
    while the state is not Idle (isLoading, isSpeaking or isOnCooldown
    holds) re-arms its timer and does nothing else: no frame is captured,
    no call is made and no state value changes. *)
Theorem no_reentrancy (trace : list (Z * Event)) (s : State) :
  run unicodeUpper ai initial trace = Some s ->
  (length (analyses s) <= 1)%nat
  /\ forall t id mounted context s',
      isIdle s = false ->
      step unicodeUpper ai s t (Tick id mounted context) = Some s' ->
      s' = set_timers (<[id := Interval (flags s) (analysisInterval s)
                                        (t + analysisInterval s)]> (timers s))
                      (set_clock t s)
      /\ frames s' = frames s /\ analyses s' = analyses s
      /\ flags s' = flags s /\ analysisResult s' = analysisResult s
      /\ error s' = error s.
Proof.
  intros Hrun. pose proof (reachable_Inv _ _ _ _ Hrun) as HInv. split.
  - destruct HInv as (_ & _ & Hcyc). unfold cycleOk in Hcyc.
    destruct (analyses s) as [|? [|? ?]]; cbn; try lia. by destruct s0.
  - intros t id mounted context s' Hbusy Hstep.
    rewrite (tick_busy _ _ _ _ _ _ _ _ HInv Hbusy Hstep). by destruct s.
Qed.

(** C3 -- Cooldown monotonicity.  After an analysis reply that is
    Detected, arriving at time [t0], whatever tasks follow (ticks at any
    sampling interval, slider changes, camera toggles): every frame
    captured afterwards is captured at [t0 + 20000] ms or later; and when
    the cooldown timeout fires, that is no earlier either, and the state
    it leaves is Idle. *)
Theorem cooldown_monotonicity (trace rest : list (Z * Event)) (s s1 s2 : State)
    (t0 : Z) (reply : Result (option jsstring)) (text : jsstring) :
  run unicodeUpper ai initial trace = Some s ->
  step unicodeUpper ai s t0 (AnalyzeFrameSettled reply) = Some s1 ->
  analyzeFrame ai reply = Ok text ->
  detection unicodeUpper text = Detected text ->
  run unicodeUpper ai s1 rest = Some s2 ->
  COOLDOWN_DURATION_MS = 20000
  /\ (exists captured,
        frames s2 = captured ++ frames s1
        /\ Forall (fun t => t0 + COOLDOWN_DURATION_MS <= t) captured)
  /\ forall t id s3,
      step unicodeUpper ai s2 t (CooldownTimeout id) = Some s3 ->
      t0 + COOLDOWN_DURATION_MS <= t /\ isIdle s3 = true.
Proof.
  intros Hrun Hstep Hreply Hdet Hrest.
  pose proof (reachable_Inv _ _ _ _ Hrun) as HInv.
  pose proof (step_Inv _ _ _ _ _ _ HInv Hstep) as HInv1.
  assert (Hq : quiet t0 s1).
  { destruct (analyze_settled _ _ _ _ _ _ HInv Hstep)
      as (_ & _ & Hclk & _ & _ & _ & Hno & Hres).
    rewrite Hreply in Hres. unfold detection in Hdet.
    destruct (isDetected unicodeUpper text); [|done].
    destruct Hres as (_ & _ & Hfl & _). unfold flags in Hfl.
    split; [done|]. split; [lia|]. right. split; [congruence|].
    intros id d Hl. by apply Hno in Hl. }
  split; [done|]. split; [by eapply quiet_run|].
  assert (Hq2 : quiet t0 s2).
  { clear Hstep Hrun HInv HInv1. revert s1 Hq Hrest.
    induction rest as [|[t ev] rest' IH]; intros s1 Hq Hrest; cbn in Hrest.
    - by simplify_eq.
    - destruct (step unicodeUpper ai s1 t ev) as [s1'|] eqn:E; [|done]. cbn in Hrest.
      destruct (quiet_step _ _ _ _ _ _ _ Hq E) as [Hq' _]. eauto. }
  intros t id s3 Hfire. destruct Hq2 as (HInv2 & _ & Hq2).
  destruct (cooldown_fired _ _ _ _ _ _ HInv2 Hfire)
    as (_ & _ & (due & Hdue & Hle) & _ & _ & _ & Hfl & _).
  pose proof Hfire as (Hclk & _)%step_inv.
  split.
  - destruct Hq2 as [?|[_ Hd]]; [lia|]. apply Hd in Hdue. lia.
  - unfold isIdle. unfold flags in Hfl. by injection Hfl as -> -> ->.
Qed.

(** C4 -- The speech pipeline always reaches Cooldown.  When the
    speech call settles or playback ends, then, whether the call failed,
    the payload could not be decoded or played, or playback ran to its
    end: speaking ends and the cooldown timeout is started, due 20000 ms
    later, and that timeout can fire and leaves the state Idle.  The one
    other outcome is a speech call that succeeded and whose audio has
    just started playing; the end of that playback is again a case of
    this theorem. *)
Theorem speech_pipeline_reaches_cooldown (trace : list (Z * Event))
    (s s' : State) (t : Z) (ev : Event) :
  run unicodeUpper ai initial trace = Some s ->
  (ev = PlaybackEnded \/ exists reply, ev = TextToSpeechSettled reply) ->
  step unicodeUpper ai s t ev = Some s' ->
  (enteredCooldown t s'
   /\ isSpeaking s' = false /\ isOnCooldown s' = true
   /\ exists id,
       timers s' !! id = Some (Timeout (t + 20000))
       /\ forall t', t + 20000 <= t' ->
                     exists s'', step unicodeUpper ai s' t' (CooldownTimeout id) = Some s''
                                 /\ isIdle s'' = true)
  \/ (exists reply audioData audioBuffer,
        ev = TextToSpeechSettled reply
        /\ textToSpeech ai reply = Ok audioData
        /\ analyses s' = [AwaitEnded]
        /\ played s' = audioBuffer :: played s
        /\ isSpeaking s' = true).
Proof.
  intros Hrun Hev Hstep.
  pose proof (reachable_Inv _ _ _ _ Hrun) as HInv.
  pose proof (step_Inv _ _ _ _ _ _ HInv Hstep) as HInv'.
  destruct (speech_settled _ _ _ _ _ _ HInv Hstep Hev)
    as (_ & Hclk & _ & _ & _ & [Hend|Hplay]).
  - left. split; [done|].
    destruct Hend as (Hfl & Han & Hres & id & Hid). unfold flags in Hfl.
    injection Hfl as Hl Hs Hc. do 2 (split; [done|]).
    exists id. split; [done|]. intros t' Ht'.
    destruct (timeout_enabled unicodeUpper ai s' t' id _ Hid) as [s'' Hfire];
      [done|lia|].
    exists s''. split; [done|].
    destruct (cooldown_fired _ _ _ _ _ _ HInv' Hfire)
      as (_ & _ & _ & _ & _ & _ & Hfl'' & _).
    unfold isIdle. unfold flags in Hfl''. by injection Hfl'' as -> -> ->.
  - right. destruct Hplay as (reply & audioData & audioBuffer & ? & ? & ? & Hfl & ?).
    exists reply, audioData, audioBuffer. unfold flags in Hfl.
    injection Hfl as _ Hs _. done.
Qed.

(** C5 -- Analysis failure.  When the analysis call fails, the error
    is surfaced and the state is Idle at once: no flag is up, no cooldown
    timeout is pending, nothing is suspended.  The next tick that finds
    the video and a canvas context captures a frame and starts a fresh
    cycle; with the camera on such a tick can come one sampling interval
    later. *)
Theorem analysis_failure_returns_to_idle (trace : list (Z * Event))
    (s s' : State) (t : Z) (reply : Result (option jsstring)) (err : Exn) :
  run unicodeUpper ai initial trace = Some s ->
  analyzeFrame ai reply = Throw err ->
  step unicodeUpper ai s t (AnalyzeFrameSettled reply) = Some s' ->
  isIdle s' = true /\ analyses s' = [] /\ frames s' = frames s
  /\ error s' = Some (ErrAnalysis (if instanceofError err then exn_message err
                                   else js "An unknown error occurred."))
  /\ noTimeout (timers s')
  /\ (forall t' id s'',
        step unicodeUpper ai s' t' (Tick id true true) = Some s'' ->
        frames s'' = t' :: frames s'
        /\ analyses s'' = [AwaitAnalyzeFrame (mkFlags false false false)]
        /\ isLoading s'' = true)
  /\ (isCameraOn s = true ->
      exists id, forall t', t + analysisInterval s <= t' ->
        exists s'', step unicodeUpper ai s' t' (Tick id true true) = Some s'').
Proof.
  intros Hrun Hfail Hstep.
  pose proof (reachable_Inv _ _ _ _ Hrun) as HInv.
  pose proof (step_Inv _ _ _ _ _ _ HInv Hstep) as HInv'.
  destruct (analyze_settled _ _ _ _ _ _ HInv Hstep)
    as (_ & Hfl & Hclk & Hfr & Hcam & Hivl & Hno & Hres).
  rewrite Hfail in Hres. destruct Hres as (Han & Hfl' & _ & Herr).
  assert (Hidle : isIdle s' = true).
  { unfold isIdle. unfold flags in Hfl'. by injection Hfl' as -> -> ->. }
  split_and!; try done.
  - intros t' id s'' Htick.
    destruct (tick_idle _ _ _ _ _ _ HInv' Hidle Htick) as (? & ? & Hfl'').
    unfold flags in Hfl''. by injection Hfl'' as -> _ _.
  - intros Hon.
    destruct (step_rearmed _ _ _ _ HInv Hstep) as (id & _ & Hid);
      [congruence|congruence|].
    assert (Hrange : intervalInRange s).
    { eapply reachable_intervalInRange; [|exact Hrun]. unfold intervalInRange.
      cbn. unfold DEFAULT_ANALYSIS_INTERVAL_MS. lia. }
    unfold intervalInRange in Hrange.
    exists id. intros t' Ht'. rewrite Hivl in Hid.
    eapply tick_enabled; [exact Hid|lia|lia].
Qed.

(** C8 -- Interval reconfiguration.  With the camera on, a change of
    the slider stores the new interval and registers the interval timer
    afresh with the new period, first due one period later, as the only
    interval timer; the suspended call, the flags, the pending cooldown
    timeout and the captured frames are as before.  With the camera off
    the slider is disabled and raises no change; were the setter run all
    the same, the value would be stored and no timer registered, and the
    next camera-on would register the timer with it. *)
Theorem interval_reconfiguration (trace : list (Z * Event)) (s : State)
    (t value : Z) :
  run unicodeUpper ai initial trace = Some s ->
  clock s <= t -> sliderValue value = true ->
  (isCameraOn s = true ->
   exists s',
     step unicodeUpper ai s t (SliderChanged value) = Some s'
     /\ analysisInterval s' = value
     /\ (value <> analysisInterval s ->
         exists id,
           analysisIntervalRef s' = Some id
           /\ timers s' !! id = Some (Interval (flags s') value (t + value))
           /\ forall id' cb p due,
               timers s' !! id' = Some (Interval cb p due) -> id' = id)
     /\ analyses s' = analyses s /\ flags s' = flags s
     /\ frames s' = frames s /\ sameTimeouts (timers s) (timers s'))
  /\ (isCameraOn s = false ->
      step unicodeUpper ai s t (SliderChanged value) = None
      /\ let x := commit s (setAnalysisInterval value (set_clock t s)) in
         analysisInterval x = value /\ analysisIntervalRef x = None
         /\ timers x = timers s /\ flags x = flags s
         /\ analyses x = analyses s /\ frames x = frames s
         /\ forall t' mediaStream s'',
             step unicodeUpper ai x t' (GetUserMediaSettled (Ok mediaStream))
             = Some s'' ->
             exists id,
               analysisIntervalRef s'' = Some id
               /\ timers s'' !! id
                  = Some (Interval (flags s'') value (t' + value))).
Proof.
  intros Hrun Hclk Hval.
  pose proof (reachable_Inv _ _ _ _ Hrun) as HInv. split.
  - intros Hon.
    assert (Hex : exists s', step unicodeUpper ai s t (SliderChanged value) = Some s').
    { unfold step. rewrite decide_True by done. cbn. rewrite Hon, Hval. cbn.
      by eexists. }
    destruct Hex as [s' Hstep]. exists s'. split; [done|].
    pose proof (step_Inv _ _ _ _ _ _ HInv Hstep) as (_ & [_ Hi'] & _).
    destruct (slider_changed _ _ _ _ _ _ HInv Hstep) as (_ & _ & Hv & Harm).
    destruct (ui_event_view _ _ _ _ _ _ HInv Hstep I) as (_ & Hfl & Han & Hfr & Hs).
    split_and!; try done.
    intros Hne. destruct (Harm Hne) as (id & Hid & Hl).
    exists id. rewrite Hfl. split_and!; try done.
    intros id' cb p due Hl'. apply Hi' in Hl'. congruence.
  - intros Hoff. split.
    { unfold step. rewrite decide_True by done. cbn. by rewrite Hoff. }
    destruct (setAnalysisInterval_inactive s t value HInv Hoff) as [Hc HInvx].
    cbv zeta. rewrite Hc.
    pose proof HInv as (_ & [Href _] & _).
    assert (Hr : analysisIntervalRef s = None).
    { destruct (analysisIntervalRef s); [|done].
      destruct Href as (? & _). congruence. }
    split_and!; try done.
    intros t' mediaStream s'' Hstep.
    destruct (camera_on_arms _ _ _ _ _ _ HInvx Hoff Hstep) as (_ & id & Hid & Hl).
    destruct (ui_event_view _ _ _ _ _ _ HInvx Hstep I) as (_ & Hfl & _).
    exists id. rewrite Hfl. by split.
Qed.

(** C2, as the code has it -- Late results after a stop.  If the
    Session is stopped while a cycle is Analyzing or Speaking, a result
    that arrives later captures no frame and registers no interval timer:
    the camera stays off, the ref stays empty and the sampling timer
    stays cleared.  The result is applied to the cycle as in an active
    Session: an analysis reply clears isLoading and, when Detected, raises
    isSpeaking and isOnCooldown; the end of the speech pipeline (a
    failed speech call, or the end of playback) clears isSpeaking and
    starts the 20000 ms cooldown timeout. *)
Theorem late_results_after_stop (trace : list (Z * Event)) (s s' : State)
    (t : Z) (ev : Event) :
  run unicodeUpper ai initial trace = Some s ->
  isCameraOn s = false ->
  step unicodeUpper ai s t ev = Some s' ->
  match ev with
  | AnalyzeFrameSettled reply =>
      isLoading s = true /\ isLoading s' = false
      /\ forall text,
          analyzeFrame ai reply = Ok text ->
          detection unicodeUpper text = Detected text ->
          isSpeaking s' = true /\ isOnCooldown s' = true
  | TextToSpeechSettled reply =>
      isSpeaking s = true
      /\ forall err,
          textToSpeech ai reply = Throw err ->
          isSpeaking s' = false
          /\ exists id, timers s' !! id = Some (Timeout (t + 20000))
  | PlaybackEnded =>
      isSpeaking s = true /\ isSpeaking s' = false
      /\ exists id, timers s' !! id = Some (Timeout (t + 20000))
  | _ => True
  end
  /\ match ev with
     | AnalyzeFrameSettled _ | TextToSpeechSettled _ | PlaybackEnded =>
         isCameraOn s' = false /\ analysisIntervalRef s' = None
         /\ frames s' = frames s
         /\ forall id cb p due, timers s' !! id <> Some (Interval cb p due)
     | _ => True
     end.
Proof.
  intros Hrun Hoff Hstep.
  pose proof (reachable_Inv _ _ _ _ Hrun) as HInv.
  pose proof (step_Inv _ _ _ _ _ _ HInv Hstep) as (_ & [Href' Hi'] & _).
  assert (Hstopped : isCameraOn s' = false ->
            analysisIntervalRef s' = None
            /\ forall id cb p due, timers s' !! id <> Some (Interval cb p due)).
  { intros Hoff'.
    assert (Hr : analysisIntervalRef s' = None).
    { destruct (analysisIntervalRef s'); [|done].
      destruct Href' as (? & _). congruence. }
    split; [done|]. intros id cb p due Hl. apply Hi' in Hl. congruence. }
  destruct ev as [| |reply|reply| | | |]; try done.
  - destruct (analyze_settled _ _ _ _ _ _ HInv Hstep)
      as (_ & Hfl & _ & Hfr & Hcam & _ & _ & Hres).
    rewrite Hoff in Hcam. destruct (Hstopped Hcam) as [Hr Hno].
    unfold flags in Hfl. injection Hfl as Hl _ _.
    split; [|done]. split; [done|].
    destruct (analyzeFrame ai reply) as [result|exn].
    + destruct Hres as (_ & Hres). unfold detection. split.
      * destruct (isDetected unicodeUpper result);
          [destruct Hres as (_ & Hf & _)|destruct Hres as (_ & Hf & _)];
          unfold flags in Hf; by injection Hf as -> _ _.
      * intros text [= <-] Hdet.
        destruct (isDetected unicodeUpper result); [|done].
        destruct Hres as (_ & Hf & _). unfold flags in Hf.
        by injection Hf as _ -> ->.
    + destruct Hres as (_ & Hf & _). unfold flags in Hf.
      injection Hf as -> _ _. done.
  - destruct (speech_settled _ _ _ _ _ _ HInv Hstep) as (Hfl & _ & Hfr & Hcam & _ & Hend);
      [right; by eexists|].
    rewrite Hoff in Hcam. destruct (Hstopped Hcam) as [Hr Hno].
    unfold flags in Hfl. injection Hfl as _ Hsp _.
    split; [|done]. split; [done|]. intros err Herr.
    destruct Hend as [(Hf & _ & _ & id & Hid)|(r & a & b & [= <-] & Hok & _)];
      [|congruence].
    unfold flags in Hf. injection Hf as _ -> _. split; [done|]. by exists id.
  - destruct (speech_settled _ _ _ _ _ _ HInv Hstep) as (Hfl & _ & Hfr & Hcam & _ & Hend);
      [by left|].
    rewrite Hoff in Hcam. destruct (Hstopped Hcam) as [Hr Hno].
    unfold flags in Hfl. injection Hfl as _ Hsp _.
    split; [|done]. split; [done|].
    destruct Hend as [(Hf & _ & _ & id & Hid)|(r & a & b & ? & _)]; [|done].
    unfold flags in Hf. injection Hf as _ -> _. split; [done|]. by exists id.
Qed.

End AppClaims.

(** ** The claims on concrete runs *)

Lemma plainUpper_apart :
  forall c pre suf,
    JS.beyondAscii c ->
    pre ++ Examples.plainUpper c ++ suf <> SentinelSpec.SENTINEL.
Proof.
  intros c pre suf (Hc & _ & _) Heq.
  assert (Hin : c ∈ SentinelSpec.SENTINEL).
  { rewrite <- Heq. apply elem_of_app. right. apply elem_of_app. left.
    unfold Examples.plainUpper. constructor. }
  change SentinelSpec.SENTINEL with [78; 79; 80; 69; 82; 83]%N in Hin.
  rewrite !elem_of_cons, elem_of_nil in Hin.
  destruct Hin as [->|[->|[->|[->|[->|[->|[]]]]]]]; lia.
Qed.

Lemma sentinel_classification_witness :
  App.detection Examples.plainUpper (JS.trim (js " NoPers ")) = App.NoPerson
  /\ App.detection Examples.plainUpper (JS.trim (js " shalom "))
     = App.Detected (js "shalom").
Proof.
  split.
  - apply (sentinel_classification Examples.plainUpper plainUpper_apart
             Examples.ai (js " NoPers ")).
    repeat constructor.
  - apply (sentinel_classification Examples.plainUpper plainUpper_apart
             Examples.ai (js " shalom ")).
    + discriminate.
    + intros H. apply Forall2_cons_1 in H as [H _].
      change (115%N ∈ [78; 110]%N) in H.
      rewrite !elem_of_cons, elem_of_nil in H.
      destruct H as [H|[H|[]]]; discriminate H.
Defined.

Lemma no_reentrancy_witness :
  exists s s',
    App.run Examples.plainUpper Examples.ai App.initial Examples.analyzing = Some s
    /\ App.isIdle s = false
    /\ App.step Examples.plainUpper Examples.ai s 20010 (App.Tick 2 true true)
       = Some s'
    /\ App.frames s' = App.frames s /\ App.frames s = [10010]
    /\ (length (App.analyses s) <= 1)%nat.
Proof.
  destruct (App.run Examples.plainUpper Examples.ai App.initial Examples.analyzing)
    as [s|] eqn:Hrun; [|by vm_compute in Hrun].
  destruct (App.step Examples.plainUpper Examples.ai s 20010 (App.Tick 2 true true))
    as [s'|] eqn:Hstep;
    [|vm_compute in Hrun; injection Hrun as <-; by vm_compute in Hstep].
  assert (Hs : App.isIdle s = false /\ App.frames s = [10010])
    by (vm_compute in Hrun; by injection Hrun as <-).
  destruct Hs as [Hbusy Hfr].
  destruct (no_reentrancy Examples.plainUpper Examples.ai _ s Hrun) as [Hlen Htick].
  destruct (Htick _ _ _ _ _ Hbusy Hstep) as (_ & Hfr' & _).
  by exists s, s'.
Defined.

(** The specification's scenario for C2, on the code: the camera is
    turned off while the analysis call is pending; the reply that arrives
    later raises isSpeaking and isOnCooldown, and the failure of the
    speech call that follows starts the cooldown timeout. *)
Lemma discard_after_stop_counterexample :
  exists s s1 s2,
    App.run Examples.plainUpper Examples.ai App.initial Examples.stopped = Some s
    /\ App.isCameraOn s = false
    /\ App.analyses s = [App.AwaitAnalyzeFrame (App.mkFlags false false false)]
    /\ App.flags s = App.mkFlags true false false
    /\ App.timers s = ∅
    /\ App.step Examples.plainUpper Examples.ai s 10500
         (App.AnalyzeFrameSettled Examples.greeting) = Some s1
    /\ App.flags s1 = App.mkFlags false true true
    /\ App.flags s1 <> App.flags s
    /\ App.step Examples.plainUpper Examples.ai s1 10600
         (App.TextToSpeechSettled (Throw NonError)) = Some s2
    /\ App.flags s2 = App.mkFlags false false true
    /\ App.flags s2 <> App.flags s1
    /\ App.timers s2 = {[3%nat := App.Timeout 30600]}
    /\ App.timers s2 <> App.timers s1.
Proof.
  eexists _, _, _.
  split; [vm_compute; reflexivity|].
  do 4 (split; [reflexivity|]).
  split; [vm_compute; reflexivity|].
  split; [reflexivity|]. split; [discriminate|].
  split; [vm_compute; reflexivity|].
  split; [reflexivity|]. split; [discriminate|].
  split; [reflexivity|].
  intros H. apply (f_equal (fun m => m !! 3%nat)) in H. discriminate H.
Qed.

Lemma late_results_after_stop_witness :
  exists s s',
    App.run Examples.plainUpper Examples.ai App.initial Examples.stopped = Some s
    /\ App.isCameraOn s = false
    /\ App.step Examples.plainUpper Examples.ai s 10500
         (App.AnalyzeFrameSettled Examples.greeting) = Some s'
    /\ App.isLoading s = true /\ App.isLoading s' = false
    /\ App.isCameraOn s' = false /\ App.analysisIntervalRef s' = None
    /\ App.frames s' = App.frames s.
Proof.
  destruct (App.run Examples.plainUpper Examples.ai App.initial Examples.stopped)
    as [s|] eqn:Hrun; [|by vm_compute in Hrun].
  destruct (App.step Examples.plainUpper Examples.ai s 10500
              (App.AnalyzeFrameSettled Examples.greeting)) as [s'|] eqn:Hstep;
    [|vm_compute in Hrun; injection Hrun as <-; by vm_compute in Hstep].
  assert (Hoff : App.isCameraOn s = false)
    by (vm_compute in Hrun; by injection Hrun as <-).
  destruct (late_results_after_stop Examples.plainUpper Examples.ai _ s s' _ _
              Hrun Hoff Hstep) as ((Hl & Hl' & _) & Hc & Hr & Hf & _).
  by exists s, s'.
Defined.

Lemma cooldown_monotonicity_witness :
  exists s s1 s2,
    App.run Examples.plainUpper Examples.ai App.initial Examples.analyzing = Some s
    /\ App.step Examples.plainUpper Examples.ai s 10500
         (App.AnalyzeFrameSettled Examples.greeting) = Some s1
    /\ App.run Examples.plainUpper Examples.ai s1 Examples.afterwards = Some s2
    /\ App.frames s1 = [10010] /\ App.frames s2 = [40600; 10010]
    /\ exists captured,
        App.frames s2 = captured ++ App.frames s1
        /\ Forall (fun t => 10500 + App.COOLDOWN_DURATION_MS <= t) captured.
Proof.
  destruct (App.run Examples.plainUpper Examples.ai App.initial Examples.analyzing)
    as [s|] eqn:Hrun; [|by vm_compute in Hrun].
  destruct (App.step Examples.plainUpper Examples.ai s 10500
              (App.AnalyzeFrameSettled Examples.greeting)) as [s1|] eqn:Hstep;
    [|vm_compute in Hrun; injection Hrun as <-; by vm_compute in Hstep].
  destruct (App.run Examples.plainUpper Examples.ai s1 Examples.afterwards)
    as [s2|] eqn:Hrest;
    [|vm_compute in Hrun; injection Hrun as <-;
      vm_compute in Hstep; injection Hstep as <-; by vm_compute in Hrest].
  assert (Hfr : App.frames s1 = [10010] /\ App.frames s2 = [40600; 10010]).
  { vm_compute in Hrun. injection Hrun as <-.
    vm_compute in Hstep. injection Hstep as <-.
    vm_compute in Hrest. by injection Hrest as <-. }
  destruct Hfr as [Hf1 Hf2].
  destruct (cooldown_monotonicity Examples.plainUpper Examples.ai _ _ s s1 s2
              10500 Examples.greeting (js "hi") Hrun Hstep eq_refl eq_refl Hrest)
    as (_ & Hcap & _).
  by exists s, s1, s2.
Defined.

Lemma speech_pipeline_reaches_cooldown_witness :
  exists s s',
    App.run Examples.plainUpper Examples.ai App.initial Examples.speaking = Some s
    /\ App.isSpeaking s = true
    /\ App.step Examples.plainUpper Examples.ai s 10600
         (App.TextToSpeechSettled (Throw NonError)) = Some s'
    /\ App.isSpeaking s' = false /\ App.isOnCooldown s' = true
    /\ exists id, App.timers s' !! id = Some (App.Timeout 30600).
Proof.
  destruct (App.run Examples.plainUpper Examples.ai App.initial Examples.speaking)
    as [s|] eqn:Hrun; [|by vm_compute in Hrun].
  destruct (App.step Examples.plainUpper Examples.ai s 10600
              (App.TextToSpeechSettled (Throw NonError))) as [s'|] eqn:Hstep;
    [|vm_compute in Hrun; injection Hrun as <-; by vm_compute in Hstep].
  assert (Hsp : App.isSpeaking s = true)
    by (vm_compute in Hrun; by injection Hrun as <-).
  destruct (speech_pipeline_reaches_cooldown Examples.plainUpper Examples.ai
              _ s s' 10600 _ Hrun (or_intror (ex_intro _ _ eq_refl)) Hstep)
    as [(_ & Hs' & Hc' & id & Hid & _)|(reply & a & b & [= <-] & Hok & _)];
    [|discriminate Hok].
  exists s, s'. split_and!; try done. by exists id.
Defined.

Lemma analysis_failure_returns_to_idle_witness :
  exists s s',
    App.run Examples.plainUpper Examples.ai App.initial Examples.analyzing = Some s
    /\ App.step Examples.plainUpper Examples.ai s 10500
         (App.AnalyzeFrameSettled (Throw (Error (js "offline")))) = Some s'
    /\ App.isIdle s' = true
    /\ App.error s' = Some (App.ErrAnalysis (js "offline")).
Proof.
  destruct (App.run Examples.plainUpper Examples.ai App.initial Examples.analyzing)
    as [s|] eqn:Hrun; [|by vm_compute in Hrun].
  destruct (App.step Examples.plainUpper Examples.ai s 10500
              (App.AnalyzeFrameSettled (Throw (Error (js "offline")))))
    as [s'|] eqn:Hstep;
    [|vm_compute in Hrun; injection Hrun as <-; by vm_compute in Hstep].
  destruct (analysis_failure_returns_to_idle Examples.plainUpper Examples.ai
              _ s s' 10500 (Throw (Error (js "offline"))) (Error (js "offline"))
              Hrun eq_refl Hstep)
    as (Hidle & _ & _ & Herr & _).
  by exists s, s'.
Defined.

Lemma interval_reconfiguration_witness :
  exists s s',
    App.run Examples.plainUpper Examples.ai App.initial Examples.analyzing = Some s
    /\ App.isCameraOn s = true /\ App.analysisInterval s = 10000
    /\ App.step Examples.plainUpper Examples.ai s 12000 (App.SliderChanged 3000)
       = Some s'
    /\ App.analysisInterval s' = 3000
    /\ App.analyses s' = App.analyses s
    /\ (exists id,
          App.timers s' !! id
          = Some (App.Interval (App.mkFlags true false false) 3000 15000))
    /\ App.step Examples.plainUpper Examples.ai App.initial 5
         (App.SliderChanged 3000) = None.
Proof.
  destruct (App.run Examples.plainUpper Examples.ai App.initial Examples.analyzing)
    as [s|] eqn:Hrun; [|by vm_compute in Hrun].
  assert (Hs : App.isCameraOn s = true /\ App.analysisInterval s = 10000
               /\ App.clock s <= 12000
               /\ App.flags s = App.mkFlags true false false).
  { vm_compute in Hrun. injection Hrun as <-. by vm_compute. }
  destruct Hs as (Hon & Hivl & Hclk & Hfl).
  destruct (interval_reconfiguration Examples.plainUpper Examples.ai _ s
              12000 3000 Hrun Hclk eq_refl) as [Hactive _].
  destruct (Hactive Hon) as (s' & Hstep & Hv & Harm & Han & Hfl' & _).
  destruct Harm as (id & _ & Hid & _); [by rewrite Hivl|].
  destruct (interval_reconfiguration Examples.plainUpper Examples.ai []
              App.initial 5 3000 eq_refl) as [_ Hinactive];
    [vm_compute; discriminate|reflexivity|].
  destruct (Hinactive eq_refl) as [Hnone _].
  exists s, s'. split_and!; try done.
  exists id. by rewrite Hid, Hfl', Hfl.
Defined.


(** * Further properties of the code *)

(** ** Facts about base64 *)

Module Base64Facts.
Import JS Audio Base64Spec.

Lemma list_ind3 {A : Type} (P : list A -> Prop) :
  P [] -> (forall a, P [a]) -> (forall a b, P [a; b]) ->
  (forall a b c l, P l -> P (a :: b :: c :: l)) ->
  forall l, P l.
Proof.
  intros H0 H1 H2 H3.
  fix IH 1. intros [|a [|b [|c l]]];
    [exact H0|exact (H1 _)|exact (H2 _ _)|exact (H3 _ _ _ _ (IH l))].
Qed.

Lemma base64Value_base64Char (v : N) :
  (v < 64)%N -> base64Value (base64Char v) = Some v.
Proof.
  intros Hv. unfold base64Char, base64Value.
  repeat match goal with
         | |- context [(?a <? ?b)%N] => destruct (N.ltb_spec a b)
         | |- context [(?a =? ?b)%N] => destruct (N.eqb_spec a b)
         | |- context [(?a <=? ?b)%N] => destruct (N.leb_spec a b)
         | |- _ => progress cbn [andb]
         end; try (f_equal; lia); try lia.
Qed.

Lemma base64Char_plain (v : N) :
  isAsciiWhitespace (base64Char v) = false /\ base64Char v <> 61%N.
Proof.
  unfold base64Char, isAsciiWhitespace.
  repeat match goal with
         | |- context [(?a <? ?b)%N] => destruct (N.ltb_spec a b)
         | |- context [(?a =? ?b)%N] => destruct (N.eqb_spec a b)
         | |- _ => progress cbn [orb]
         end; split; try done; try lia.
Qed.

Lemma base64_sextets_bound (bytes : list byte) :
  Forall (fun v => (v < 64)%N) (base64_sextets bytes).
Proof.
  induction bytes as [|a|a b|a b c rest IH] using list_ind3; cbn [base64_sextets].
  - constructor.
  - pose proof (Byte.to_N_bounded a).
    repeat constructor; cbv zeta;
      try (apply N.mod_upper_bound; lia).
    apply N.Div0.div_lt_upper_bound; lia.
  - pose proof (Byte.to_N_bounded a). pose proof (Byte.to_N_bounded b).
    repeat constructor; cbv zeta; try (apply N.mod_upper_bound; lia).
    apply N.Div0.div_lt_upper_bound; lia.
  - pose proof (Byte.to_N_bounded a). pose proof (Byte.to_N_bounded b).
    pose proof (Byte.to_N_bounded c).
    cbv zeta. repeat (constructor; [try (apply N.mod_upper_bound; lia)|]);
      [|exact IH].
    apply N.Div0.div_lt_upper_bound; lia.
Qed.

Lemma byte_of_N_to_N (n : N) (b : byte) :
  (n mod 256 = Byte.to_N b)%N -> byte_of_N n = b.
Proof. intros H. unfold byte_of_N. by rewrite H, Byte.of_to_N. Qed.

Ltac euclid := zify; Z.to_euclidean_division_equations; lia.

Lemma base64Groups_sextets (bytes : list byte) :
  base64Groups (base64_sextets bytes) = bytes.
Proof.
  induction bytes as [|a|a b|a b c rest IH] using list_ind3;
    cbn [base64_sextets base64Groups]; cbv zeta.
  - done.
  - pose proof (Byte.to_N_bounded a).
    f_equal. apply byte_of_N_to_N. euclid.
  - pose proof (Byte.to_N_bounded a). pose proof (Byte.to_N_bounded b).
    f_equal; [|f_equal]; apply byte_of_N_to_N; euclid.
  - pose proof (Byte.to_N_bounded a). pose proof (Byte.to_N_bounded b).
    pose proof (Byte.to_N_bounded c).
    rewrite IH. f_equal; [|f_equal; [|f_equal]]; apply byte_of_N_to_N; euclid.
Qed.

Lemma mapM_base64Value (vals : list N) :
  Forall (fun v => (v < 64)%N) vals ->
  mapM base64Value (map base64Char vals) = Some vals.
Proof.
  intros H. apply mapM_Some. induction H as [|v vals Hv _ IH]; cbn [map].
  - constructor.
  - constructor; [by apply base64Value_base64Char|exact IH].
Qed.

(** The characters and the padding add up to a multiple of four. *)
Lemma base64_sextets_length (bytes : list byte) :
  ((length (base64_sextets bytes) + (3 - length bytes mod 3) mod 3) mod 4 = 0)%nat
  /\ (length (base64_sextets bytes) mod 4 <> 1)%nat
  /\ ((3 - length bytes mod 3) mod 3 <= 2)%nat
  /\ (base64_sextets bytes = [] -> (3 - length bytes mod 3) mod 3 = 0)%nat.
Proof.
  induction bytes as [|a|a b|a b c rest IH] using list_ind3;
    cbn [base64_sextets length]; try (cbn; split_and!; done || lia).
  destruct IH as (IH1 & IH2 & IH3 & IH4).
  replace (S (S (S (length rest))) mod 3)%nat with (length rest mod 3)%nat
    by (change (S (S (S (length rest)))) with (3 + length rest)%nat;
        rewrite <- Nat.Div0.add_mod_idemp_l; done).
  split_and!; [| |done|done].
  - change (S (S (S (S ?n)))) with (4 + n)%nat.
    replace (4 + length (base64_sextets rest) + (3 - length rest mod 3) mod 3)%nat
      with (length (base64_sextets rest) + (3 - length rest mod 3) mod 3 + 1 * 4)%nat
      by lia.
    by rewrite Nat.Div0.mod_add.
  - change (S (S (S (S ?n)))) with (4 + n)%nat.
    replace (4 + length (base64_sextets rest))%nat
      with (length (base64_sextets rest) + 1 * 4)%nat by lia.
    by rewrite Nat.Div0.mod_add.
Qed.

Lemma stripPadding_none (s : jsstring) :
  (length s mod 4 = 0)%nat ->
  (forall c r, rev s = c :: r -> c <> 61%N) ->
  stripPadding s = s.
Proof.
  intros Hlen Hlast. unfold stripPadding. rewrite Hlen. cbn [Nat.eqb].
  destruct (rev s) as [|c r]; [done|].
  specialize (Hlast c r eq_refl).
  destruct c as [|p]; [done|].
  do 6 (try destruct p as [p|p|]; try done).
Qed.

Lemma stripPadding_one (s : jsstring) (c : N) (r : list N) :
  (length s mod 4 = 0)%nat -> rev s = 61%N :: c :: r -> c <> 61%N ->
  stripPadding s = rev (c :: r).
Proof.
  intros Hlen Hrev Hc. unfold stripPadding. rewrite Hlen, Hrev. cbn [Nat.eqb].
  destruct c as [|p]; [done|].
  do 6 (try destruct p as [p|p|]; try done).
Qed.

Lemma stripPadding_two (s : jsstring) (r : list N) :
  (length s mod 4 = 0)%nat -> rev s = 61%N :: 61%N :: r ->
  stripPadding s = rev r.
Proof. intros Hlen Hrev. unfold stripPadding. by rewrite Hlen, Hrev. Qed.

Lemma stripPadding_encode (bytes : list byte) :
  stripPadding (base64_encode bytes) = map base64Char (base64_sextets bytes).
Proof.
  unfold base64_encode.
  destruct (base64_sextets_length bytes) as (Hlen & _ & Hpad & Hnil).
  set (u := map base64Char (base64_sextets bytes)).
  assert (Hu : forall c r, rev u = c :: r -> c <> 61%N).
  { intros c r Hrev. assert (Hin : c ∈ rev u) by (rewrite Hrev; left).
    apply list_elem_of_In, in_rev, list_elem_of_In in Hin.
    apply list_elem_of_fmap in Hin as (v & -> & _).
    apply base64Char_plain. }
  assert (Hlen' : forall k, k = ((3 - length bytes mod 3) mod 3)%nat ->
                  (length (u ++ replicate k 61%N) mod 4 = 0)%nat).
  { intros k ->. unfold u.
    by rewrite length_app, length_map, length_replicate. }
  destruct ((3 - length bytes mod 3) mod 3)%nat as [|[|[|k]]] eqn:Ek; [| | |lia].
  - specialize (Hlen' 0%nat eq_refl). cbn [replicate] in *.
    rewrite app_nil_r in *. by apply stripPadding_none.
  - specialize (Hlen' 1%nat eq_refl). cbn [replicate] in *.
    destruct (rev u) as [|c r] eqn:Hrev.
    { apply (f_equal (@rev N)) in Hrev. rewrite rev_involutive in Hrev.
      unfold u in Hrev. apply fmap_nil_inv in Hrev. apply Hnil in Hrev. lia. }
    rewrite (stripPadding_one _ c r); [|done| |by eapply Hu].
    + by rewrite <- Hrev, rev_involutive.
    + by rewrite rev_app_distr, Hrev.
  - specialize (Hlen' 2%nat eq_refl). cbn [replicate] in *.
    rewrite (stripPadding_two _ (rev u)); [|done|].
    + apply rev_involutive.
    + by rewrite rev_app_distr.
Qed.

Lemma filter_all {A : Type} (P : A -> Prop) `{forall x, Decision (P x)} (l : list A) :
  Forall P l -> filter P l = l.
Proof.
  induction 1 as [|x l Hx _ IH]; [done|].
  by rewrite filter_cons_True, IH.
Qed.

(** [atob] inverts the standard encoding. *)
Lemma atob_encode (bytes : list byte) :
  atob (base64_encode bytes) = Some bytes.
Proof.
  unfold atob, jsstring.
  rewrite filter_all.
  2:{ unfold base64_encode. apply Forall_app. split.
      - apply Forall_fmap, Forall_true. intros v. apply base64Char_plain.
      - apply Forall_replicate. done. }
  rewrite stripPadding_encode. cbv zeta. rewrite length_map.
  destruct (base64_sextets_length bytes) as (_ & Hlen & _).
  destruct (Nat.eqb_spec (length (base64_sextets bytes) mod 4) 1); [done|].
  rewrite mapM_base64Value by apply base64_sextets_bound.
  cbn. by rewrite base64Groups_sextets.
Qed.

Lemma decode_encode (bytes : list byte) :
  decode (base64_encode bytes) = Ok bytes.
Proof. apply AudioFacts.decode_bytes, atob_encode. Qed.
End Base64Facts.

(** ** Facts about the decoder, for any number of channels *)

Module ChannelFacts.
Import Audio AudioFacts.

(** The outer loop of [decodeAudioData] over a window of channels, each
    of [fc] samples. *)
Lemma fill_channels_window (d : list Z) (nc fc k : nat) :
  forall (a : nat) (chans : list (list Sample)),
    (a + k <= length chans)%nat ->
    Forall (fun cd => length cd = fc) chans ->
    foldl (fun cs channel =>
             match cs !! channel with
             | Some cd => <[channel := fill_channel d nc channel fc cd]> cs
             | None => cs
             end) chans (seq a k)
    = take a chans
      ++ map (fun c => map (fun i => pcm_sample d (i * nc + c)) (seq 0 fc)) (seq a k)
      ++ drop (a + k) chans.
Proof.
  induction k as [|k IH]; intros a chans Hlen Hall; simpl.
  - rewrite Nat.add_0_r. by rewrite take_drop.
  - destruct (lookup_lt_is_Some_2 chans a) as [cd Hcd]; [lia|].
    rewrite Hcd.
    rewrite fill_channel_map by (by eapply Forall_lookup_1 in Hall).
    set (g := map (fun i => pcm_sample d (i * nc + a)) (seq 0 fc)).
    rewrite IH.
    + assert (Hx : <[a := g]> chans !! a = Some g)
        by (apply list_lookup_insert_eq; lia).
      rewrite (take_S_r _ _ _ Hx).
      rewrite take_insert_ge by lia.
      rewrite drop_insert_lt by lia.
      rewrite <- app_assoc. simpl.
      by replace (a + S k)%nat with (S (a + k)) by lia.
    + rewrite length_insert. lia.
    + apply Forall_insert; [done|]. unfold g. by rewrite length_map, length_seq.
Qed.

Lemma fill_channels_map (d : list Z) (nc fc : nat) :
  fill_channels d nc fc (replicate nc (replicate fc (Num 0)))
  = map (fun c => map (fun i => pcm_sample d (i * nc + c)) (seq 0 fc)) (seq 0 nc).
Proof.
  unfold fill_channels. rewrite fill_channels_window.
  - simpl. rewrite drop_ge by (rewrite length_replicate; lia).
    by rewrite app_nil_r.
  - rewrite length_replicate. simpl. lia.
  - apply Forall_replicate. by rewrite length_replicate.
Qed.

(** Every 16-bit element is laid over two bytes of an even-length buffer. *)
Lemma int16_elements_bytes (data : list byte) (k : nat) :
  (k < length data / 2)%nat ->
  exists lo hi,
    data !! (2 * k)%nat = Some lo /\ data !! (2 * k + 1)%nat = Some hi
    /\ int16_elements data !! k = Some (int16_of_bytes lo hi).
Proof.
  intros Hk.
  assert (Hlen : (2 * (length data / 2) <= length data)%nat)
    by apply Nat.Div0.mul_div_le.
  destruct (lookup_lt_is_Some_2 data (2 * k)) as [lo Hlo]; [lia|].
  destruct (lookup_lt_is_Some_2 data (2 * k + 1)) as [hi Hhi]; [lia|].
  exists lo, hi. split_and!; try done. by apply int16_elements_lookup.
Qed.

Lemma decodeAudioData_general (data : list byte) (ctx : AudioContext)
    (rate : Z) (nc : nat) :
  Nat.even (length data) = true ->
  (1 <= nc <= length data / 2)%nat ->
  supportedSampleRate rate = true ->
  decodeAudioData data ctx rate nc
  = Ok {| numberOfChannels := nc;
          bufLength := (length data / 2 / nc)%nat;
          sampleRate := rate;
          channels :=
            map (fun c => map (fun i => pcm_sample (int16_elements data) (i * nc + c))
                              (seq 0 (length data / 2 / nc)))
                (seq 0 nc) |}.
Proof.
  intros Hev [Hnc Hle] Hrate.
  unfold decodeAudioData, new_Int16Array. rewrite Hev.
  cbn [mbind Result_bind]. cbv zeta. rewrite int16_elements_length.
  set (fc := (length data / 2 / nc)%nat).
  assert (Hfc : (1 <= fc)%nat) by (apply Nat.div_le_lower_bound; lia).
  unfold createBuffer. rewrite Hrate.
  destruct (Nat.eqb_spec nc 0); [lia|]. destruct (Nat.eqb_spec fc 0); [lia|].
  cbn [orb negb mbind Result_bind mret Result_ret numberOfChannels bufLength
       sampleRate channels].
  by rewrite fill_channels_map.
Qed.

(** When [decodeAudioData] returns and what it throws. *)
Lemma decodeAudioData_cases (data : list byte) (ctx : AudioContext)
    (rate : Z) (numChannels : nat) :
  match decodeAudioData data ctx rate numChannels with
  | Ok buffer =>
      Nat.even (length data) = true
      /\ (1 <= numChannels <= length data / 2)%nat
      /\ supportedSampleRate rate = true
  | Throw e =>
      (e = RangeError /\ Nat.even (length data) = false)
      \/ (e = NotSupportedError /\ Nat.even (length data) = true
          /\ (numChannels = 0%nat \/ (length data / 2 < numChannels)%nat
              \/ supportedSampleRate rate = false))
  end.
Proof.
  unfold decodeAudioData, new_Int16Array.
  destruct (Nat.even (length data)) eqn:Hev; [|by left].
  cbn [mbind Result_bind]. cbv zeta. rewrite int16_elements_length.
  unfold createBuffer.
  destruct (Nat.eqb_spec numChannels 0) as [->|Hnc]; [right; by auto|].
  destruct (Nat.eqb_spec (length data / 2 / numChannels) 0) as [Hfc|Hfc].
  { right. split_and!; try done. right. left.
    apply Nat.div_small_iff in Hfc; lia. }
  destruct (supportedSampleRate rate) eqn:Hrate; cbn [orb negb mbind Result_bind].
  - split_and!; try done; [lia|].
    destruct (decide (numChannels <= length data / 2)%nat) as [|Hgt]; [done|].
    rewrite Nat.div_small in Hfc by lia. done.
  - right. by auto.
Qed.

End ChannelFacts.

(** ** Facts about [trim] *)

Module TrimFacts.
Import JS.

Lemma trimStart_head (s : jsstring) (c : N) :
  head (trimStart s) = Some c -> isWhiteSpace c = false.
Proof.
  induction s as [|d s IH]; [done|]. cbn [trimStart].
  destruct (isWhiteSpace d) eqn:Hd; [done|]. by intros [= <-].
Qed.

Lemma trimStart_fixed (s : jsstring) :
  (forall c, head s = Some c -> isWhiteSpace c = false) -> trimStart s = s.
Proof.
  destruct s as [|c s]; [done|]. intros H. cbn [trimStart].
  by rewrite (H c eq_refl).
Qed.

(** What [trimStart] drops is a run of white space. *)
Lemma trimStart_suffix (s : jsstring) :
  exists dropped,
    s = dropped ++ trimStart s /\ Forall (fun c => isWhiteSpace c = true) dropped.
Proof.
  induction s as [|c s (dropped & IH & Hall)]; [by exists []|].
  cbn [trimStart]. destruct (isWhiteSpace c) eqn:Hc.
  - exists (c :: dropped). split; [by rewrite IH at 1|by constructor].
  - by exists [].
Qed.

Lemma trimEnd_prefix (s : jsstring) :
  exists dropped,
    s = trimEnd s ++ dropped /\ Forall (fun c => isWhiteSpace c = true) dropped.
Proof.
  destruct (trimStart_suffix (rev s)) as (dropped & Hs & Hall).
  exists (rev dropped). split.
  - apply (f_equal (@rev N)) in Hs. rewrite rev_involutive, rev_app_distr in Hs.
    exact Hs.
  - apply Forall_forall. intros c Hc.
    apply list_elem_of_In, in_rev, list_elem_of_In in Hc.
    by eapply Forall_forall in Hall.
Qed.

Lemma trimEnd_last (s : jsstring) (c : N) :
  last (trimEnd s) = Some c -> isWhiteSpace c = false.
Proof.
  unfold trimEnd. intros H. apply (trimStart_head (rev s)).
  destruct (trimStart (rev s)) as [|d r]; [done|].
  cbn [rev] in H. rewrite last_snoc in H. by injection H as <-.
Qed.

(** A string that starts with no white space keeps its start when its
    end is trimmed. *)
Lemma trimEnd_head (s : jsstring) (c : N) :
  (forall d, head s = Some d -> isWhiteSpace d = false) ->
  head (trimEnd s) = Some c -> isWhiteSpace c = false.
Proof.
  intros Hs Hc. destruct (trimEnd_prefix s) as (dropped & E & _).
  apply Hs. rewrite E. by destruct (trimEnd s).
Qed.

Lemma trimEnd_fixed (s : jsstring) :
  (forall c, last s = Some c -> isWhiteSpace c = false) -> trimEnd s = s.
Proof.
  intros H. unfold trimEnd. rewrite trimStart_fixed; [apply rev_involutive|].
  intros c Hc. apply H. rewrite <- (rev_involutive s).
  destruct (rev s) as [|d r]; [done|]. injection Hc as ->.
  cbn [rev]. apply last_snoc.
Qed.

Lemma trim_ends (s : jsstring) (c : N) :
  head (trim s) = Some c \/ last (trim s) = Some c -> isWhiteSpace c = false.
Proof.
  unfold trim. intros [H|H].
  - eapply trimEnd_head; [|exact H]. apply trimStart_head.
  - by eapply trimEnd_last.
Qed.

Lemma trim_idempotent (s : jsstring) : trim (trim s) = trim s.
Proof.
  assert (Hfix : forall u,
            (forall c, head u = Some c \/ last u = Some c -> isWhiteSpace c = false) ->
            trim u = u).
  { intros u Hu. unfold trim.
    rewrite trimStart_fixed by (intros c Hc; apply Hu; by left).
    apply trimEnd_fixed. intros c Hc. apply Hu. by right. }
  apply Hfix, trim_ends.
Qed.

End TrimFacts.

(** ** The resources are kept in order by every task *)

Module ResourceFacts.
Import JS Audio GeminiService PcmSpec App AppInvariants AppFacts AppSteps AppResources.

(** The render leaves every state value and every other ref alone. *)
Lemma commit_fields b a :
  flags (commit b a) = flags a /\ isCameraOn (commit b a) = isCameraOn a
  /\ analyses (commit b a) = analyses a /\ frames (commit b a) = frames a
  /\ played (commit b a) = played a /\ error (commit b a) = error a
  /\ analysisResult (commit b a) = analysisResult a
  /\ stream (commit b a) = stream a /\ streamRef (commit b a) = streamRef a
  /\ audioContextRef (commit b a) = audioContextRef a
  /\ toggles (commit b a) = toggles a.
Proof.
  unfold commit, intervalEffect, intervalCleanup.
  destruct (decide (deps a = deps b)); [done|].
  destruct_state a. cbn. destruct (truthyId ref); cbn; destruct cam; cbn; try done;
    destruct (truthyId ref); done.
Qed.


Lemma int16_elements_range (buffer : list byte) :
  Forall is_int16 (int16_elements buffer).
Proof.
  induction buffer as [buffer IH] using (induction_ltof1 _ (@length byte)).
  unfold ltof in IH.
  destruct buffer as [|lo [|hi rest]]; try constructor.
  - apply AudioFacts.int16_of_bytes_range.
  - apply IH. simpl. lia.
Qed.

(** Whatever the decoder returns at the call site of [playAudio] can be
    played. *)
Lemma decodeAudioData_playable (data : list byte) (ctx : AudioContext)
    (buffer : AudioBuffer) :
  decodeAudioData data ctx PLAYBACK_SAMPLE_RATE PLAYBACK_CHANNELS = Ok buffer ->
  playable buffer.
Proof.
  intros H.
  pose proof (ChannelFacts.decodeAudioData_cases data ctx PLAYBACK_SAMPLE_RATE
                PLAYBACK_CHANNELS) as Hc.
  rewrite H in Hc. destruct Hc as (Hev & [_ Hlen] & _).
  assert (Hne : data <> []) by (intros ->; unfold PLAYBACK_CHANNELS in Hlen; cbn in Hlen; lia).
  rewrite PcmFacts.decodeAudioData_mono in H by done. injection H as <-.
  unfold playable. cbn [numberOfChannels sampleRate bufLength channels].
  split_and!; try done. eexists. split_and!; [done| |].
  - by rewrite length_map, AudioFacts.int16_elements_length.
  - apply Forall_fmap. eapply Forall_impl; [apply int16_elements_range|].
    intros x Hx. by exists x.
Qed.

(** The three ways [playAudio] can go. *)
Lemma playAudio_cases (base64Audio : jsstring) (x : State) :
  (audioContextRef x = None /\ playAudio base64Audio x = (x, false))
  \/ (audioContextRef x <> None
      /\ playAudio base64Audio x = (setError (Some ErrPlayback) x, false))
  \/ (exists audioBuffer,
        audioContextRef x <> None /\ playable audioBuffer
        /\ playAudio base64Audio x
           = (set_played (audioBuffer :: played x) x, true)).
Proof.
  unfold playAudio. destruct (audioContextRef x) as [ctx|]; [|by left].
  right. destruct (decode base64Audio) as [data|e]; cbn [mbind Result_bind];
    [|by left].
  destruct (decodeAudioData data ctx PLAYBACK_SAMPLE_RATE PLAYBACK_CHANNELS)
    as [audioBuffer|e] eqn:E; [|by left].
  right. exists audioBuffer. split_and!; try done.
  by eapply decodeAudioData_playable.
Qed.


Section Resources.

Variable unicodeUpper : N -> list N.
Variable ai : GoogleGenAI.

Lemma tick_resources x id mounted context a :
  intervalOk x -> cycleOk x -> Resources x ->
  handle unicodeUpper ai (Tick id mounted context) x = Some a -> Resources a.
Proof.
  intros Hivl Hcyc ([Hst1 Hst2] & Hau & Hpl & Hcnt) Ha. cbn in Ha.
  destruct (timers x !! id) as [[cb p due|]|] eqn:Etm; try done.
  case_decide; [|done]. injection Ha as <-.
  destruct (interval_at_ref x id cb p due Hivl Etm) as (Hid & Hcam & Hne & -> & ->).
  assert (Han : flags x = mkFlags false false false -> analyses x = [])
    by (intros Hfl; by apply idle_cycle).
  unfold Resources, streamOk, audioOk, undecided, runAnalysis, suspend, flags in *.
  destruct_state x. cbn in *. subst cam.
  destruct actx as [ctx|]; [|by destruct Hau as (_ & ? & _)].
  destruct mounted, context, ld, sp, cd; cbn; split_and!; try done;
    try rewrite Han in * by done; cbn in *; lia.
Qed.

Lemma handle_resources ev x a :
  intervalOk x -> cycleOk x -> Resources x ->
  handle unicodeUpper ai ev x = Some a -> Resources a.
Proof.
  intros Hivl Hcyc HR Ha.
  destruct ev as [id mounted context|id|reply|reply| |audioAvailable|settled|value];
    [by eapply tick_resources|..]; destruct HR as ([Hst1 Hst2] & Hau & Hpl & Hcnt);
    cbn in Ha.
  - destruct (timers x !! id) as [[cb p due|due]|] eqn:Etm; try done.
    case_decide; [|done]. injection Ha as <-.
    unfold Resources, streamOk, audioOk, undecided in *.
    destruct_state x. cbn in *. split_and!; try done.
    destruct actx; [done|]. by destruct Hau as (? & ? & ? & _).
  - destruct (resume analyzing (analyses x)) as [[closure rest]|] eqn:Eres; [|done].
    destruct (resume_analyzing x closure rest Hcyc Eres) as (Han & -> & Hfl & -> & _).
    cbn in Ha. injection Ha as <-.
    unfold Resources, streamOk, audioOk, undecided, afterAnalyzeFrame, suspend in *.
    destruct_state x. cbn in *. subst ans.
    destruct actx as [ctx|]; [|by destruct Hau as (_ & _ & ? & _)].
    destruct (analyzeFrame ai reply) as [result|e];
      [destruct (isDetected unicodeUpper result)|]; cbn; split_and!; try done; lia.
  - destruct (resume synthesizing (analyses x)) as [[text rest]|] eqn:Eres; [|done].
    destruct (resume_synthesizing x text rest Hcyc Eres) as (Han & -> & Hfl & _).
    assert (a = afterTextToSpeech (textToSpeech ai reply) (set_analyses [] x)) as ->
      by (cbn in Ha; injection Ha as <-; reflexivity).
    assert (Hctx : audioContextRef x <> None).
    { unfold audioOk in Hau. destruct (audioContextRef x); [done|].
      destruct Hau as (_ & _ & ? & _). congruence. }
    unfold afterTextToSpeech.
    destruct (textToSpeech ai reply) as [audioData|e].
    + destruct (playAudio_cases audioData (set_analyses [] x))
        as [(Hn & ->)|[(Hn & ->)|(audioBuffer & Hn & Hp & ->)]]; [done| |];
        unfold Resources, streamOk, audioOk, undecided, finallyBlock, suspend,
          setTimeout, addTimer in *;
        destruct_state x; cbn in *; subst ans;
        (destruct actx as [ctx|]; [|done]); split_and!; try done; try lia.
      by constructor.
    + unfold Resources, streamOk, audioOk, undecided, finallyBlock, setTimeout,
        addTimer in *.
      destruct_state x; cbn in *; subst ans.
      (destruct actx as [ctx|]; [|done]); split_and!; try done; lia.
  - destruct (resume playing (analyses x)) as [[u rest]|] eqn:Eres; [|done].
    destruct (resume_playing x u rest Hcyc Eres) as (Han & -> & Hfl & _).
    cbn in Ha. injection Ha as <-.
    unfold Resources, streamOk, audioOk, undecided, finallyBlock, setTimeout,
      addTimer in *.
    destruct_state x; cbn in *; subst ans.
    destruct actx as [ctx|]; [|by destruct Hau as (_ & _ & ? & _)].
    split_and!; try done.
  - injection Ha as <-.
    unfold Resources, streamOk, audioOk, undecided, handleToggleCamera, stopCamera,
      clearInterval in *.
    destruct_state x; cbn in *.
    destruct cam; cbn.
    + destruct actx as [ctx|]; [|by destruct Hau as (_ & ? & _)].
      destruct (truthyId ref); cbn; destruct sref; cbn; split_and!; done.
    + destruct actx as [ctx|]; cbn; [|destruct audioAvailable; cbn];
        split_and!; try done; by destruct Hau as (? & ? & ? & ?).
  - destruct (toggles x) as [|n] eqn:Etg; [done|]. injection Ha as <-.
    unfold Resources, streamOk, audioOk, undecided, afterGetUserMedia in *.
    destruct_state x; cbn in *. subst tgl.
    destruct actx as [ctx|]; [|by destruct Hau as (? & _)].
    destruct settled as [mediaStream|e]; cbn; split_and!; done.
  - destruct (isCameraOn x && sliderValue value); [|done]. injection Ha as <-.
    unfold Resources, streamOk, audioOk, undecided in *.
    destruct_state x; cbn in *. done.
Qed.

Lemma step_resources s t ev s' :
  Inv s -> Resources s -> step unicodeUpper ai s t ev = Some s' -> Resources s'.
Proof.
  intros (_ & Hivl & Hcyc) HR H.
  apply step_inv in H as (_ & a & Ha & ->).
  assert (HRa : Resources a).
  { eapply handle_resources; [| | |exact Ha]; by destruct_state s. }
  destruct (commit_fields s a)
    as (Hfl & Hcam & Han & Hfr & Hpl & _ & _ & Hstr & Hsref & Hctx & Htg).
  unfold Resources, streamOk, audioOk, undecided, flags in *.
  rewrite Hcam, Han, Hfr, Hpl, Hstr, Hsref, Hctx, Htg.
  injection Hfl as _ _ ->. exact HRa.
Qed.

Lemma initial_resources : Resources initial.
Proof. unfold Resources, streamOk, audioOk. cbn. split_and!; done. Qed.

Lemma reachable_resources trace : forall s s',
  Inv s -> Resources s -> run unicodeUpper ai s trace = Some s' ->
  Inv s' /\ Resources s'.
Proof.
  induction trace as [|[t ev] trace IH]; intros s s' HInv HR Hrun; cbn in Hrun.
  - by simplify_eq.
  - destruct (step unicodeUpper ai s t ev) as [s1|] eqn:E; [|done]. cbn in Hrun.
    eapply IH; [| |exact Hrun]; [by eapply step_Inv|by eapply step_resources].
Qed.

End Resources.

End ResourceFacts.

(** ** Captures are paced by the interval timer *)

Module PacingFacts.
Import JS Audio GeminiService PcmSpec App AppInvariants AppFacts AppSteps.
Import AppResources ResourceFacts.

Section Pacing.

Variable unicodeUpper : N -> list N.
Variable ai : GoogleGenAI.

(** A task leaves an interval timer as it was, capturing nothing, or
    the timer has fired and is due again one period from now. *)
Lemma handle_intervals ev x a id cb p due :
  intervalOk x -> handle unicodeUpper ai ev x = Some a ->
  timers a !! id = Some (Interval cb p due) ->
  (timers x !! id = Some (Interval cb p due) /\ frames a = frames x)
  \/ due = clock x + p.
Proof.
  intros Hivl Ha Hl.
  destruct ev as [id0 mounted context|id0|reply|reply| |audioAvailable|settled|value];
    cbn in Ha.
  - destruct (timers x !! id0) as [[cb0 p0 due0|]|] eqn:Etm; try done.
    case_decide; [|done].
    assert (a = runAnalysis cb0 mounted context
                  (set_timers (<[id0 := Interval cb0 p0 (clock x + p0)]> (timers x)) x))
      as -> by (injection Ha as <-; reflexivity).
    assert (Htm : timers (runAnalysis cb0 mounted context
                     (set_timers (<[id0 := Interval cb0 p0 (clock x + p0)]> (timers x)) x))
                  = <[id0 := Interval cb0 p0 (clock x + p0)]> (timers x)).
    { unfold runAnalysis.
      destruct mounted, context, (loading cb0 || speaking cb0 || onCooldown cb0);
        by destruct_state x. }
    rewrite Htm in Hl. apply lookup_insert_Some in Hl as [[-> [= <- <- <-]]|[Hne Hl]].
    + by right.
    + destruct Hivl as [_ Huniq].
      pose proof (Huniq _ _ _ _ Etm). pose proof (Huniq _ _ _ _ Hl). congruence.
  - destruct (timers x !! id0) as [[cb0 p0 due0|due0]|] eqn:Etm; try done.
    case_decide; [|done]. injection Ha as <-. left.
    destruct_state x. cbn in *. by apply lookup_delete_Some in Hl as [_ Hl].
  - destruct (resume analyzing (analyses x)) as [[closure rest]|]; [|done].
    cbn in Ha. injection Ha as <-. left.
    unfold afterAnalyzeFrame, suspend in Hl |- *.
    destruct (analyzeFrame ai reply) as [result|e];
      [destruct (isDetected unicodeUpper result)|]; destruct closure as [? ? []];
      destruct_state x; by cbn in *.
  - destruct (resume synthesizing (analyses x)) as [[text rest]|]; [|done].
    assert (a = afterTextToSpeech (textToSpeech ai reply) (set_analyses rest x)) as ->
      by (cbn in Ha; injection Ha as <-; reflexivity).
    left. unfold afterTextToSpeech in Hl |- *.
    destruct (textToSpeech ai reply) as [audioData|e].
    + destruct (playAudio_cases audioData (set_analyses rest x))
        as [(_ & E)|[(_ & E)|(audioBuffer & _ & _ & E)]]; rewrite E in Hl |- *;
        unfold finallyBlock, setTimeout, addTimer, suspend in *;
        destruct_state x; cbn in *; try done;
        by apply lookup_insert_Some in Hl as [[_ [=]]|[_ Hl]].
    + unfold finallyBlock, setTimeout, addTimer in *.
      destruct_state x; cbn in *.
      by apply lookup_insert_Some in Hl as [[_ [=]]|[_ Hl]].
  - destruct (resume playing (analyses x)) as [[u rest]|]; [|done].
    cbn in Ha. injection Ha as <-. left.
    destruct_state x; cbn in *.
    by apply lookup_insert_Some in Hl as [[_ [=]]|[_ Hl]].
  - injection Ha as <-. left.
    unfold handleToggleCamera, stopCamera, clearInterval in *.
    destruct_state x; cbn in *.
    destruct cam; cbn in *.
    + destruct (truthyId ref); cbn in *; destruct sref; cbn in *; try done;
        by apply lookup_delete_Some in Hl as [_ Hl].
    + destruct actx; [|destruct audioAvailable]; done.
  - destruct (toggles x) as [|n]; [done|]. injection Ha as <-. left.
    destruct settled; destruct_state x; by cbn in *.
  - destruct (isCameraOn x && sliderValue value); [|done]. injection Ha as <-.
    left. destruct_state x. by cbn in *.
Qed.

Lemma step_interval_due s t ev s' id cb p due :
  Inv s -> step unicodeUpper ai s t ev = Some s' ->
  timers s' !! id = Some (Interval cb p due) ->
  (timers s !! id = Some (Interval cb p due) /\ frames s' = frames s)
  \/ due = t + p.
Proof.
  intros HInv H Hl.
  pose proof (step_Inv _ _ _ _ _ _ HInv H) as (_ & Hivl' & _).
  destruct (step_effects _ _ _ _ _ _ HInv H) as (_ & Hclk & _).
  apply step_inv in H as (_ & a & Ha & ->).
  destruct (commit_analysisInterval s a) as [Hi Hc].
  destruct (decide (deps a = deps s)) as [E|E].
  - rewrite (commit_unchanged _ _ E) in *.
    assert (Hx : intervalOk (set_clock t s))
      by (destruct HInv as (_ & ? & _); by destruct_state s).
    destruct (handle_intervals _ _ _ _ _ _ _ Hx Ha Hl) as [[? ?]| ->];
      [by left|by right].
  - right.
    destruct (interval_at_ref _ _ _ _ _ Hivl' Hl) as (Href & Hcam & _ & _ & ->).
    destruct (commit_fields s a) as (_ & Hcam' & _).
    destruct (commit_rearmed s a E) as (id' & Hid' & Hl'); [congruence|].
    rewrite Href in Hid'. injection Hid' as <-.
    rewrite Hl in Hl'. injection Hl' as _ _ ->. congruence.
Qed.

Lemma tick_fired s t id mounted context s' :
  step unicodeUpper ai s t (Tick id mounted context) = Some s' ->
  exists cb p due, timers s !! id = Some (Interval cb p due) /\ due <= t.
Proof.
  intros H. apply step_inv in H as (_ & a & Ha & _). cbn in Ha.
  destruct (timers s !! id) as [[cb p due|]|]; try done.
  case_decide; [|done]. by exists cb, p, due.
Qed.

Lemma step_frames s t ev s' :
  Inv s -> step unicodeUpper ai s t ev = Some s' ->
  frames s' = frames s
  \/ (frames s' = t :: frames s /\ isIdle s = true
      /\ exists id cb p due,
          timers s !! id = Some (Interval cb p due) /\ due <= t).
Proof.
  intros HInv H.
  destruct ev as [id mounted context|id|reply|reply| |audioAvailable|settled|value].
  - destruct (tick_view _ _ _ _ _ _ _ _ HInv H) as (_ & _ & _ & [?|[? ?]]);
      [by left|right].
    destruct (tick_fired _ _ _ _ _ _ H) as (cb & p & due & ? & ?).
    split_and!; try done. by exists id, cb, p, due.
  - left. by destruct (cooldown_fired _ _ _ _ _ _ HInv H) as (_ & _ & _ & _ & ? & _).
  - left. by destruct (analyze_settled _ _ _ _ _ _ HInv H) as (_ & _ & _ & ? & _).
  - left. destruct (speech_settled _ _ _ _ _ _ HInv H) as (_ & _ & ? & _);
      [right; by eexists|done].
  - left. destruct (speech_settled _ _ _ _ _ _ HInv H) as (_ & _ & ? & _);
      [by left|done].
  - left. by destruct (ui_event_view _ _ _ _ _ _ HInv H I) as (_ & _ & _ & ? & _).
  - left. by destruct (ui_event_view _ _ _ _ _ _ HInv H I) as (_ & _ & _ & ? & _).
  - left. by destruct (ui_event_view _ _ _ _ _ _ HInv H I) as (_ & _ & _ & ? & _).
Qed.

Lemma step_pacing s t ev s' :
  Inv s -> intervalInRange s ->
  pacingOk s -> spaced MIN_ANALYSIS_INTERVAL_MS (frames s) ->
  step unicodeUpper ai s t ev = Some s' ->
  pacingOk s' /\ spaced MIN_ANALYSIS_INTERVAL_MS (frames s').
Proof.
  intros HInv Hrange [Hpast Hdue] Hsp H.
  pose proof (step_Inv _ _ _ _ _ _ HInv H) as (_ & Hivl' & _).
  pose proof (step_intervalInRange _ _ _ _ _ _ Hrange H) as Hrange'.
  destruct (step_effects _ _ _ _ _ _ HInv H) as (Ht & Hclk & _).
  unfold pacingOk, intervalInRange, MIN_ANALYSIS_INTERVAL_MS in *.
  assert (Hpast' : Forall (fun f => f <= t) (frames s))
    by (eapply Forall_impl; [exact Hpast|]; cbn; intros; lia).
  destruct (step_frames _ _ _ _ HInv H)
    as [Hfr|(Hfr & _ & id0 & cb0 & p0 & due0 & Hl0 & Hle0)]; rewrite Hfr, Hclk.
  - split_and!; try done. intros id cb p due Hl.
    destruct (interval_at_ref _ _ _ _ _ Hivl' Hl) as (_ & _ & _ & _ & Hp).
    destruct (step_interval_due _ _ _ _ _ _ _ _ HInv H Hl) as [[Hold _]| ->].
    + by eapply Hdue.
    + eapply Forall_impl; [exact Hpast'|]. cbn. intros; lia.
  - assert (Hgap : Forall (fun f => f + 2000 <= t) (frames s)).
    { eapply Forall_impl; [exact (Hdue _ _ _ _ Hl0)|]. cbn. intros; lia. }
    split_and!.
    + constructor; [lia|done].
    + intros id cb p due Hl.
      destruct (interval_at_ref _ _ _ _ _ Hivl' Hl) as (_ & _ & _ & _ & Hp).
      destruct (step_interval_due _ _ _ _ _ _ _ _ HInv H Hl) as [[_ Hsame]| ->].
      * rewrite Hfr in Hsame. apply (f_equal length) in Hsame. cbn in Hsame. lia.
      * constructor; [lia|]. eapply Forall_impl; [exact Hpast'|]. cbn. intros; lia.
    + by cbn.
Qed.

Lemma reachable_pacing trace : forall s s',
  Inv s -> intervalInRange s ->
  pacingOk s -> spaced MIN_ANALYSIS_INTERVAL_MS (frames s) ->
  run unicodeUpper ai s trace = Some s' ->
  pacingOk s' /\ spaced MIN_ANALYSIS_INTERVAL_MS (frames s').
Proof.
  induction trace as [|[t ev] trace IH]; intros s s' HInv Hrange Hp Hsp Hrun;
    cbn in Hrun.
  - by simplify_eq.
  - destruct (step unicodeUpper ai s t ev) as [s1|] eqn:E; [|done]. cbn in Hrun.
    destruct (step_pacing _ _ _ _ HInv Hrange Hp Hsp E) as [Hp1 Hsp1].
    eapply IH; [| | | |exact Hrun]; try done;
      [by eapply step_Inv|by eapply step_intervalInRange].
Qed.

Lemma spaced_lookup (gap : Z) (times : list Z) :
  spaced gap times ->
  forall i j later earlier,
    (i < j)%nat -> times !! i = Some later -> times !! j = Some earlier ->
    earlier + gap <= later.
Proof.
  induction times as [|f times IH]; intros Hs i j later earlier Hij Hi Hj;
    [done|]. destruct Hs as [Hall Hsp].
  destruct i as [|i], j as [|j]; try lia; cbn in Hi, Hj.
  - injection Hi as <-. by eapply Forall_lookup_1 in Hall.
  - eapply (IH Hsp i j); [lia|done..].
Qed.

End Pacing.
End PacingFacts.

(** ** Along a run *)

Module StepFacts.
Import JS Audio GeminiService PcmSpec App AppInvariants AppFacts AppSteps.
Import AppResources ResourceFacts PacingFacts.

Section Runs.

Variable unicodeUpper : N -> list N.
Variable ai : GoogleGenAI.

(** The audio context, once made, is kept. *)
Lemma handle_audioContext ev x a ctx :
  handle unicodeUpper ai ev x = Some a ->
  audioContextRef x = Some ctx -> audioContextRef a = Some ctx.
Proof.
  intros Ha Hctx.
  destruct ev as [id0 mounted context|id0|reply|reply| |audioAvailable|settled|value];
    cbn in Ha.
  - destruct (timers x !! id0) as [[cb0 p0 due0|]|]; try done.
    case_decide; [|done]. injection Ha as <-. unfold runAnalysis, suspend.
    destruct mounted, context, (loading cb0 || speaking cb0 || onCooldown cb0);
      by destruct_state x.
  - destruct (timers x !! id0) as [[cb0 p0 due0|due0]|]; try done.
    case_decide; [|done]. injection Ha as <-. by destruct_state x.
  - destruct (resume analyzing (analyses x)) as [[closure rest]|]; [|done].
    cbn in Ha. injection Ha as <-. unfold afterAnalyzeFrame, suspend.
    destruct (analyzeFrame ai reply) as [result|e];
      [destruct (isDetected unicodeUpper result)|]; destruct closure as [? ? []];
      destruct_state x; by cbn in *.
  - destruct (resume synthesizing (analyses x)) as [[text rest]|]; [|done].
    assert (a = afterTextToSpeech (textToSpeech ai reply) (set_analyses rest x)) as ->
      by (cbn in Ha; injection Ha as <-; reflexivity).
    unfold afterTextToSpeech.
    destruct (textToSpeech ai reply) as [audioData|e].
    + destruct (playAudio_cases audioData (set_analyses rest x))
        as [(_ & E)|[(_ & E)|(audioBuffer & _ & _ & E)]]; rewrite E;
        destruct_state x; by cbn in *.
    + destruct_state x; by cbn in *.
  - destruct (resume playing (analyses x)) as [[u rest]|]; [|done].
    cbn in Ha. injection Ha as <-. destruct_state x; by cbn in *.
  - injection Ha as <-. unfold handleToggleCamera, stopCamera, clearInterval.
    destruct_state x; cbn in *. subst actx.
    destruct cam; cbn; [|done].
    destruct (truthyId ref); cbn; by destruct sref.
  - destruct (toggles x) as [|n]; [done|]. injection Ha as <-.
    destruct settled; destruct_state x; by cbn in *.
  - destruct (isCameraOn x && sliderValue value); [|done]. injection Ha as <-.
    destruct_state x. by cbn in *.
Qed.

Lemma run_audioContext trace : forall s s' ctx,
  run unicodeUpper ai s trace = Some s' ->
  audioContextRef s = Some ctx -> audioContextRef s' = Some ctx.
Proof.
  induction trace as [|[t ev] trace IH]; intros s s' ctx Hrun Hctx; cbn in Hrun.
  - by simplify_eq.
  - destruct (step unicodeUpper ai s t ev) as [s1|] eqn:E; [|done]. cbn in Hrun.
    eapply IH; [exact Hrun|].
    apply step_inv in E as (_ & a & Ha & ->).
    destruct (commit_fields s a) as (_ & _ & _ & _ & _ & _ & _ & _ & _ & -> & _).
    eapply handle_audioContext; [exact Ha|]. by destruct_state s.
Qed.

(** The stored interval is a value of the slider. *)
Lemma run_sliderValue trace : forall s s',
  sliderValue (analysisInterval s) = true ->
  run unicodeUpper ai s trace = Some s' ->
  sliderValue (analysisInterval s') = true.
Proof.
  induction trace as [|[t ev] trace IH]; intros s s' Hs Hrun; cbn in Hrun.
  - by simplify_eq.
  - destruct (step unicodeUpper ai s t ev) as [s1|] eqn:E; [|done]. cbn in Hrun.
    eapply IH; [|exact Hrun].
    apply step_inv in E as (_ & a & Ha & ->).
    destruct (commit_analysisInterval s a) as [-> _].
    destruct (handle_analysisInterval _ _ _ _ _ Ha) as [->|(v & _ & ? & ->)];
      [by destruct_state s|done].
Qed.

Lemma reachable_all trace s :
  run unicodeUpper ai initial trace = Some s ->
  Inv s /\ Resources s /\ intervalInRange s
  /\ pacingOk s /\ spaced MIN_ANALYSIS_INTERVAL_MS (frames s).
Proof.
  intros Hrun.
  assert (Hrange : intervalInRange initial).
  { unfold intervalInRange. cbn. unfold DEFAULT_ANALYSIS_INTERVAL_MS. lia. }
  destruct (reachable_resources unicodeUpper ai _ _ _ initial_Inv
              initial_resources Hrun) as [HInv HR].
  destruct (reachable_pacing unicodeUpper ai trace initial s initial_Inv Hrange)
    as [Hp Hsp]; try done.
  split_and!; try done. by eapply reachable_intervalInRange.
Qed.

End Runs.
End StepFacts.

(** ** Further properties of the audio helpers *)

Section AudioProperties.
Import Base64Spec Base64Facts ChannelFacts App.

(** X1 -- Base64 round trip.  [decode] inverts the standard base64
    encoding: for every byte sequence, decoding its padded encoding gives
    the bytes back, in order and in number. *)
Theorem decode_base64_round_trip (bytes : list byte) :
  decode (base64_encode bytes) = Ok bytes.
Proof. apply decode_bytes, atob_encode. Qed.

(** X2 -- De-interleaving.  For every channel count from 1 to 32
    (what every audio context supports) that does not exceed the number
    of 16-bit samples, every supported rate and every buffer of even
    length, [decodeAudioData] returns a buffer of that many channels of
    [samples / channels] frames each, and frame [i] of channel [c] is the
    little-endian 16-bit sample number [i * channels + c] of the input,
    divided by 32768: no element is left zero or stored as NaN. *)
Theorem decodeAudioData_deinterleaves (data : list byte) (ctx : AudioContext)
    (rate : Z) (numChannels : nat) :
  Nat.even (length data) = true ->
  (1 <= numChannels <= 32)%nat -> (numChannels <= length data / 2)%nat ->
  supportedSampleRate rate = true ->
  exists buffer,
    decodeAudioData data ctx rate numChannels = Ok buffer
    /\ numberOfChannels buffer = numChannels
    /\ bufLength buffer = (length data / 2 / numChannels)%nat
    /\ sampleRate buffer = rate
    /\ length (channels buffer) = numChannels
    /\ forall channel channelData,
        channels buffer !! channel = Some channelData ->
        length channelData = bufLength buffer
        /\ forall i, (i < bufLength buffer)%nat ->
            exists lo hi,
              data !! (2 * (i * numChannels + channel))%nat = Some lo
              /\ data !! (2 * (i * numChannels + channel) + 1)%nat = Some hi
              /\ channelData !! i
                 = Some (Num (inject_Z (int16_of_bytes lo hi) / 32768)).
Proof.
  intros Hev [Hnc _] Hle Hrate. eexists.
  split; [by apply decodeAudioData_general|].
  cbn [numberOfChannels bufLength sampleRate channels].
  split_and!; try done.
  { by rewrite length_map, length_seq. }
  intros channel channelData Hch.
  apply list_lookup_fmap_Some in Hch as (c & -> & Hc).
  apply lookup_seq in Hc as [-> Hc]. cbn [Nat.add] in *.
  split; [by rewrite length_map, length_seq|].
  intros i Hi.
  assert (Hk : (i * numChannels + channel < length data / 2)%nat).
  { pose proof (Nat.Div0.mul_div_le (length data / 2) numChannels). nia. }
  destruct (int16_elements_bytes data _ Hk) as (lo & hi & Hlo & Hhi & Hx).
  exists lo, hi. split_and!; try done.
  rewrite list_lookup_fmap, lookup_seq_lt by done. cbn.
  unfold pcm_sample. by rewrite Hx.
Qed.

(** Two stereo frames: left 0.5 and -1.0, right -0.5 and 0. *)
Lemma decodeAudioData_deinterleaves_witness :
  exists buffer,
    decodeAudioData [x00; x40; x00; xc0; x00; x80; x00; x00]
                    (mkAudioContext 48000) 48000 2 = Ok buffer
    /\ numberOfChannels buffer = 2%nat /\ bufLength buffer = 2%nat
    /\ length (channels buffer) = 2%nat.
Proof.
  destruct (decodeAudioData_deinterleaves
              [x00; x40; x00; xc0; x00; x80; x00; x00]
              (mkAudioContext 48000) 48000 2)
    as (buffer & Hbuf & Hn & Hl & _ & Hc & _);
    [reflexivity|lia|cbn; lia|reflexivity|].
  by exists buffer.
Defined.

(** X3 -- When [decodeAudioData] fails.  For a supported rate and at
    most 32 channels it returns a buffer only for an even number of bytes
    that hold at least one sample per channel, with at least one channel.
    Otherwise it throws: a RangeError for an odd number of bytes, and else
    a NotSupportedError (no channel, or fewer samples than channels, an
    empty payload among them). *)
Theorem decodeAudioData_outcomes (data : list byte) (ctx : AudioContext)
    (rate : Z) (numChannels : nat) :
  (numChannels <= 32)%nat -> supportedSampleRate rate = true ->
  match decodeAudioData data ctx rate numChannels with
  | Ok buffer =>
      Nat.even (length data) = true
      /\ (1 <= numChannels <= length data / 2)%nat
  | Throw e =>
      (e = RangeError /\ Nat.even (length data) = false)
      \/ (e = NotSupportedError /\ Nat.even (length data) = true
          /\ (numChannels = 0%nat \/ (length data / 2 < numChannels)%nat))
  end.
Proof.
  intros _ Hrate.
  pose proof (decodeAudioData_cases data ctx rate numChannels) as H.
  destruct (decodeAudioData data ctx rate numChannels) as [buffer|e].
  - by destruct H as (? & ? & _).
  - destruct H as [?|(? & ? & [?|[?|?]])]; [by left|right..|congruence]; by auto.
Qed.

(** The empty payload at the call site of [playAudio]. *)
Lemma decodeAudioData_outcomes_witness :
  decodeAudioData [] (mkAudioContext 24000) PLAYBACK_SAMPLE_RATE PLAYBACK_CHANNELS
  = Throw NotSupportedError.
Proof.
  pose proof (decodeAudioData_outcomes [] (mkAudioContext 24000)
                PLAYBACK_SAMPLE_RATE PLAYBACK_CHANNELS) as H.
  destruct (decodeAudioData [] (mkAudioContext 24000) PLAYBACK_SAMPLE_RATE
              PLAYBACK_CHANNELS) as [buffer|e].
  - destruct H as (_ & _ & Hlen); [unfold PLAYBACK_CHANNELS; lia|reflexivity|].
    cbn in Hlen. unfold PLAYBACK_CHANNELS in Hlen. lia.
  - destruct H as [[_ Hodd]|[-> _]];
      [unfold PLAYBACK_CHANNELS; lia|reflexivity|discriminate Hodd|reflexivity].
Defined.

(** X4 -- The played samples.  With an audio context in place,
    [playAudio] on the base64 encoding of a non-empty sequence of 16-bit
    little-endian samples hands [source.start()] one mono buffer at 24000
    Hz that holds exactly those samples, each divided by 32768, sets no
    error and is left waiting for the end of playback. *)
Theorem playAudio_round_trip (samples : list Z) (ctx : AudioContext) (s : State) :
  audioContextRef s = Some ctx ->
  samples <> [] -> Forall is_int16 samples ->
  playAudio (base64_encode (samples ≫= pcm16_encode)) s
  = (set_played ({| numberOfChannels := 1;
                    bufLength := length samples;
                    sampleRate := 24000;
                    channels := [map (fun x => Num (inject_Z x / 32768)) samples] |}
                   :: played s) s,
     true).
Proof.
  intros Hctx Hne Hall.
  assert (Hlen : length (samples ≫= pcm16_encode) = (2 * length samples)%nat).
  { clear. induction samples as [|x samples IH]; [done|].
    cbn [mbind list_bind]. change (list_bind _ _ pcm16_encode samples)
      with (samples ≫= pcm16_encode).
    rewrite length_app, IH. cbn. lia. }
  rewrite (AppSteps.playAudio_plays _ (samples ≫= pcm16_encode) ctx).
  - rewrite int16_elements_encode by done. rewrite Hlen.
    replace (2 * length samples)%nat with (length samples * 2)%nat by lia.
    by rewrite Nat.div_mul.
  - done.
  - apply atob_encode.
  - intros E. rewrite E in Hlen. destruct samples; [done|]. cbn in Hlen. lia.
  - rewrite Hlen. apply Nat.even_spec. by exists (length samples).
Qed.

Lemma playAudio_round_trip_witness :
  exists st,
    playAudio (js "AED//wCA")
              (set_audioContextRef (Some (mkAudioContext 24000)) initial)
    = (st, true)
    /\ map channels (played st)
       = [[[Num (inject_Z 16384 / 32768); Num (inject_Z (-1) / 32768);
            Num (inject_Z (-32768) / 32768)]]].
Proof.
  eexists. split.
  - apply (playAudio_round_trip [16384; -1; -32768] (mkAudioContext 24000)
             (set_audioContextRef (Some (mkAudioContext 24000)) initial)).
    + reflexivity.
    + discriminate.
    + repeat constructor; unfold is_int16; lia.
  - reflexivity.
Defined.

End AudioProperties.

(** ** Further properties of the remote clients *)

Section ServiceProperties.
Import TrimFacts.

(** X5 -- The analysis text is trimmed.  Whenever [analyzeFrame]
    returns, the reply carried a text, and what is returned is that text
    without a leading and a trailing run of white space: it neither
    starts nor ends with a white-space character, and trimming it again
    changes nothing. *)
Theorem analyzeFrame_result_trimmed (ai : GoogleGenAI)
    (reply : Result (option jsstring)) (result : jsstring) :
  analyzeFrame ai reply = Ok result ->
  exists text leading trailing,
    reply = Ok (Some text)
    /\ text = leading ++ result ++ trailing
    /\ Forall (fun c => isWhiteSpace c = true) leading
    /\ Forall (fun c => isWhiteSpace c = true) trailing
    /\ (forall c, head result = Some c \/ last result = Some c ->
                  isWhiteSpace c = false)
    /\ trim result = result.
Proof.
  unfold analyzeFrame, try_catch. intros H.
  destruct reply as [[text|]|e]; cbn in H;
    try discriminate H; try (destruct (instanceofError _); discriminate H).
  injection H as <-.
  destruct (trimStart_suffix text) as (leading & Hl & Hlead).
  destruct (trimEnd_prefix (trimStart text)) as (trailing & Ht & Htrail).
  exists text, leading, trailing. split_and!; try done.
  - rewrite Hl at 1. f_equal. exact Ht.
  - apply trim_ends.
  - apply trim_idempotent.
Qed.

Lemma analyzeFrame_result_trimmed_witness :
  exists leading trailing,
    js "  Shalom, world " = leading ++ js "Shalom, world" ++ trailing
    /\ trim (js "Shalom, world") = js "Shalom, world".
Proof.
  destruct (analyzeFrame_result_trimmed {| apiKey := "key" |}
              (Ok (Some (js "  Shalom, world "))) (js "Shalom, world") eq_refl)
    as (text & leading & trailing & [= <-] & Htext & _ & _ & _ & Hfix).
  by exists leading, trailing.
Defined.

(** X6 -- What [textToSpeech] returns and throws.  A payload is
    returned only when the reply carried a non-empty one, and it is
    returned unchanged.  Every failure is thrown as an [Error]: a reply
    without audio data as "TTS Error: No audio data received from TTS
    API." (the error of line 60 is caught by the function's own catch and
    wrapped), a failed call as "TTS Error: " followed by its message, and
    a thrown value that is no [Error] as the fixed unknown-error text. *)
Theorem textToSpeech_outcomes (ai : GoogleGenAI) (reply : Result (option jsstring)) :
  match textToSpeech ai reply with
  | Ok base64Audio => reply = Ok (Some base64Audio) /\ base64Audio <> []
  | Throw e =>
      instanceofError e = true
      /\ e = Error
               match reply with
               | Throw err =>
                   if instanceofError err
                   then js "TTS Error: " ++ exn_message err
                   else js "An unknown error occurred during text-to-speech conversion."
               | Ok _ => js "TTS Error: No audio data received from TTS API."
               end
  end.
Proof.
  unfold textToSpeech, try_catch.
  destruct reply as [[[|c audio]|]|err]; cbn; try done.
  by destruct (instanceofError err).
Qed.

End ServiceProperties.

(** ** Further properties of the [App] component *)

Section AppProperties.
Import App AppInvariants AppFacts AppSteps.
Import AppResources ResourceFacts PacingFacts StepFacts.

Variable unicodeUpper : N -> list N.
Variable ai : GoogleGenAI.

(** X7 -- The audio context is there when it is needed.  In every
    state the program can reach in which the camera is on, a camera
    request or a [runAnalysis] call is pending, or the cooldown flag is
    up, the audio context of line 160 exists, at 24000 Hz; and whatever
    happens afterwards, it is still that context: it is never closed or
    replaced.  So the early return of [playAudio] (lines 77-80) is never
    taken once a greeting is to be spoken. *)
Theorem audio_context_ready (trace : list (Z * Event)) (s : State) :
  run unicodeUpper ai initial trace = Some s ->
  isCameraOn s = true \/ analyses s <> [] \/ (0 < toggles s)%nat
    \/ isOnCooldown s = true ->
  audioContextRef s = Some (mkAudioContext PLAYBACK_SAMPLE_RATE)
  /\ (forall rest s2,
        run unicodeUpper ai s rest = Some s2 ->
        audioContextRef s2 = Some (mkAudioContext PLAYBACK_SAMPLE_RATE))
  /\ forall base64Audio st,
      playAudio base64Audio s = (st, false) -> error st = Some ErrPlayback.
Proof.
  intros Hrun Hbusy.
  destruct (reachable_all _ _ _ _ Hrun) as (_ & (_ & Hau & _) & _).
  assert (Hctx : audioContextRef s = Some (mkAudioContext PLAYBACK_SAMPLE_RATE)).
  { unfold audioOk in Hau. destruct (audioContextRef s) as [ctx|]; [by subst|].
    destruct Hau as (Htg & Hcam & Han & Hcd).
    destruct Hbusy as [?|[?|[?|?]]]; [congruence|done|lia|congruence]. }
  split_and!; [done| |].
  - intros rest s2 Hrest. by eapply run_audioContext.
  - intros base64Audio st E.
    destruct (playAudio_cases base64Audio s)
      as [(Hn & _)|[(_ & E')|(audioBuffer & _ & _ & E')]]; [congruence| |];
      rewrite E' in E; [|done]. injection E as <-. by destruct_state s.
Qed.

(** X8 -- What has been played.  In every state the program can
    reach, each buffer that was handed to an audio source is mono, at
    24000 Hz, holds at least one frame, and every sample of it is a
    16-bit integer divided by 32768 (never NaN, never outside [-1, 1));
    and no more buffers were played than frames were captured: a captured
    frame leads to at most one greeting. *)
Theorem played_buffers_playable (trace : list (Z * Event)) (s : State) :
  run unicodeUpper ai initial trace = Some s ->
  Forall playable (played s)
  /\ (length (played s) <= length (frames s))%nat.
Proof.
  intros Hrun.
  destruct (reachable_all _ _ _ _ Hrun) as (_ & (_ & _ & Hpl & Hcnt) & _).
  split; [done|lia].
Qed.

(** X9 -- The stream and the camera flag.  In every state the program
    can reach, the stream the video element is given is the one the ref
    holds, so that [stopCamera] stops the tracks of the stream on
    display; and while the camera is on there is such a stream. *)
Theorem stream_follows_camera (trace : list (Z * Event)) (s : State) :
  run unicodeUpper ai initial trace = Some s ->
  stream s = streamRef s
  /\ (isCameraOn s = true -> exists mediaStream, streamRef s = Some mediaStream).
Proof.
  intros Hrun.
  destruct (reachable_all _ _ _ _ Hrun) as (_ & ([Heq Hon] & _) & _).
  split; [done|]. intros Hcam. specialize (Hon Hcam). rewrite Heq in Hon.
  destruct (streamRef s) as [mediaStream|]; [by exists mediaStream|done].
Qed.

(** X10 -- No timer leaks, no stale callback.  In every state the
    program can reach: with the camera on exactly one interval timer is
    registered, the one the ref names, its period is the current sampling
    interval and its callback is the [runAnalysis] of the current render;
    with the camera off no interval timer is registered and the ref is
    empty; and at most one timeout is pending, and only while the cooldown
    flag is up and nothing is being spoken. *)
Theorem timers_never_leak (trace : list (Z * Event)) (s : State) :
  run unicodeUpper ai initial trace = Some s ->
  (if isCameraOn s
   then exists id due,
          analysisIntervalRef s = Some id
          /\ timers s !! id = Some (Interval (flags s) (analysisInterval s) due)
   else analysisIntervalRef s = None)
  /\ (forall id cb p due,
        timers s !! id = Some (Interval cb p due) ->
        isCameraOn s = true /\ analysisIntervalRef s = Some id
        /\ cb = flags s /\ p = analysisInterval s)
  /\ (forall id d,
        timers s !! id = Some (Timeout d) ->
        isOnCooldown s = true /\ isSpeaking s = false /\ analyses s = []
        /\ forall id' d', timers s !! id' = Some (Timeout d') -> id' = id).
Proof.
  intros Hrun.
  destruct (reachable_all _ _ _ _ Hrun) as ((_ & Hivl & Hcyc) & _).
  split_and!.
  - destruct Hivl as [Href _].
    destruct (analysisIntervalRef s) as [id|].
    + destruct Href as (-> & _ & due & Hdue). by exists id, due.
    + by rewrite Href.
  - intros id cb p due Hl.
    by destruct (interval_at_ref _ _ _ _ _ Hivl Hl) as (? & ? & _ & ? & ?).
  - intros id d Hl.
    destruct (timeout_cooldown _ _ _ Hcyc Hl) as (Han & Hfl & id0 & d0 & _ & Huniq).
    unfold flags in Hfl. injection Hfl as _ Hsp Hcd. split_and!; try done.
    intros id' d' Hl'. rewrite (Huniq _ _ Hl), (Huniq _ _ Hl'). done.
Qed.

(** X11 -- The flags say what is pending.  In every state the program
    can reach: isLoading is up exactly while an [analyzeFrame] call is
    pending, isSpeaking exactly while a [textToSpeech] call is pending or
    a buffer is playing; isSpeaking is never up without isOnCooldown, nor
    isLoading together with another flag; and isOnCooldown is up without
    isSpeaking exactly while the cooldown timeout that lowers it is
    pending. *)
Theorem flags_track_cycle (trace : list (Z * Event)) (s : State) :
  run unicodeUpper ai initial trace = Some s ->
  (isLoading s = true <-> exists closure, analyses s = [AwaitAnalyzeFrame closure])
  /\ (isSpeaking s = true
      <-> (exists text, analyses s = [AwaitTextToSpeech text])
          \/ analyses s = [AwaitEnded])
  /\ (isSpeaking s = true -> isOnCooldown s = true)
  /\ (isLoading s = true -> isSpeaking s = false /\ isOnCooldown s = false)
  /\ (isOnCooldown s = true /\ isSpeaking s = false
      <-> exists id d, timers s !! id = Some (Timeout d)).
Proof.
  intros Hrun.
  destruct (reachable_all _ _ _ _ Hrun) as ((_ & _ & Hcyc) & _).
  assert (Hto : forall id d, timers s !! id = Some (Timeout d) ->
                  isOnCooldown s = true /\ isSpeaking s = false).
  { intros id d Hl. destruct (timeout_cooldown _ _ _ Hcyc Hl) as (_ & Hfl & _).
    unfold flags in Hfl. by injection Hfl as _ -> ->. }
  unfold cycleOk, flags in Hcyc.
  destruct (analyses s) as [|[closure|text|] [|call rest]]; try done.
  - destruct Hcyc as (Hl & Hsp & Hcd). rewrite Hl, Hsp.
    split_and!; try done.
    + split; [done|]. by intros [? ?].
    + split; [done|]. by intros [[? ?]|?].
    + split; [|intros (id & d & Hid); by destruct (Hto _ _ Hid)].
      intros [Hc _]. rewrite Hc in Hcd. destruct Hcd as (id & d & Hid & _).
      by exists id, d.
  - destruct Hcyc as ([= Hl Hsp Hcd] & _ & Hno). rewrite Hl, Hsp, Hcd.
    split_and!; try done.
    + split; [by exists closure|done].
    + split; [done|]. by intros [[? ?]|?].
    + split; [by intros [? _]|]. intros (id & d & Hid). by apply Hno in Hid.
  - destruct Hcyc as ([= Hl Hsp Hcd] & Hno). rewrite Hl, Hsp, Hcd.
    split_and!; try done.
    + split; [done|]. by intros [? ?].
    + split; [left; by exists text|done].
    + split; [by intros [_ ?]|]. intros (id & d & Hid). by apply Hno in Hid.
  - destruct Hcyc as ([= Hl Hsp Hcd] & Hno). rewrite Hl, Hsp, Hcd.
    split_and!; try done.
    + split; [done|]. by intros [? ?].
    + split; [by right|done].
    + split; [by intros [_ ?]|]. intros (id & d & Hid). by apply Hno in Hid.
Qed.

(** X12 -- Captures are paced.  In every state the program can reach,
    whatever the slider was set to and however often the camera was
    switched: any two captured frames are at least 2000 ms apart, the
    least value of the slider, the later one first in the list; and no
    frame is dated after the current time. *)
Theorem captures_paced (trace : list (Z * Event)) (s : State) :
  run unicodeUpper ai initial trace = Some s ->
  (forall i j later earlier,
     (i < j)%nat -> frames s !! i = Some later -> frames s !! j = Some earlier ->
     earlier + MIN_ANALYSIS_INTERVAL_MS <= later)
  /\ Forall (fun f => f <= clock s) (frames s).
Proof.
  intros Hrun.
  destruct (reachable_all _ _ _ _ Hrun) as (_ & _ & _ & [Hpast _] & Hsp).
  split; [by apply spaced_lookup|done].
Qed.

(** X13 -- The sampling interval is a slider value.  In every state
    the program can reach, the stored interval is between 2000 and 20000
    ms and a multiple of 1000: the default of [constants.ts] is such a
    value, and only the slider changes it. *)
Theorem interval_on_slider_grid (trace : list (Z * Event)) (s : State) :
  run unicodeUpper ai initial trace = Some s ->
  sliderValue (analysisInterval s) = true
  /\ 2000 <= analysisInterval s <= 20000
  /\ analysisInterval s mod 1000 = 0.
Proof.
  intros Hrun.
  assert (H : sliderValue (analysisInterval s) = true)
    by (by eapply run_sliderValue; [|exact Hrun]).
  split; [done|]. unfold sliderValue in H.
  apply andb_true_iff in H as [H H3]. apply andb_true_iff in H as [H1 H2].
  lia.
Qed.

(** X14 -- The analysis error that is shown.  When the analysis call
    settles and [analyzeFrame] throws, what it throws is an [Error], so
    the message put on display is that error's own message: the message
    of the failed request, the engine's TypeError message when the reply
    carries no text, or the service's unknown-error text when the thrown
    value was no [Error]; the fallback text of line 145 is never used.
    When [analyzeFrame] returns, the error on display is left as it is. *)
Theorem analysis_error_surfaced (trace : list (Z * Event)) (s s' : State)
    (t : Z) (reply : Result (option jsstring)) :
  run unicodeUpper ai initial trace = Some s ->
  step unicodeUpper ai s t (AnalyzeFrameSettled reply) = Some s' ->
  match analyzeFrame ai reply with
  | Ok _ => error s' = error s
  | Throw e =>
      instanceofError e = true
      /\ error s' = Some (ErrAnalysis (exn_message e))
      /\ exn_message e
         = match reply with
           | Throw err =>
               if instanceofError err then exn_message err
               else js "An unknown error occurred during analysis."
           | Ok _ => exn_message TypeError
           end
  end.
Proof.
  intros Hrun Hstep.
  destruct (reachable_all _ _ _ _ Hrun) as (HInv & _).
  destruct (analyze_settled _ _ _ _ _ _ HInv Hstep) as (_ & _ & _ & _ & _ & _ & _ & H).
  revert H. unfold analyzeFrame, try_catch.
  destruct reply as [[text|]|err]; cbn.
  - by intros [? _].
  - by intros (_ & _ & _ & ?).
  - destruct (instanceofError err); cbn; by intros (_ & _ & _ & ?).
Qed.

(** X15 -- How the speech stage can fail.  When the speech call
    settles: if [textToSpeech] throws, nothing is played and no error is
    put on display (the failure is only logged); if it returns a payload
    that [decode] or [decodeAudioData] rejects, nothing is played and the
    playback error is put on display; in both cases the cooldown starts
    at once.  Otherwise the decoded buffer is played, no error is set and
    the call waits for the end of playback. *)
Theorem speech_failure_handling (trace : list (Z * Event)) (s s' : State)
    (t : Z) (reply : Result (option jsstring)) :
  run unicodeUpper ai initial trace = Some s ->
  step unicodeUpper ai s t (TextToSpeechSettled reply) = Some s' ->
  match textToSpeech ai reply with
  | Throw e => error s' = error s /\ played s' = played s /\ enteredCooldown t s'
  | Ok audioData =>
      match data ← decode audioData;
            decodeAudioData data (mkAudioContext PLAYBACK_SAMPLE_RATE)
                            PLAYBACK_SAMPLE_RATE PLAYBACK_CHANNELS with
      | Throw e =>
          error s' = Some ErrPlayback /\ played s' = played s
          /\ enteredCooldown t s'
      | Ok audioBuffer =>
          error s' = error s /\ played s' = audioBuffer :: played s
          /\ analyses s' = [AwaitEnded] /\ isSpeaking s' = true
      end
  end.
Proof.
  intros Hrun Hstep.
  destruct (reachable_all _ _ _ _ Hrun) as (HInv & (_ & Hau & _) & _).
  pose proof HInv as (_ & _ & Hcyc).
  destruct (speech_settled _ _ _ _ _ _ HInv Hstep) as (_ & _ & _ & _ & _ & Hend);
    [right; by eexists|].
  apply step_inv in Hstep as (_ & a & Ha & ->).
  destruct (commit_fields s a) as (Hfl & _ & Han & _ & Hpl & Herr & _).
  rewrite Hpl, Herr, Han in *. unfold flags in Hfl.
  assert (Hsp : isSpeaking (commit s a) = isSpeaking a) by congruence.
  rewrite Hsp. clear Hfl Hsp.
  cbn in Ha.
  destruct (resume synthesizing (analyses s)) as [[text rest]|] eqn:Eres; [|done].
  destruct (resume_synthesizing s text rest Hcyc Eres) as (Hans & -> & Hfl0 & _).
  unfold flags in Hfl0. injection Hfl0 as _ Hsp0 _.
  assert (Hctx : audioContextRef s = Some (mkAudioContext PLAYBACK_SAMPLE_RATE)).
  { unfold audioOk in Hau. destruct (audioContextRef s); [by subst|].
    destruct Hau as (_ & _ & ? & _). congruence. }
  assert (a = afterTextToSpeech (textToSpeech ai reply)
                (set_analyses [] (set_clock t s))) as ->
    by (cbn in Ha; injection Ha as <-; reflexivity).
  unfold afterTextToSpeech, playAudio in *.
  change (audioContextRef (set_analyses [] (set_clock t s)))
    with (audioContextRef s) in *. rewrite Hctx in *.
  destruct (textToSpeech ai reply) as [audioData|e].
  - destruct (decode audioData ≫= _) as [audioBuffer|e].
    + destruct_state s. by cbn in *.
    + split_and!; [by destruct_state s..|].
      destruct Hend as [?|(? & ? & ? & _ & _ & Hae & _)]; [done|].
      destruct_state s. by cbn in Hae.
  - split_and!; [by destruct_state s..|].
    destruct Hend as [?|(? & ? & ? & _ & _ & Hae & _)]; [done|].
    destruct_state s. by cbn in Hae.
Qed.

(** X16 -- When the camera cannot be turned on.  If [getUserMedia]
    fails, the camera flag is down and the camera error is on display, no
    interval timer is registered and no tick can fire; the cycle in
    flight, the frames and the stream ref are as before.  If no audio
    context can be made (line 160 throws), the same error is shown and no
    camera request is made at all. *)
Theorem camera_request_failures (trace : list (Z * Event)) (s : State) (t : Z) :
  run unicodeUpper ai initial trace = Some s ->
  (forall e s',
     step unicodeUpper ai s t (GetUserMediaSettled (Throw e)) = Some s' ->
     isCameraOn s' = false /\ error s' = Some ErrCamera
     /\ analysisIntervalRef s' = None
     /\ (forall id cb p due, timers s' !! id <> Some (Interval cb p due))
     /\ (forall t' id mounted context,
           step unicodeUpper ai s' t' (Tick id mounted context) = None)
     /\ toggles s = S (toggles s')
     /\ streamRef s' = streamRef s /\ flags s' = flags s
     /\ analyses s' = analyses s /\ frames s' = frames s)
  /\ (forall s',
        isCameraOn s = false -> audioContextRef s = None ->
        step unicodeUpper ai s t (ToggleClicked false) = Some s' ->
        isCameraOn s' = false /\ error s' = Some ErrCamera
        /\ toggles s' = toggles s /\ audioContextRef s' = None
        /\ timers s' = timers s).
Proof.
  intros Hrun.
  destruct (reachable_all _ _ _ _ Hrun) as (HInv & _). split.
  - intros e s' Hstep.
    pose proof (step_Inv _ _ _ _ _ _ HInv Hstep) as (_ & [Href' Hi'] & _).
    destruct (ui_event_view _ _ _ _ _ _ HInv Hstep I) as (_ & Hfl & Han & Hfr & _).
    apply step_inv in Hstep as (_ & a & Ha & ->).
    destruct (commit_fields s a) as (_ & Hcam & _ & _ & _ & Herr & _ & _ & Hsr & _ & Htg).
    cbn in Ha. destruct (toggles s) as [|n] eqn:Etg; [done|].
    assert (Ea : isCameraOn a = false /\ error a = Some ErrCamera
                 /\ streamRef a = streamRef s /\ toggles a = n)
      by (injection Ha as <-; destruct_state s; cbn; split_and!; reflexivity).
    destruct Ea as (Ea1 & Ea2 & Ea3 & Ea4).
    rewrite Ea1 in Hcam. rewrite Ea2 in Herr. rewrite Ea3 in Hsr. rewrite Ea4 in Htg.
    assert (Hr : analysisIntervalRef (commit s a) = None).
    { destruct (analysisIntervalRef (commit s a)); [|done].
      destruct Href' as (? & _). congruence. }
    assert (Hno : forall id cb p due,
              timers (commit s a) !! id <> Some (Interval cb p due)).
    { intros id cb p due Hl. apply Hi' in Hl. congruence. }
    rewrite Htg.
    split_and!; try done.
    intros t' id mounted context. unfold step. case_decide; [|done]. cbn.
    destruct (timers _ !! id) as [[cb p due|]|] eqn:Etm; try done.
    by apply Hno in Etm.
  - intros s' Hoff Hctx Hstep.
    apply step_inv in Hstep as (_ & a & Ha & ->).
    assert (a = setIsCameraOn false (setError (Some ErrCamera)
                  (setError None (set_clock t s)))) as ->.
    { unfold handle, handleToggleCamera in Ha.
      change (isCameraOn (set_clock t s)) with (isCameraOn s) in Ha.
      change (audioContextRef (setError None (set_clock t s)))
        with (audioContextRef s) in Ha.
      rewrite Hoff, Hctx in Ha. by injection Ha as <-. }
    rewrite commit_unchanged.
    + destruct_state s. by cbn in *.
    + destruct_state s. cbn in *. by subst cam.
Qed.

(** X17 -- Unmounting.  From every state the program can reach, the
    cleanups React runs when [App] is unmounted leave no interval timer,
    an empty interval ref, no stream and the camera flag down.  They do
    not cancel a pending cooldown timeout, do not abandon a call in
    flight and do not close the audio context: the timeouts, the pending
    calls, the flags and the context are as before.  The order of the
    two cleanups does not matter. *)
Theorem unmount_cleans_up (trace : list (Z * Event)) (s : State) :
  run unicodeUpper ai initial trace = Some s ->
  unmount s = intervalCleanup (stopCamera s)
  /\ analysisIntervalRef (unmount s) = None
  /\ streamRef (unmount s) = None /\ stream (unmount s) = None
  /\ isCameraOn (unmount s) = false
  /\ (forall id cb p due, timers (unmount s) !! id <> Some (Interval cb p due))
  /\ sameTimeouts (timers s) (timers (unmount s))
  /\ analyses (unmount s) = analyses s /\ flags (unmount s) = flags s
  /\ audioContextRef (unmount s) = audioContextRef s.
Proof.
  intros Hrun.
  destruct (reachable_all _ _ _ _ Hrun) as ((_ & [Href Huniq] & _) & _).
  unfold unmount, intervalCleanup, stopCamera, clearInterval.
  destruct_state s. cbn in *.
  destruct ref as [[|id]|]; cbn.
  - by destruct Href as (_ & ? & _).
  - destruct Href as (_ & _ & due & Hdue).
    destruct sref; cbn; (split_and!; try done);
      rewrite delete_delete_eq;
      first [ reflexivity
            | intros id' cb p due' Hl;
              apply lookup_delete_Some in Hl as [Hne Hl]; apply Huniq in Hl;
              congruence
            | apply sameTimeouts_delete; intros d; by rewrite Hdue ].
  - destruct sref; cbn; (split_and!; try done);
      try (intros id' cb p due' Hl; by apply Huniq in Hl);
      apply sameTimeouts_refl.
Qed.

(** X18 -- No person.  When the analysis reply is classified NoPerson
    the cycle ends there: no speech call is made, nothing is played, no
    cooldown is started and no error is set; the state is Idle and shows
    the no-person text (the test of line 138 always passes).  With the
    camera on, a tick can fire one sampling interval later and captures
    the next frame. *)
Theorem no_person_returns_to_idle (trace : list (Z * Event)) (s s' : State)
    (t : Z) (reply : Result (option jsstring)) (text : jsstring) :
  run unicodeUpper ai initial trace = Some s ->
  analyzeFrame ai reply = Ok text ->
  detection unicodeUpper text = NoPerson ->
  step unicodeUpper ai s t (AnalyzeFrameSettled reply) = Some s' ->
  isIdle s' = true /\ analyses s' = [] /\ noTimeout (timers s')
  /\ analysisResult s' = StatusNoPerson
  /\ played s' = played s /\ error s' = error s /\ frames s' = frames s
  /\ (isCameraOn s = true ->
      exists id, forall t',
        t + analysisInterval s <= t' ->
        exists s'',
          step unicodeUpper ai s' t' (Tick id true true) = Some s''
          /\ frames s'' = t' :: frames s').
Proof.
  intros Hrun Hreply Hdet Hstep.
  destruct (reachable_all _ _ _ _ Hrun) as (HInv & _ & Hrange & _).
  pose proof (step_Inv _ _ _ _ _ _ HInv Hstep) as HInv'.
  destruct (analyze_settled _ _ _ _ _ _ HInv Hstep)
    as (_ & Hfl & Hclk & Hfr & Hcam & Hivl & Hno & Hres).
  rewrite Hreply in Hres. unfold detection in Hdet.
  destruct (isDetected unicodeUpper text); [done|].
  destruct Hres as (Herr & Han & Hfl' & Hst).
  assert (Hidle : isIdle s' = true).
  { unfold isIdle. unfold flags in Hfl'. by injection Hfl' as -> -> ->. }
  assert (Hpl : played s' = played s).
  { pose proof HInv as (_ & _ & Hcyc).
    apply step_inv in Hstep as (_ & a & Ha & ->).
    destruct (commit_fields s a) as (_ & _ & _ & _ & -> & _).
    cbn in Ha.
    destruct (resume analyzing (analyses s)) as [[closure rest]|]; [|done].
    cbn in Ha. injection Ha as <-. unfold afterAnalyzeFrame, suspend.
    destruct (analyzeFrame ai reply) as [result|e];
      [destruct (isDetected unicodeUpper result)|]; destruct closure as [? ? []];
      destruct_state s; by cbn in *. }
  split_and!; try done.
  intros Hon.
  destruct (step_rearmed _ _ _ _ _ _ HInv Hstep) as (id & _ & Hid);
    [congruence|congruence|].
  unfold intervalInRange in Hrange.
  exists id. intros t' Ht'. rewrite Hivl in Hid.
  destruct (tick_enabled unicodeUpper ai s' t' id _ _ _ true true Hid) as [s'' Htick];
    [lia|lia|].
  exists s''. split; [done|].
  by destruct (tick_idle _ _ _ _ _ _ HInv' Hidle Htick) as (? & _).
Qed.

(** X19 -- The guards of a tick.  A tick that finds the state Idle:
    with the video or the canvas ref unset it returns at line 100 and
    nothing changes but the timer, due again one interval later; with
    both set the error on display is cleared, and then a frame is
    captured and the analysis call made if the canvas gives a 2d context,
    while without one nothing is captured, nothing is pending and the
    state is Idle again, so that the next tick tries anew. *)
Theorem tick_guards (trace : list (Z * Event)) (s s' : State) (t : Z)
    (id : nat) (mounted context : bool) :
  run unicodeUpper ai initial trace = Some s ->
  isIdle s = true ->
  step unicodeUpper ai s t (Tick id mounted context) = Some s' ->
  if mounted then
    error s' = None
    /\ if context then
         frames s' = t :: frames s /\ isLoading s' = true
         /\ analyses s' = [AwaitAnalyzeFrame (mkFlags false false false)]
       else
         frames s' = frames s /\ isIdle s' = true /\ analyses s' = []
         /\ timers s' !! id
            = Some (Interval (flags s) (analysisInterval s) (t + analysisInterval s))
  else
    s' = set_timers (<[id := Interval (flags s) (analysisInterval s)
                                      (t + analysisInterval s)]> (timers s))
                    (set_clock t s).
Proof.
  intros Hrun Hidle Hstep.
  destruct (reachable_all _ _ _ _ Hrun) as (HInv & _).
  pose proof HInv as (_ & Hivl & Hcyc).
  assert (Hfl : flags s = mkFlags false false false).
  { unfold isIdle in Hidle. unfold flags.
    destruct (isLoading s), (isSpeaking s), (isOnCooldown s); done. }
  destruct (idle_cycle s Hcyc Hfl) as [Han _].
  destruct mounted; [destruct context|].
  - destruct (tick_idle _ _ _ _ _ _ HInv Hidle Hstep) as (Hfr & Han' & Hfl').
    unfold flags in Hfl'. injection Hfl' as Hl _ _. split_and!; try done.
    apply step_inv in Hstep as (_ & a & Ha & ->).
    destruct (commit_fields s a) as (_ & _ & _ & _ & _ & -> & _).
    cbn in Ha. destruct (timers s !! id) as [[cb p due|]|] eqn:Etm; try done.
    case_decide; [|done]. injection Ha as <-.
    destruct (interval_at_ref s id cb p due Hivl Etm) as (_ & _ & _ & -> & _).
    unfold runAnalysis. rewrite Hfl. by destruct_state s.
  - apply step_inv in Hstep as (_ & a & Ha & ->).
    cbn in Ha. destruct (timers s !! id) as [[cb p due|]|] eqn:Etm; try done.
    case_decide; [|done]. injection Ha as <-.
    destruct (interval_at_ref s id cb p due Hivl Etm) as (_ & _ & _ & -> & ->).
    unfold runAnalysis. rewrite Hfl. cbn [negb loading speaking onCooldown orb].
    rewrite commit_unchanged.
    + unfold isIdle, flags in *. injection Hfl as Hl Hsp Hcd.
      destruct_state s. cbn in *. subst. split_and!; try done.
      apply lookup_insert_eq.
    + unfold deps, flags in *. injection Hfl as Hl Hsp Hcd.
      destruct_state s. cbn in *. by subst.
  - apply step_inv in Hstep as (_ & a & Ha & ->).
    cbn in Ha. destruct (timers s !! id) as [[cb p due|]|] eqn:Etm; try done.
    case_decide; [|done]. injection Ha as <-.
    destruct (interval_at_ref s id cb p due Hivl Etm) as (_ & _ & _ & -> & ->).
    unfold runAnalysis. cbn [negb]. by rewrite commit_unchanged.
Qed.

(** X20 -- Turning the camera off.  In every state the program can
    reach with the camera on, the camera button can be pressed, and then:
    the camera flag is down, the stream and both refs are released, the
    start text is shown, no interval timer is left and no tick can fire
    any more; the cycle in flight is not touched (flags, pending call,
    cooldown timeout and frames are as before) and no camera request is
    made. *)
Theorem toggle_off_stops_sampling (trace : list (Z * Event)) (s : State)
    (t : Z) (audioAvailable : bool) :
  run unicodeUpper ai initial trace = Some s ->
  isCameraOn s = true -> clock s <= t ->
  exists s',
    step unicodeUpper ai s t (ToggleClicked audioAvailable) = Some s'
    /\ isCameraOn s' = false /\ stream s' = None /\ streamRef s' = None
    /\ analysisIntervalRef s' = None /\ analysisResult s' = StatusStart
    /\ (forall id cb p due, timers s' !! id <> Some (Interval cb p due))
    /\ (forall t' id mounted context,
          step unicodeUpper ai s' t' (Tick id mounted context) = None)
    /\ flags s' = flags s /\ analyses s' = analyses s /\ frames s' = frames s
    /\ sameTimeouts (timers s) (timers s')
    /\ toggles s' = toggles s.
Proof.
  intros Hrun Hon Hclk.
  destruct (reachable_all _ _ _ _ Hrun) as (HInv & _).
  assert (Hex : exists s', step unicodeUpper ai s t (ToggleClicked audioAvailable)
                           = Some s').
  { unfold step. rewrite decide_True by done. cbn. by eexists. }
  destruct Hex as [s' Hstep]. exists s'. split; [done|].
  pose proof (step_Inv _ _ _ _ _ _ HInv Hstep) as (_ & [Href' Hi'] & _).
  destruct (ui_event_view _ _ _ _ _ _ HInv Hstep I) as (_ & Hfl & Han & Hfr & Hs).
  apply step_inv in Hstep as (_ & a & Ha & ->).
  destruct (commit_fields s a)
    as (_ & Hcam & _ & _ & _ & _ & Hres & Hstr & Hsr & _ & Htg).
  assert (Ea : isCameraOn a = false /\ stream a = None /\ streamRef a = None
               /\ analysisResult a = StatusStart /\ toggles a = toggles s).
  { unfold handle, handleToggleCamera in Ha.
    change (isCameraOn (set_clock t s)) with (isCameraOn s) in Ha.
    rewrite Hon in Ha. injection Ha as <-. unfold stopCamera, clearInterval.
    destruct_state s. cbn. destruct (truthyId ref); cbn; by destruct sref. }
  destruct Ea as (Ea1 & Ea2 & Ea3 & Ea4 & Ea5).
  rewrite Ea1 in Hcam. rewrite Ea2 in Hstr. rewrite Ea3 in Hsr.
  rewrite Ea4 in Hres. rewrite Ea5 in Htg.
  assert (Hr : analysisIntervalRef (commit s a) = None).
  { destruct (analysisIntervalRef (commit s a)); [|done].
    destruct Href' as (? & _). congruence. }
  assert (Hno : forall id cb p due,
            timers (commit s a) !! id <> Some (Interval cb p due)).
  { intros id cb p due Hl. apply Hi' in Hl. congruence. }
  split_and!; try done.
  intros t' id mounted context. unfold step. case_decide; [|done]. cbn.
  destruct (timers _ !! id) as [[cb p due|]|] eqn:Etm; try done.
  by apply Hno in Etm.
Qed.

(** X21 -- Turning the camera on.  When [getUserMedia] succeeds with
    the camera off: the camera flag is up, the stream is stored in the
    state and in the ref, the waiting text is shown, and the interval
    timer is registered with the current sampling interval.  Its first
    tick cannot fire before one interval has passed and can fire from
    then on; if the state is Idle, that tick captures a frame. *)
Theorem camera_on_starts_sampling (trace : list (Z * Event)) (s s' : State)
    (t : Z) (mediaStream : MediaStream) :
  run unicodeUpper ai initial trace = Some s ->
  isCameraOn s = false ->
  step unicodeUpper ai s t (GetUserMediaSettled (Ok mediaStream)) = Some s' ->
  isCameraOn s' = true
  /\ stream s' = Some mediaStream /\ streamRef s' = Some mediaStream
  /\ analysisResult s' = StatusCameraOn /\ frames s' = frames s
  /\ analysisInterval s' = analysisInterval s
  /\ exists id,
      analysisIntervalRef s' = Some id
      /\ timers s' !! id
         = Some (Interval (flags s') (analysisInterval s') (t + analysisInterval s'))
      /\ (forall t' mounted context,
            t' < t + analysisInterval s' ->
            step unicodeUpper ai s' t' (Tick id mounted context) = None)
      /\ (forall t',
            t + analysisInterval s' <= t' ->
            exists s'',
              step unicodeUpper ai s' t' (Tick id true true) = Some s''
              /\ (isIdle s' = true -> frames s'' = t' :: frames s')).
Proof.
  intros Hrun Hoff Hstep.
  destruct (reachable_all _ _ _ _ Hrun) as (HInv & _ & Hrange & _).
  pose proof (step_Inv _ _ _ _ _ _ HInv Hstep) as HInv'.
  destruct (camera_on_arms _ _ _ _ _ _ HInv Hoff Hstep) as (Hon & id & Hid & Hl).
  destruct (ui_event_view _ _ _ _ _ _ HInv Hstep I) as (Hclk & Hfl & _ & Hfr & _).
  assert (Ea : stream s' = Some mediaStream /\ streamRef s' = Some mediaStream
               /\ analysisResult s' = StatusCameraOn
               /\ analysisInterval s' = analysisInterval s).
  { pose proof Hstep as (_ & a & Ha & ->)%step_inv.
    destruct (commit_fields s a) as (_ & _ & _ & _ & _ & _ & -> & -> & -> & _).
    destruct (commit_analysisInterval s a) as [-> _].
    cbn in Ha. destruct (toggles s); [done|]. injection Ha as <-.
    by destruct_state s. }
  destruct Ea as (Ea1 & Ea2 & Ea3 & Ea4).
  rewrite Hfl, Ea4. unfold intervalInRange in Hrange.
  split_and!; try done. exists id. split_and!; try done.
  - intros t' mounted context Ht'. unfold step. case_decide; [|done]. cbn.
    rewrite Hl. by rewrite decide_False by lia.
  - intros t' Ht'.
    destruct (tick_enabled unicodeUpper ai s' t' id _ _ _ true true Hl)
      as [s'' Htick]; [lia|lia|].
    exists s''. split; [done|]. intros Hidle.
    by destruct (tick_idle _ _ _ _ _ _ HInv' Hidle Htick) as (? & _).
Qed.

(** X22 -- The greeting that is shown is the one that is spoken.  When
    the analysis reply is classified Detected, the text put on display
    and the text handed to [textToSpeech] are the same: the reply's text,
    trimmed.  isLoading is lowered, isSpeaking and isOnCooldown are
    raised together, no timeout is pending yet, nothing has been played
    and no error is set. *)
Theorem greeting_is_shown_and_spoken (trace : list (Z * Event)) (s s' : State)
    (t : Z) (reply : Result (option jsstring)) (text : jsstring) :
  run unicodeUpper ai initial trace = Some s ->
  analyzeFrame ai reply = Ok text ->
  detection unicodeUpper text = Detected text ->
  step unicodeUpper ai s t (AnalyzeFrameSettled reply) = Some s' ->
  analysisResult s' = StatusGreeting text
  /\ analyses s' = [AwaitTextToSpeech text]
  /\ (exists raw, reply = Ok (Some raw) /\ text = trim raw)
  /\ flags s' = mkFlags false true true
  /\ noTimeout (timers s') /\ played s' = played s /\ error s' = error s
  /\ frames s' = frames s.
Proof.
  intros Hrun Hreply Hdet Hstep.
  destruct (reachable_all _ _ _ _ Hrun) as (HInv & _).
  destruct (analyze_settled _ _ _ _ _ _ HInv Hstep)
    as (_ & _ & _ & Hfr & _ & _ & Hno & Hres).
  rewrite Hreply in Hres. unfold detection in Hdet.
  destruct (isDetected unicodeUpper text) eqn:Edet; [|done].
  destruct Hres as (Herr & Han & Hfl & Hst).
  assert (Hraw : exists raw, reply = Ok (Some raw) /\ text = trim raw).
  { revert Hreply. unfold analyzeFrame, try_catch.
    destruct reply as [[raw|]|e]; cbn; try done.
    - intros [= <-]. by exists raw.
    - by destruct (instanceofError e). }
  assert (Hpl : played s' = played s).
  { apply step_inv in Hstep as (_ & a & Ha & ->).
    destruct (commit_fields s a) as (_ & _ & _ & _ & -> & _).
    cbn in Ha.
    destruct (resume analyzing (analyses s)) as [[closure rest]|]; [|done].
    cbn in Ha. injection Ha as <-. unfold afterAnalyzeFrame, suspend.
    rewrite Hreply, Edet. by destruct_state s. }
  split_and!; done.
Qed.

(** X23 -- A blank reply.  A reply that consists of white space only
    (the empty text among them) is trimmed to the empty text by
    [analyzeFrame], and the empty text is classified NoPerson by the test
    of line 118: nothing is spoken for it. *)
Theorem blank_reply_is_no_person (response : jsstring) :
  Forall (fun c => isWhiteSpace c = true) response ->
  analyzeFrame ai (Ok (Some response)) = Ok []
  /\ detection unicodeUpper [] = NoPerson
  /\ isDetected unicodeUpper (trim response) = false.
Proof.
  intros Hblank.
  assert (Htrim : trim response = []).
  { unfold trim.
    assert (Hs : trimStart response = []).
    { induction Hblank as [|c rest Hc _ IH]; [done|].
      cbn [trimStart]. by rewrite Hc. }
    by rewrite Hs. }
  unfold analyzeFrame, try_catch. cbn. rewrite Htrim. done.
Qed.

End AppProperties.

(** ** The further properties on concrete runs *)

Ltac reached trace s Hrun :=
  destruct (App.run Examples.plainUpper Examples.ai App.initial trace)
    as [s|] eqn:Hrun; [|by vm_compute in Hrun].

Ltac stepped s0 Hrun t ev s' Hstep :=
  destruct (App.step Examples.plainUpper Examples.ai s0 t ev) as [s'|] eqn:Hstep;
    [|vm_compute in Hrun; injection Hrun as <-; by vm_compute in Hstep].

Lemma audio_context_ready_witness :
  exists s,
    App.run Examples.plainUpper Examples.ai App.initial Examples.analyzing = Some s
    /\ App.audioContextRef s = Some (mkAudioContext 24000).
Proof.
  reached Examples.analyzing s Hrun.
  assert (Hon : App.isCameraOn s = true)
    by (vm_compute in Hrun; by injection Hrun as <-).
  destruct (audio_context_ready Examples.plainUpper Examples.ai _ s Hrun
              (or_introl Hon)) as (Hctx & _).
  by exists s.
Defined.

Lemma played_buffers_playable_witness :
  exists s,
    App.run Examples.plainUpper Examples.ai App.initial Scenarios.greeted = Some s
    /\ length (App.played s) = 1%nat
    /\ Forall AppResources.playable (App.played s).
Proof.
  reached Scenarios.greeted s Hrun.
  assert (Hlen : length (App.played s) = 1%nat)
    by (vm_compute in Hrun; by injection Hrun as <-).
  destruct (played_buffers_playable Examples.plainUpper Examples.ai _ s Hrun)
    as [Hpl _].
  by exists s.
Defined.

Lemma stream_follows_camera_witness :
  exists s,
    App.run Examples.plainUpper Examples.ai App.initial Scenarios.watching = Some s
    /\ App.stream s = App.streamRef s
    /\ exists mediaStream, App.streamRef s = Some mediaStream.
Proof.
  reached Scenarios.watching s Hrun.
  assert (Hon : App.isCameraOn s = true)
    by (vm_compute in Hrun; by injection Hrun as <-).
  destruct (stream_follows_camera Examples.plainUpper Examples.ai _ s Hrun)
    as [Heq Hs].
  exists s. split_and!; try done. by apply Hs.
Defined.

Lemma timers_never_leak_witness :
  exists s,
    App.run Examples.plainUpper Examples.ai App.initial Examples.analyzing = Some s
    /\ forall id cb p due,
        App.timers s !! id = Some (App.Interval cb p due) ->
        App.analysisIntervalRef s = Some id /\ p = 10000.
Proof.
  reached Examples.analyzing s Hrun.
  assert (Hivl : App.analysisInterval s = 10000)
    by (vm_compute in Hrun; by injection Hrun as <-).
  destruct (timers_never_leak Examples.plainUpper Examples.ai _ s Hrun)
    as (_ & Huniq & _).
  exists s. split; [done|]. intros id cb p due Hl.
  destruct (Huniq _ _ _ _ Hl) as (_ & ? & _ & ?). split; congruence.
Defined.

Lemma flags_track_cycle_witness :
  exists s,
    App.run Examples.plainUpper Examples.ai App.initial Examples.analyzing = Some s
    /\ App.isLoading s = true
    /\ exists closure, App.analyses s = [App.AwaitAnalyzeFrame closure].
Proof.
  reached Examples.analyzing s Hrun.
  assert (Hl : App.isLoading s = true)
    by (vm_compute in Hrun; by injection Hrun as <-).
  destruct (flags_track_cycle Examples.plainUpper Examples.ai _ s Hrun)
    as (Hload & _).
  exists s. split_and!; try done. by apply Hload.
Defined.

Lemma captures_paced_witness :
  exists s,
    App.run Examples.plainUpper Examples.ai App.initial Scenarios.secondCapture
    = Some s
    /\ App.frames s = [20500; 10010]
    /\ forall later earlier,
        App.frames s !! 0%nat = Some later -> App.frames s !! 1%nat = Some earlier ->
        earlier + 2000 <= later.
Proof.
  reached Scenarios.secondCapture s Hrun.
  assert (Hfr : App.frames s = [20500; 10010])
    by (vm_compute in Hrun; by injection Hrun as <-).
  destruct (captures_paced Examples.plainUpper Examples.ai _ s Hrun) as [Hgap _].
  exists s. split_and!; try done.
  intros later earlier. apply (Hgap 0%nat 1%nat). lia.
Defined.

Lemma interval_on_slider_grid_witness :
  exists s,
    App.run Examples.plainUpper Examples.ai App.initial Scenarios.retuned = Some s
    /\ App.analysisInterval s = 3000
    /\ App.sliderValue (App.analysisInterval s) = true.
Proof.
  reached Scenarios.retuned s Hrun.
  assert (Hivl : App.analysisInterval s = 3000)
    by (vm_compute in Hrun; by injection Hrun as <-).
  destruct (interval_on_slider_grid Examples.plainUpper Examples.ai _ s Hrun)
    as (Hgrid & _).
  by exists s.
Defined.

Lemma analysis_error_surfaced_witness :
  exists s s',
    App.run Examples.plainUpper Examples.ai App.initial Examples.analyzing = Some s
    /\ App.step Examples.plainUpper Examples.ai s 10500
         (App.AnalyzeFrameSettled (Throw NonError)) = Some s'
    /\ App.error s'
       = Some (App.ErrAnalysis (js "An unknown error occurred during analysis.")).
Proof.
  reached Examples.analyzing s Hrun.
  stepped s Hrun 10500 (App.AnalyzeFrameSettled (Throw NonError)) s' Hstep.
  pose proof (analysis_error_surfaced Examples.plainUpper Examples.ai _ s s'
                10500 (Throw NonError) Hrun Hstep) as (_ & Herr & _).
  by exists s, s'.
Defined.

Lemma speech_failure_handling_witness :
  exists s s',
    App.run Examples.plainUpper Examples.ai App.initial Examples.speaking = Some s
    /\ App.step Examples.plainUpper Examples.ai s 10600
         (App.TextToSpeechSettled Scenarios.oddPayload) = Some s'
    /\ App.error s' = Some App.ErrPlayback /\ App.played s' = App.played s
    /\ AppInvariants.enteredCooldown 10600 s'.
Proof.
  reached Examples.speaking s Hrun.
  stepped s Hrun 10600 (App.TextToSpeechSettled Scenarios.oddPayload) s' Hstep.
  pose proof (speech_failure_handling Examples.plainUpper Examples.ai _ s s'
                10600 Scenarios.oddPayload Hrun Hstep) as H.
  by exists s, s'.
Defined.

Lemma camera_request_failures_witness :
  exists s s',
    App.run Examples.plainUpper Examples.ai App.initial Scenarios.requested = Some s
    /\ App.step Examples.plainUpper Examples.ai s 10
         (App.GetUserMediaSettled (Throw NonError)) = Some s'
    /\ App.isCameraOn s' = false /\ App.error s' = Some App.ErrCamera
    /\ App.step Examples.plainUpper Examples.ai s' 10010 (App.Tick 1 true true)
       = None.
Proof.
  reached Scenarios.requested s Hrun.
  stepped s Hrun 10 (App.GetUserMediaSettled (Throw NonError)) s' Hstep.
  destruct (camera_request_failures Examples.plainUpper Examples.ai _ s 10 Hrun)
    as [Hdenied _].
  destruct (Hdenied _ _ Hstep) as (Hoff & Herr & _ & _ & Htick & _).
  exists s, s'. split_and!; try done.
Defined.

Lemma unmount_cleans_up_witness :
  exists s,
    App.run Examples.plainUpper Examples.ai App.initial Examples.analyzing = Some s
    /\ App.timers s <> ∅
    /\ App.analysisIntervalRef (AppResources.unmount s) = None
    /\ App.streamRef (AppResources.unmount s) = None
    /\ App.analyses (AppResources.unmount s) = App.analyses s.
Proof.
  reached Examples.analyzing s Hrun.
  assert (Htm : App.timers s <> ∅).
  { vm_compute in Hrun. injection Hrun as <-. intros E.
    apply (f_equal (fun m => m !! 2%nat)) in E. discriminate E. }
  destruct (unmount_cleans_up Examples.plainUpper Examples.ai _ s Hrun)
    as (_ & Href & Hsr & _ & _ & _ & _ & Han & _).
  by exists s.
Defined.

Lemma no_person_returns_to_idle_witness :
  exists s s',
    App.run Examples.plainUpper Examples.ai App.initial Examples.analyzing = Some s
    /\ App.step Examples.plainUpper Examples.ai s 10500
         (App.AnalyzeFrameSettled Scenarios.nobody) = Some s'
    /\ App.isIdle s' = true /\ App.played s' = App.played s
    /\ App.analysisResult s' = App.StatusNoPerson.
Proof.
  reached Examples.analyzing s Hrun.
  stepped s Hrun 10500 (App.AnalyzeFrameSettled Scenarios.nobody) s' Hstep.
  destruct (no_person_returns_to_idle Examples.plainUpper Examples.ai _ s s'
              10500 Scenarios.nobody (js "nopers") Hrun eq_refl eq_refl Hstep)
    as (Hidle & _ & _ & Hres & Hpl & _).
  by exists s, s'.
Defined.

Lemma tick_guards_witness :
  exists s s',
    App.run Examples.plainUpper Examples.ai App.initial Scenarios.watching = Some s
    /\ App.step Examples.plainUpper Examples.ai s 10010 (App.Tick 1 true false)
       = Some s'
    /\ App.frames s' = App.frames s /\ App.isIdle s' = true.
Proof.
  reached Scenarios.watching s Hrun.
  stepped s Hrun 10010 (App.Tick 1 true false) s' Hstep.
  assert (Hidle : App.isIdle s = true)
    by (vm_compute in Hrun; by injection Hrun as <-).
  pose proof (tick_guards Examples.plainUpper Examples.ai _ s s' 10010 1 true false
                Hrun Hidle Hstep) as (_ & Hfr & Hidle' & _).
  by exists s, s'.
Defined.

Lemma toggle_off_stops_sampling_witness :
  exists s s',
    App.run Examples.plainUpper Examples.ai App.initial Examples.analyzing = Some s
    /\ App.step Examples.plainUpper Examples.ai s 10020 (App.ToggleClicked true)
       = Some s'
    /\ App.isCameraOn s' = false /\ App.analyses s' = App.analyses s
    /\ App.step Examples.plainUpper Examples.ai s' 20010 (App.Tick 2 true true)
       = None.
Proof.
  reached Examples.analyzing s Hrun.
  assert (Hs : App.isCameraOn s = true /\ App.clock s <= 10020)
    by (vm_compute in Hrun; injection Hrun as <-; by vm_compute).
  destruct Hs as [Hon Hclk].
  destruct (toggle_off_stops_sampling Examples.plainUpper Examples.ai _ s 10020
              true Hrun Hon Hclk)
    as (s' & Hstep & Hoff & _ & _ & _ & _ & _ & Htick & _ & Han & _).
  by exists s, s'.
Defined.

Lemma camera_on_starts_sampling_witness :
  exists s s',
    App.run Examples.plainUpper Examples.ai App.initial Scenarios.requested = Some s
    /\ App.step Examples.plainUpper Examples.ai s 10
         (App.GetUserMediaSettled (Ok 1%nat)) = Some s'
    /\ App.isCameraOn s' = true /\ App.streamRef s' = Some 1%nat
    /\ exists id,
        App.timers s' !! id
        = Some (App.Interval (App.flags s') (App.analysisInterval s')
                             (10 + App.analysisInterval s')).
Proof.
  reached Scenarios.requested s Hrun.
  stepped s Hrun 10 (App.GetUserMediaSettled (Ok 1%nat)) s' Hstep.
  assert (Hoff : App.isCameraOn s = false)
    by (vm_compute in Hrun; by injection Hrun as <-).
  destruct (camera_on_starts_sampling Examples.plainUpper Examples.ai _ s s' 10
              1%nat Hrun Hoff Hstep)
    as (Hon & _ & Hsr & _ & _ & _ & id & _ & Hid & _).
  exists s, s'. split_and!; try done. by exists id.
Defined.

Lemma greeting_is_shown_and_spoken_witness :
  exists s s',
    App.run Examples.plainUpper Examples.ai App.initial Examples.analyzing = Some s
    /\ App.step Examples.plainUpper Examples.ai s 10500
         (App.AnalyzeFrameSettled Examples.greeting) = Some s'
    /\ App.analysisResult s' = App.StatusGreeting (js "hi")
    /\ App.analyses s' = [App.AwaitTextToSpeech (js "hi")].
Proof.
  reached Examples.analyzing s Hrun.
  stepped s Hrun 10500 (App.AnalyzeFrameSettled Examples.greeting) s' Hstep.
  destruct (greeting_is_shown_and_spoken Examples.plainUpper Examples.ai _ s s'
              10500 Examples.greeting (js "hi") Hrun eq_refl eq_refl Hstep)
    as (Hres & Han & _).
  by exists s, s'.
Defined.

Lemma blank_reply_is_no_person_witness :
  analyzeFrame Examples.ai (Ok (Some (js "  "))) = Ok []
  /\ App.detection Examples.plainUpper [] = App.NoPerson.
Proof.
  destruct (blank_reply_is_no_person Examples.plainUpper Examples.ai (js "  "))
    as (Hres & Hdet & _).
  - repeat constructor.
  - by split.
Defined.
